(** * Customer rotation calculator: persistence and CSV export

    A shallow embedding of the TypeScript sources
    - [utils/csvExport.ts]      (module [CsvExport]),
    - [utils/exportData.ts]     (module [ExportData]),
    - [hooks/usePersistentState.ts] (modules [PersistentState] and
      [RenderCycle]),
    - [hooks/useCalculatorState.ts] (module [CalculatorState]),
    together with the part of the JavaScript runtime they call
    (module [JS]).

    Conventions of the embedding.
    - A JavaScript string is a Rocq [string] holding its UTF-8 bytes.  The
      delimiters the code looks for (comma, double quote, line feed,
      carriage return) are ASCII, and an ASCII byte never occurs inside a
      multi-byte UTF-8 sequence, so searching and splitting bytes agrees
      with searching and splitting UTF-16 code units.
    - A JavaScript number is [JS.number]: NaN, the two infinities, or a
      rational (every finite binary64 value is one; the sign of zero is
      left out).  Comparisons, [Math.min], [Math.abs], [Math.round] and
      [toFixed] are exact on binary64 values and are defined here; the
      operations whose result the runtime rounds or prints ([*], [/],
      [Number.prototype.toString], [Number(text)]) are parameters, gathered
      in [JS.Runtime], so that what is proved holds however they round.
    - A JavaScript object is the list of its own properties in the order
      of their creation.  [Object.keys], [Object.values] and
      [JSON.stringify] enumerate the properties named by an array index
      first, in ascending order of the index, and the others after them in
      the order of creation: this is [JS.Object_entries].  A record of the
      CSV export inherits from [Object.prototype], and reading a property
      it does not have itself finds the inherited one
      ([CsvExport.Object_prototype]).
    - A value of the persistent state is a [PersistentState.json]; its
      finite numbers are those the engine prints in positional notation,
      whole or with a fraction, and [JSON.stringify] is defined on them as
      the engine prints them.  Numbers printed with an exponent (below
      10^-6 or from 10^21 on) are left out.
    - The hook is modelled twice: [PersistentState] follows one container
      whose updates are applied at the call and whose storage area never
      changes what it refuses; [RenderCycle] has React's update queue, the
      probe of every render and an area that changes from outside. *)

From Stdlib Require Import ZArith QArith Qabs Qround String Ascii List Bool Lia.
From Stdlib Require Import DecimalString DecimalPos DecimalZ FinFun.
From stdpp Require Import base gmap strings list.

#[local] Arguments String.append !_ _ / : simpl nomatch.
#[local] Set Warnings "-register-all".

(** ** The JavaScript runtime *)

Module JS.

Definition quote : ascii := "034"%char.
Definition comma : ascii := ","%char.
Definition LF : ascii := "010"%char.
Definition CR : ascii := "013"%char.

Definition str (c : ascii) : string := String c EmptyString.

(** [s.includes(sub)] *)
Fixpoint includes (s sub : string) : bool :=
  if String.prefix sub s then true
  else match s with
       | EmptyString => false
       | String _ s' => includes s' sub
       end.

(** [s.replace(/c/g, by)] for a pattern that is one literal character. *)
Fixpoint replace_char (c : ascii) (by_ : string) (s : string) : string :=
  match s with
  | EmptyString => EmptyString
  | String a s' =>
      if Ascii.eqb a c then by_ +:+ replace_char c by_ s'
      else String a (replace_char c by_ s')
  end.

(** [s.split(sep)] for a separator that is one character: never empty. *)
Fixpoint split (sep : ascii) (s : string) : list string :=
  match s with
  | EmptyString => [EmptyString]
  | String a s' =>
      if Ascii.eqb a sep then EmptyString :: split sep s'
      else match split sep s' with
           | h :: t => String a h :: t
           | [] => [String a EmptyString]
           end
  end.

(** [arr.join(sep)] on an array of strings. *)
Definition join (sep : string) (arr : list string) : string := String.concat sep arr.

(** [arr.map((x, index) => f x index)] *)
Fixpoint mapi_from {A B} (i : nat) (f : A -> nat -> B) (arr : list A) : list B :=
  match arr with
  | [] => []
  | x :: arr' => f x i :: mapi_from (S i) f arr'
  end.

Definition mapi {A B} (f : A -> nat -> B) (arr : list A) : list B := mapi_from 0 f arr.

(** [arr.forEach((x, index) => ...)] where the body updates a state. *)
Fixpoint forEach_from {A St} (i : nat) (body : St -> A -> nat -> St) (arr : list A) (st : St) : St :=
  match arr with
  | [] => st
  | x :: arr' => forEach_from (S i) body arr' (body st x i)
  end.

Definition forEach {A St} (body : St -> A -> nat -> St) (arr : list A) (st : St) : St :=
  forEach_from 0 body arr st.

(** White space as [String.prototype.trim] sees it (WhiteSpace and
    LineTerminator), in UTF-8: one, two or three bytes. *)
Definition is_ws1 (a : ascii) : bool :=
  let n := nat_of_ascii a in
  (n =? 9)%nat || (n =? 10)%nat || (n =? 11)%nat || (n =? 12)%nat || (n =? 13)%nat || (n =? 32)%nat.

(** U+00A0. *)
Definition is_ws2 (a b : ascii) : bool :=
  (nat_of_ascii a =? 194)%nat && (nat_of_ascii b =? 160)%nat.

(** U+1680, U+2000..U+200A, U+2028, U+2029, U+202F, U+205F, U+3000, U+FEFF. *)
Definition is_ws3 (a b c : ascii) : bool :=
  let x := nat_of_ascii a in
  let y := nat_of_ascii b in
  let z := nat_of_ascii c in
  ((x =? 225)%nat && (y =? 154)%nat && (z =? 128)%nat)
  || ((x =? 226)%nat && (y =? 128)%nat
      && (((128 <=? z)%nat && (z <=? 138)%nat) || (z =? 168)%nat || (z =? 169)%nat || (z =? 175)%nat))
  || ((x =? 226)%nat && (y =? 129)%nat && (z =? 159)%nat)
  || ((x =? 227)%nat && (y =? 128)%nat && (z =? 128)%nat)
  || ((x =? 239)%nat && (y =? 187)%nat && (z =? 191)%nat).

(** Strips leading white space; with [backwards] the bytes of each
    character are met last byte first (the string has been reversed). *)
Fixpoint strip_ws (backwards : bool) (s : string) : string :=
  match s with
  | String a s1 =>
      if is_ws1 a then strip_ws backwards s1
      else match s1 with
           | String b s2 =>
               if (if backwards then is_ws2 b a else is_ws2 a b) then strip_ws backwards s2
               else match s2 with
                    | String c s3 =>
                        if (if backwards then is_ws3 c b a else is_ws3 a b c)
                        then strip_ws backwards s3
                        else s
                    | EmptyString => s
                    end
           | EmptyString => s
           end
  | EmptyString => s
  end.

Definition reverse (s : string) : string :=
  string_of_list_ascii (List.rev (list_ascii_of_string s)).

Definition trimStart (s : string) : string := strip_ws false s.
Definition trimEnd (s : string) : string := reverse (strip_ws true (reverse s)).
Definition trim (s : string) : string := trimEnd (trimStart s).

(** Numbers. *)
Inductive number : Type :=
| NaN
| Infinity (negative : bool)
| Finite (q : Q).

Definition of_Z (z : Z) : number := Finite (inject_Z z).
Definition of_nat (n : nat) : number := of_Z (Z.of_nat n).

Definition Qlt_bool (a b : Q) : bool := negb (Qle_bool b a).

(** [a < b] *)
Definition lt (a b : number) : bool :=
  match a, b with
  | NaN, _ | _, NaN => false
  | Infinity true, Infinity true => false
  | Infinity true, _ => true
  | _, Infinity true => false
  | Infinity false, _ => false
  | _, Infinity false => true
  | Finite x, Finite y => Qlt_bool x y
  end.

(** [a > b] *)
Definition gt (a b : number) : bool := lt b a.

(** [a <= b] *)
Definition le (a b : number) : bool :=
  match a, b with
  | NaN, _ | _, NaN => false
  | Infinity true, _ => true
  | _, Infinity false => true
  | Infinity false, _ => false
  | _, Infinity true => false
  | Finite x, Finite y => Qle_bool x y
  end.

(** [a >= b] *)
Definition ge (a b : number) : bool := le b a.

Definition is_zero (q : Q) : bool := Qeq_bool q 0.
Definition is_neg (q : Q) : bool := Qlt_bool q 0.

(** [a * b] without rounding. *)
Definition mul_exact (a b : number) : number :=
  match a, b with
  | NaN, _ | _, NaN => NaN
  | Infinity s, Infinity t => Infinity (xorb s t)
  | Infinity s, Finite y | Finite y, Infinity s =>
      if is_zero y then NaN else Infinity (xorb s (is_neg y))
  | Finite x, Finite y => Finite (x * y)
  end.

(** [a / b] without rounding. *)
Definition div_exact (a b : number) : number :=
  match a, b with
  | NaN, _ | _, NaN => NaN
  | Infinity _, Infinity _ => NaN
  | Infinity s, Finite y => Infinity (xorb s (is_neg y))
  | Finite _, Infinity _ => Finite 0
  | Finite x, Finite y =>
      if is_zero y then (if is_zero x then NaN else Infinity (is_neg x))
      else Finite (x / y)
  end.

(** [Math.abs(a)] *)
Definition Math_abs (a : number) : number :=
  match a with
  | NaN => NaN
  | Infinity _ => Infinity false
  | Finite x => Finite (Qabs x)
  end.

(** [Math.min(a, b)] *)
Definition Math_min (a b : number) : number :=
  match a, b with
  | NaN, _ | _, NaN => NaN
  | _, _ => if lt b a then b else a
  end.

(** [Math.round(a)]: the nearest integer, a tie going up. *)
Definition Math_round (a : number) : number :=
  match a with
  | Finite x => Finite (inject_Z (Qfloor (x + (1 # 2))))
  | _ => a
  end.

(** Decimal digits of an integer, as [Number.prototype.toString] prints an
    integer of magnitude below 10^21. *)
Definition Z_toString (z : Z) : string := NilZero.string_of_int (Z.to_int z).
Definition nat_toString (n : nat) : string := Z_toString (Z.of_nat n).

Definition pad_zeros (width : nat) (s : string) : string :=
  string_of_list_ascii (List.repeat "0"%char (width - String.length s)) +:+ s.

(** [x.toFixed(digits)] for a finite [x] of magnitude below 10^21: the
    integer [n] nearest to [|x| * 10^digits], the larger one on a tie,
    printed with the point before its last [digits] digits, and a minus
    sign when [x < 0]. *)
Definition Q_toFixed (digits : nat) (x : Q) : string :=
  let n := Qfloor (Qabs x * inject_Z (10 ^ Z.of_nat digits) + (1 # 2)) in
  let m := pad_zeros (S digits) (Z_toString n) in
  let k := (String.length m - digits)%nat in
  let body :=
    if (digits =? 0)%nat then m
    else String.substring 0 k m +:+ "." +:+ String.substring k digits m in
  if is_neg x then "-" +:+ body else body.

(** [x.toFixed(digits)]: NaN and the infinities print by name, a finite
    value of magnitude 10^21 or more prints as [Number.prototype.toString]
    does. *)
Definition toFixed (Number_toString : number -> string) (digits : nat) (x : number) : string :=
  match x with
  | NaN => "NaN"
  | Infinity true => "-Infinity"
  | Infinity false => "Infinity"
  | Finite q =>
      if Qle_bool (inject_Z (10 ^ 21)) (Qabs q) then Number_toString x
      else Q_toFixed digits q
  end.

(** The operations of the runtime on numbers whose result is rounded to
    binary64 or printed: [String(n)], [Number(text)], [a * b], [a / b]. *)
Record Runtime : Type := {
  Number_toString : number -> string;
  Number_ofString : string -> number;
  mul : number -> number -> number;
  div : number -> number -> number
}.

(** The binary64 values of the literals [0.2] and [0.1]. *)
Definition literal_0_2 : number := Finite (3602879701896397 # 18014398509481984).
Definition literal_0_1 : number := Finite (3602879701896397 # 36028797018963968).

(** Objects: own properties in insertion order. *)
Definition object (V : Type) : Type := list (string * V).

(** [obj[k]] on own properties; [None] is [undefined]. *)
Fixpoint get {V} (obj : object V) (k : string) : option V :=
  match obj with
  | [] => None
  | (k', v) :: obj' => if String.eqb k' k then Some v else get obj' k
  end.

(** [obj[k] = v]: an existing property keeps its place, a new one goes last. *)
Fixpoint set {V} (obj : object V) (k : string) (v : V) : object V :=
  match obj with
  | [] => [(k, v)]
  | (k', v') :: obj' =>
      if String.eqb k' k then (k', v) :: obj' else (k', v') :: set obj' k v
  end.

(** The names of the own properties in the order of their creation, which
    is the order of [Object.keys] when no name is an array index. *)
Definition Object_keys {V} (obj : object V) : list string := map fst obj.

(** Whether a property name is an array index: the decimal text, without
    sign or leading zero, of an integer from 0 to 2^32 - 2. *)
Definition array_index (k : string) : option Z :=
  match NilZero.int_of_string k with
  | Some d =>
      let n := Z.of_int d in
      if String.eqb (Z_toString n) k && (0 <=? n)%Z && (n <? 4294967295)%Z then Some n
      else None
  | None => None
  end.

(** Puts a property named by the array index [n] in its place among the
    properties listed so far: before the first one that has a larger index
    or is not named by an index. *)
Fixpoint insert_index {V} (n : Z) (kv : string * V) (entries : list (string * V))
    : list (string * V) :=
  match entries with
  | [] => [kv]
  | kv' :: rest =>
      match array_index (fst kv') with
      | Some m => if (m <=? n)%Z then kv' :: insert_index n kv rest else kv :: entries
      | None => kv :: entries
      end
  end.

(** [Object.entries(obj)]: the own properties in the order in which the
    engine enumerates them, also for [Object.keys], [Object.values] and
    [JSON.stringify]: the names that are array indices first, in ascending
    order, then the other names in the order of their creation. *)
Definition Object_entries {V} (obj : object V) : list (string * V) :=
  fold_left
    (fun entries kv =>
       match array_index (fst kv) with
       | Some n => insert_index n kv entries
       | None => entries ++ [kv]
       end)
    obj [].

(** [Object.values(obj)] *)
Definition Object_values {V} (obj : object V) : list V := map snd (Object_entries obj).

(** Copies the own properties of [source] onto [target], in order: what
    each [...source] of an object literal does. *)
Definition copy_props {V} (target source : object V) : object V :=
  fold_left (fun t kv => set t (fst kv) (snd kv)) source target.

(** [set.add(x)] on a [Set] of strings, kept as the list of its elements
    in insertion order. *)
Definition Set_add (elements : list string) (x : string) : list string :=
  if existsb (String.eqb x) elements then elements else elements ++ [x].

(** [Array.from(new Set(arr))]: each string once, at its first place. *)
Definition Set_from (arr : list string) : list string := fold_left Set_add arr [].

End JS.

(** ** utils/csvExport.ts *)

Module CsvExport.

(** The value of a cell: [string | number | boolean | null | undefined],
    the types of a field of a row, and the two other kinds of value that
    [row[header]] can give, found on the prototype of the row: a built-in
    function, given by its name, and a plain object. *)
Inductive CsvValue : Type :=
| VNull
| VUndefined
| VBool (b : bool)
| VNum (n : JS.number)
| VStr (s : string)
| VNative (name : string)
| VPlainObject.

Definition CsvRow : Type := JS.object CsvValue.

(** What a row, an object literal, inherits from [Object.prototype]: its
    methods, and under [__proto__] the prototype itself. *)
Definition Object_prototype : JS.object CsvValue :=
  [("constructor", VNative "Object");
   ("__defineGetter__", VNative "__defineGetter__");
   ("__defineSetter__", VNative "__defineSetter__");
   ("hasOwnProperty", VNative "hasOwnProperty");
   ("__lookupGetter__", VNative "__lookupGetter__");
   ("__lookupSetter__", VNative "__lookupSetter__");
   ("isPrototypeOf", VNative "isPrototypeOf");
   ("propertyIsEnumerable", VNative "propertyIsEnumerable");
   ("toString", VNative "toString");
   ("valueOf", VNative "valueOf");
   ("__proto__", VPlainObject);
   ("toLocaleString", VNative "toLocaleString")].

Record CsvSection : Type := {
  title : string;
  headers : list string;
  rows : list CsvRow
}.

Record ValidationResult : Type := {
  isValid : bool;
  warnings : list string;
  errors : list string
}.

(** [row[header]]: the own property of that name, failing that the one
    the row inherits, and [undefined] when there is none. *)
Definition cell (row : CsvRow) (header : string) : CsvValue :=
  match JS.get row header with
  | Some v => v
  | None =>
      match JS.get Object_prototype header with
      | Some v => v
      | None => VUndefined
      end
  end.

Section WithRuntime.

(** [Number.prototype.toString], the runtime's shortest round-trip
    printer of a binary64 value. *)
Variable Number_toString : JS.number -> string.

(** [String(value)].  The text of a built-in function is the one V8 and
    JavaScriptCore give; the language leaves its layout to the engine. *)
Definition String_ (value : CsvValue) : string :=
  match value with
  | VNull => "null"
  | VUndefined => "undefined"
  | VBool true => "true"
  | VBool false => "false"
  | VNum n => Number_toString n
  | VStr s => s
  | VNative name => "function " +:+ name +:+ "() { [native code] }"
  | VPlainObject => "[object Object]"
  end.

Definition formatCsvValue (value : CsvValue) : string :=
  match value with
  | VNull | VUndefined => ""
  | _ =>
      let stringValue := String_ value in
      if JS.includes stringValue (JS.str JS.comma)
         || JS.includes stringValue (JS.str JS.quote)
         || JS.includes stringValue (JS.str JS.LF)
         || JS.includes stringValue (JS.str JS.CR)
      then JS.str JS.quote
           +:+ JS.replace_char JS.quote (String JS.quote (JS.str JS.quote)) stringValue
           +:+ JS.str JS.quote
      else stringValue
  end.

(** The body of [sections.forEach((section, sectionIndex) => ...)]:
    [csvLines] is the array the body pushes to, [n] is [sections.length]. *)
Definition push_section (n : nat) (csvLines : list string) (section : CsvSection)
    (sectionIndex : nat) : list string :=
  let has_headers := (0 <? List.length (headers section))%nat in
  let csvLines :=
    if String.eqb (title section) "" then csvLines
    else (csvLines ++ [formatCsvValue (VStr (title section))]) ++ [""] in
  let csvLines :=
    if has_headers
    then csvLines ++ [JS.join "," (map (fun h => formatCsvValue (VStr h)) (headers section))]
    else csvLines in
  let csvLines :=
    JS.forEach
      (fun csvLines row (_ : nat) =>
         if has_headers then
           let orderedValues := map (fun header => formatCsvValue (cell row header)) (headers section) in
           csvLines ++ [JS.join "," orderedValues]
         else
           let values := map formatCsvValue (JS.Object_values row) in
           csvLines ++ [JS.join "," values])
      (rows section) csvLines in
  if (Z.of_nat sectionIndex <? Z.of_nat n - 1)%Z then csvLines ++ [""] else csvLines.

Definition sectionsToCSV (sections : list CsvSection) : string :=
  let csvLines := JS.forEach (push_section (List.length sections)) sections [] in
  JS.join (JS.str JS.LF) csvLines.

(** [arrayToCSV] *)
Definition arrayToCSV (data : list (list CsvValue)) : string :=
  JS.join (JS.str JS.LF) (map (fun row => JS.join "," (map formatCsvValue row)) data).

(** [objectsToCsvRows]: a header row of all the keys, then a row per
    object. *)
Definition objectsToCsvRows (objects : list CsvRow) : list string :=
  if (List.length objects =? 0)%nat then []
  else
    let allKeys := JS.Set_from (flat_map (fun obj => map fst (JS.Object_entries obj)) objects) in
    let rows : list string := [] in
    let rows := rows ++ [JS.join "," (map (fun key => formatCsvValue (VStr key)) allKeys)] in
    JS.forEach
      (fun rows obj (_ : nat) =>
         let row := map (fun key => formatCsvValue (cell obj key)) allKeys in
         rows ++ [JS.join "," row])
      objects rows.

End WithRuntime.

(** What [generateFilename] reads of [new Date()]: the fields of the
    local time ([getMonth] counts from 0). *)
Record Date : Type := {
  getFullYear : Z;
  getMonth : Z;
  getDate : Z;
  getHours : Z;
  getMinutes : Z;
  getSeconds : Z
}.

(** [n.toString().padStart(2, '0')] *)
Definition two_digits (n : Z) : string := JS.pad_zeros 2 (JS.Z_toString n).

(** The timestamp of [generateFilename]: the array of its parts, joined
    with nothing between them. *)
Definition timestamp_of (now : Date) : string :=
  JS.join ""
    [JS.Z_toString (getFullYear now);
     two_digits (getMonth now + 1);
     two_digits (getDate now);
     "_";
     two_digits (getHours now);
     two_digits (getMinutes now);
     two_digits (getSeconds now)].

(** [generateFilename(baseName = 'export', extension = 'csv')], called at
    the time [now]; [None] is an argument left out. *)
Definition generateFilename (now : Date) (baseName extension : option string) : string :=
  let baseName := match baseName with Some b => b | None => "export" end in
  let extension := match extension with Some e => e | None => "csv" end in
  let timestamp := timestamp_of now in
  baseName +:+ "_" +:+ timestamp +:+ "." +:+ extension.

(** [validateCsvContent]; the size of the Blob is the number of UTF-8
    bytes of the content, and its size in MB, an exact binary64 quotient far
    below 10^21, is printed by the decimal branch of [toFixed]. *)
Definition validateCsvContent (csvContent : string) : ValidationResult :=
  let lines := JS.split JS.LF csvContent in
  if String.eqb (JS.trim csvContent) "" then
    {| isValid := false; warnings := []; errors := ["CSV content is empty"] |}
  else
    let errors : list string := [] in
    let nonEmptyLines :=
      List.filter (fun line => (0 <? String.length (JS.trim line))%nat) lines in
    let warnings1 :=
      if (1 <? List.length nonEmptyLines)%nat then
        let firstLineColumns :=
          List.length (JS.split JS.comma (List.nth 0 nonEmptyLines "")) in
        let inconsistentLines :=
          List.filter
            (fun item => negb (fst item =? firstLineColumns)%nat)
            (JS.mapi (fun line index => (List.length (JS.split JS.comma line), index))
                     nonEmptyLines) in
        if (0 <? List.length inconsistentLines)%nat then
          ["Inconsistent column counts found in lines: "
           +:+ JS.join ", " (map (fun item => JS.nat_toString (snd item + 1)) inconsistentLines)]
        else []
      else [] in
    let warnings2 :=
      if JS.includes csvContent "ï¿½"
      then ["Potential encoding issues detected (replacement characters found)"]
      else [] in
    let sizeInMB := (inject_Z (Z.of_nat (String.length csvContent)) / inject_Z (1024 * 1024))%Q in
    let warnings3 :=
      if JS.Qlt_bool 10 sizeInMB
      then ["Large file size: " +:+ JS.Q_toFixed 2 sizeInMB +:+ "MB"]
      else [] in
    {| isValid := (List.length errors =? 0)%nat;
       warnings := (warnings1 ++ warnings2) ++ warnings3;
       errors := errors |}.

End CsvExport.

(** ** utils/exportData.ts *)

Module ExportData.

Import CsvExport.

(** [CalculatorValues], declared in hooks/useCalculatorState.ts. *)
Record CalculatorValues : Type := {
  localCustomers : JS.number;
  touristCustomers : JS.number;
  localFrequency : JS.number;
  touristFrequency : JS.number;
  targetDishes : JS.number;
  avgGroupSize : JS.number;
  dishesPerPerson : JS.number;
  walkInDaily : JS.number;
  weekdayShowUp : JS.number;
  weekendShowUp : JS.number;
  noShowRate : JS.number
}.

(** Modelled from the spec: the computed-metrics snapshot.  Its declaration,
    [CalculationResults] of utils/calculations.ts, is not among the sources;
    the fields are the ones exportData.ts reads, all of them numbers. *)
Record CalculationResults : Type := {
  localActiveBase : JS.number;
  touristActiveBase : JS.number;
  localCapacity : JS.number;
  touristCapacity : JS.number;
  walkInCapacity : JS.number;
  totalCapacity : JS.number;
  groupsPerDay : JS.number;
  gap : JS.number;
  utilizationRate : JS.number
}.

Record ExportMetadata : Type := {
  exportDate : string;
  exportTime : string;
  appName : string;
  version : string;
  timezone : string
}.

Record Analysis : Type := {
  status : string;
  recommendation : string;
  analysisUtilizationRate : JS.number;
  capacityStatus : string
}.

Record FullExportData : Type := {
  metadata : ExportMetadata;
  inputValues : CalculatorValues;
  calculatedResults : CalculationResults;
  analysis : Analysis
}.

(** The texts of the analysis: status "exceeds target" / "below target",
    capacity status "sufficient" / "insufficient", and the four
    recommendations. *)
Definition status_exceeds_target : string := "เกินเป้าหมาย".
Definition status_below_target : string := "ต่ำกว่าเป้าหมาย".
Definition capacity_sufficient : string := "เพียงพอ".
Definition capacity_insufficient : string := "ไม่เพียงพอ".
Definition recommend_large_surplus : string :=
  "มีศักยภาพรองรับลูกค้าเพิ่มเติมได้มาก ควรขยายการตลาดหรือเพิ่มเป้าหมาย".
Definition recommend_moderate_surplus : string :=
  "กำลังการผลิตเหมาะสม มีส่วนเผื่อในการรองรับลูกค้าเพิ่มเติม".
Definition recommend_urgent : string :=
  "ต้องเพิ่มจำนวนลูกค้าหรือปรับปรุงประสิทธิภาพการบริการอย่างเร่งด่วน".
Definition recommend_moderate_shortfall : string :=
  "ควรเพิ่มจำนวนลูกค้าหรือปรับปรุงอัตราการมาใช้บริการ".

Definition createAnalysisSummary (rt : JS.Runtime) (values : CalculatorValues)
    (results : CalculationResults)
    : Analysis :=
  let utilizationRate :=
    JS.Math_min (JS.of_Z 100)
      (JS.mul rt (JS.div rt (targetDishes values) (totalCapacity results)) (JS.of_Z 100)) in
  let '(status, capacityStatus, recommendation) :=
    if JS.ge (gap results) (JS.of_Z 0) then
      (status_exceeds_target, capacity_sufficient,
       if JS.gt (gap results) (JS.mul rt (targetDishes values) JS.literal_0_2)
       then recommend_large_surplus
       else recommend_moderate_surplus)
    else
      (status_below_target, capacity_insufficient,
       if JS.gt (JS.Math_abs (gap results)) (JS.mul rt (targetDishes values) JS.literal_0_1)
       then recommend_urgent
       else recommend_moderate_shortfall) in
  {| status := status;
     recommendation := recommendation;
     analysisUtilizationRate := JS.Math_round utilizationRate;
     capacityStatus := capacityStatus |}.

(** [aggregateExportData]; the metadata comes from the wall clock
    ([createExportMetadata]) and is passed in. *)
Definition aggregateExportData (rt : JS.Runtime) (metadata : ExportMetadata)
    (values : CalculatorValues) (results : CalculationResults) : FullExportData :=
  let analysis := createAnalysisSummary rt values results in
  {| metadata := metadata;
     inputValues := values;
     calculatedResults := results;
     analysis := analysis |}.

Definition percent_header : string := "% ของ Total Capacity".

Section WithRuntime.

Variable rt : JS.Runtime.

(** The cell of the column "% of Total Capacity" for one capacity. *)
Definition percent_of_total (capacity totalCapacity : JS.number) : CsvValue :=
  if JS.gt totalCapacity (JS.of_Z 0)
  then VStr (JS.toFixed (JS.Number_toString rt) 1
               (JS.mul rt (JS.div rt capacity totalCapacity) (JS.of_Z 100)) +:+ "%")
  else VStr "0%".

Definition metadataSection (exportData : FullExportData) : CsvSection :=
  {| title := "🏪 รายงานการวิเคราะห์การหมุนเวียนลูกค้า";
     headers := ["รายการ"; "ค่า"];
     rows := [
       [("รายการ", VStr "วันที่ส่งออกข้อมูล"); ("ค่า", VStr (exportDate (metadata exportData)))];
       [("รายการ", VStr "เวลาที่ส่งออกข้อมูล"); ("ค่า", VStr (exportTime (metadata exportData)))];
       [("รายการ", VStr "ชื่อแอปพลิเคชัน"); ("ค่า", VStr (appName (metadata exportData)))];
       [("รายการ", VStr "เวอร์ชัน"); ("ค่า", VStr (version (metadata exportData)))];
       [("รายการ", VStr "เขตเวลา"); ("ค่า", VStr (timezone (metadata exportData)))]
     ] |}.

Definition inputRow (name : string) (value : JS.number) (unit_ description : string) : CsvRow :=
  [("พารามิเตอร์", VStr name); ("ค่า", VNum value); ("หน่วย", VStr unit_);
   ("คำอธิบาย", VStr description)].

Definition inputSection (exportData : FullExportData) : CsvSection :=
  let v := inputValues exportData in
  {| title := "📊 ข้อมูลนำเข้า (Input Parameters)";
     headers := ["พารามิเตอร์"; "ค่า"; "หน่วย"; "คำอธิบาย"];
     rows := [
       inputRow "จำนวนลูกค้าท้องถิ่น" (localCustomers v) "คน" "จำนวนลูกค้าประจำในพื้นที่";
       inputRow "จำนวนลูกค้านักท่องเที่ยว" (touristCustomers v) "คน"
         "จำนวนลูกค้านักท่องเที่ยวที่คาดว่าจะมา";
       inputRow "ความถี่การมา (ท้องถิ่น)" (localFrequency v) "วัน"
         "จำนวนวันที่ลูกค้าท้องถิ่นกลับมาใหม่ (τ)";
       inputRow "ความถี่การมา (นักท่องเที่ยว)" (touristFrequency v) "วัน"
         "จำนวนวันที่นักท่องเที่ยวกลับมาใหม่ (τ)";
       inputRow "Target จานต่อวัน" (targetDishes v) "จาน" "เป้าหมายจำนวนจานที่ต้องการขายต่อวัน";
       inputRow "ขนาดกลุ่มเฉลี่ย" (avgGroupSize v) "คน" "จำนวนคนเฉลี่ยต่อโต๊ะ";
       inputRow "จานต่อคนต่อครั้ง (μ)" (dishesPerPerson v) "จาน"
         "จำนวนจานเฉลี่ยที่ลูกค้าหนึ่งคนสั่งต่อครั้ง (μ)";
       inputRow "Walk-in ต่อวัน" (walkInDaily v) "คน" "จำนวนลูกค้า Walk-in เฉลี่ยต่อวัน";
       inputRow "โอกาสมาวันธรรมดา" (weekdayShowUp v) "%" "โอกาสที่ลูกค้าจะมาในวันธรรมดา";
       inputRow "โอกาสมาวันหยุด" (weekendShowUp v) "%" "โอกาสที่ลูกค้าจะมาในวันหยุด";
       inputRow "อัตรา No-show" (noShowRate v) "%" "เปอร์เซ็นต์ลูกค้าที่จองแล้วไม่มา"
     ] |}.

Definition resultRow (name : string) (value : JS.number) (unit_ formula : string) : CsvRow :=
  [("ตัวชี้วัด", VStr name); ("ค่า", VNum value); ("หน่วย", VStr unit_);
   ("สูตรการคำนวณ", VStr formula)].

Definition resultsSection (exportData : FullExportData) : CsvSection :=
  let r := calculatedResults exportData in
  {| title := "🧮 ผลการคำนวณ (Calculated Results)";
     headers := ["ตัวชี้วัด"; "ค่า"; "หน่วย"; "สูตรการคำนวณ"];
     rows := [
       resultRow "Active Base (ท้องถิ่น)" (localActiveBase r) "คน" "A = D × τ / μ";
       resultRow "Active Base (นักท่องเที่ยว)" (touristActiveBase r) "คน" "A = D × τ / μ";
       resultRow "Capacity (ท้องถิ่น)" (localCapacity r) "จาน/วัน" "C = N × μ × S / τ";
       resultRow "Capacity (นักท่องเที่ยว)" (touristCapacity r) "จาน/วัน" "C = N × μ × S / τ";
       resultRow "Capacity (Walk-in)" (walkInCapacity r) "จาน/วัน" "C = W × μ × S";
       resultRow "Total Capacity" (totalCapacity r) "จาน/วัน" "TC = LC + TouC + WC";
       resultRow "Groups ต่อวัน"
         (JS.Number_ofString rt (JS.toFixed (JS.Number_toString rt) 1 (groupsPerDay r)))
         "กลุ่ม"
         "G = Total Customers / Group Size";
       resultRow "Gap (เกิน/ขาด)" (gap r) "จาน" "Gap = Total Capacity - Target";
       resultRow "Utilization Rate" (utilizationRate r) "%" "UR = (Target / Total Capacity) × 100"
     ] |}.

Definition analysisSection (exportData : FullExportData) : CsvSection :=
  let a := analysis exportData in
  {| title := "📈 สรุปการวิเคราะห์ (Analysis Summary)";
     headers := ["หัวข้อ"; "ผลลัพธ์"];
     rows := [
       [("หัวข้อ", VStr "สถานะปัจจุบัน"); ("ผลลัพธ์", VStr (status a))];
       [("หัวข้อ", VStr "สถานะกำลังการผลิต"); ("ผลลัพธ์", VStr (capacityStatus a))];
       [("หัวข้อ", VStr "อัตราการใช้กำลังการผลิต");
        ("ผลลัพธ์", VStr (JS.Number_toString rt (analysisUtilizationRate a) +:+ "%"))];
       [("หัวข้อ", VStr "คำแนะนำ"); ("ผลลัพธ์", VStr (recommendation a))]
     ] |}.

Definition breakdownRow (name : string) (capacity : JS.number) (share : CsvValue)
    (recommended : string) : CsvRow :=
  [("ประเภทลูกค้า", VStr name); ("Capacity (จาน/วัน)", VNum capacity);
   (percent_header, share); ("สัดส่วนที่แนะนำ", VStr recommended)].

Definition breakdownSection (exportData : FullExportData) : CsvSection :=
  let r := calculatedResults exportData in
  let totalCapacity := totalCapacity r in
  {| title := "🔍 รายละเอียด Capacity (Capacity Breakdown)";
     headers := ["ประเภทลูกค้า"; "Capacity (จาน/วัน)"; percent_header; "สัดส่วนที่แนะนำ"];
     rows := [
       breakdownRow "ลูกค้าท้องถิ่น" (localCapacity r)
         (percent_of_total (localCapacity r) totalCapacity) "60-70%";
       breakdownRow "นักท่องเที่ยว" (touristCapacity r)
         (percent_of_total (touristCapacity r) totalCapacity) "20-30%";
       breakdownRow "Walk-in" (walkInCapacity r)
         (percent_of_total (walkInCapacity r) totalCapacity) "10-15%"
     ] |}.

Definition convertToCSVSections (exportData : FullExportData) : list CsvSection :=
  [metadataSection exportData; inputSection exportData; resultsSection exportData;
   analysisSection exportData; breakdownSection exportData].

End WithRuntime.

Definition flatRow (kind item : string) (value : CsvValue) (unit_ description : string)
    : CsvRow :=
  [("ประเภทข้อมูล", VStr kind); ("รายการ", VStr item); ("ค่า", value); ("หน่วย", VStr unit_);
   ("คำอธิบาย", VStr description)].

(** [createFlatCSVData]: one row each for the metadata, the inputs, the
    results and the analysis. *)
Definition createFlatCSVData (exportData : FullExportData) : list CsvRow :=
  [flatRow "ข้อมูลการส่งออก" "วันที่ส่งออก" (VStr (exportDate (metadata exportData))) ""
     "วันที่ที่ทำการส่งออกข้อมูล";
   flatRow "พารามิเตอร์นำเข้า" "จำนวนลูกค้าท้องถิ่น"
     (VNum (localCustomers (inputValues exportData))) "คน" "จำนวนลูกค้าประจำในพื้นที่";
   flatRow "ผลการคำนวณ" "Total Capacity"
     (VNum (totalCapacity (calculatedResults exportData))) "จาน/วัน" "กำลังการผลิตรวมทั้งหมด";
   flatRow "การวิเคราะห์" "สถานะ" (VStr (status (analysis exportData))) ""
     "สถานะเปรียบเทียบกับเป้าหมาย"].

End ExportData.

(** ** hooks/usePersistentState.ts *)

Module PersistentState.

(** A value of the state.  A finite number is a whole number, as the
    calculator's defaults are, or a number with a fraction, given by its
    sign, its whole part and the digits after the point with which the
    engine prints it; these are the numbers the engine prints in
    positional notation (a magnitude from 10^-6 up to 10^21), and a number
    that is no binary64 value stands for no state.  [JUndefined], [JNaN]
    (an input read as a number that is none) and the infinities are the
    values a state can hold that JSON text cannot. *)
Inductive json : Type :=
| JNull
| JBool (b : bool)
| JNum (z : Z)
| JStr (s : string)
| JArr (items : list json)
| JObj (props : JS.object json)
| JUndefined
| JNaN
| JInfinity (negative : bool)
| JFraction (negative : bool) (whole : N) (fraction : Decimal.uint).

(** [typeof v === 'object' && v !== null && !Array.isArray(v)] *)
Definition is_plain_object (v : json) : bool :=
  match v with
  | JObj _ => true
  | _ => false
  end.

(** The own enumerable properties that [...v] copies: the fields of an
    object, the elements of an array and the characters of a string under
    their indices (the bytes here, exact for ASCII text), nothing for
    [null], a boolean or a number. *)
Definition own_props (v : json) : JS.object json :=
  match v with
  | JObj props => props
  | JArr items => JS.mapi (fun x i => (JS.nat_toString i, x)) items
  | JStr s => JS.mapi (fun c i => (JS.nat_toString i, JStr (JS.str c))) (list_ascii_of_string s)
  | _ => []
  end.



(** [{ ...a, ...b }] *)
Definition spread (a b : json) : json :=
  JObj (JS.copy_props (JS.copy_props [] (own_props a)) (own_props b)).

Definition backslash : ascii := "092"%char.

Definition hex_digit (n : nat) : ascii :=
  List.nth n (list_ascii_of_string "0123456789abcdef") "0"%char.

(** One character inside a JSON string. *)
Definition JSON_escape_char (c : ascii) : string :=
  let n := nat_of_ascii c in
  if (n =? 34)%nat then String backslash (JS.str JS.quote)
  else if (n =? 92)%nat then String backslash (JS.str backslash)
  else if (n =? 8)%nat then String backslash "b"
  else if (n =? 12)%nat then String backslash "f"
  else if (n =? 10)%nat then String backslash "n"
  else if (n =? 13)%nat then String backslash "r"
  else if (n =? 9)%nat then String backslash "t"
  else if (n <? 32)%nat then
    String backslash ("u00" +:+ String (hex_digit (n / 16)) (JS.str (hex_digit (n mod 16))))
  else JS.str c.

Fixpoint JSON_escape (s : string) : string :=
  match s with
  | EmptyString => EmptyString
  | String c s' => JSON_escape_char c +:+ JSON_escape s'
  end.

Definition JSON_quote (s : string) : string :=
  String JS.quote (JSON_escape s +:+ JS.str JS.quote).

(** The text of a number with a fraction, as [Number.prototype.toString]
    prints it: the sign, the whole part, the point, the digits of the
    fraction. *)
Definition fraction_text (negative : bool) (whole : N) (fraction : Decimal.uint) : string :=
  (if negative then "-" else "") +:+ JS.Z_toString (Z.of_N whole) +:+ "."
  +:+ NilEmpty.string_of_uint fraction.

(** The fields that hold something other than [undefined], each with
    what [f] makes of its value. *)
Definition defined_fields {A} (f : json -> A) (props : JS.object json) : JS.object A :=
  flat_map (fun kv => let '(k, x) := kv in
              match x with
              | JUndefined => []
              | _ => [(k, f x)]
              end) props.

(** [JSON.stringify(v)].  NaN and the infinities are written as [null];
    [undefined] is written as [null] in an array, and a field that holds it
    is left out; the fields come in the order of [Object.entries].  For
    [undefined] itself the result is [undefined], not a text: it stands
    here as the text [undefined], which is what [setItem] stores of it and
    which no other value has. *)
Fixpoint JSON_stringify (v : json) : string :=
  match v with
  | JNull | JNaN | JInfinity _ => "null"
  | JUndefined => "undefined"
  | JBool true => "true"
  | JBool false => "false"
  | JNum z => JS.Z_toString z
  | JFraction negative whole fraction => fraction_text negative whole fraction
  | JStr s => JSON_quote s
  | JArr items =>
      "[" +:+ JS.join ","
                (map (fun x => match x with
                               | JUndefined => "null"
                               | _ => JSON_stringify x
                               end) items)
          +:+ "]"
  | JObj props =>
      "{" +:+ JS.join ","
                (map (fun kt : string * string => JSON_quote (fst kt) +:+ ":" +:+ snd kt)
                   (JS.Object_entries (defined_fields JSON_stringify props)))
          +:+ "}"
  end.

Inductive StorageType : Type := localStorage | sessionStorage.

Record StorageOptions : Type := {
  key : string;
  defaultValue : json;
  debounceMs : option Z;
  storageType : option StorageType
}.

(** The defaults of the destructuring: [debounceMs = 300],
    [storageType = 'localStorage']. *)
Definition debounceMs_of (options : StorageOptions) : Z :=
  match debounceMs options with Some ms => ms | None => 300%Z end.

Definition storageType_of (options : StorageOptions) : StorageType :=
  match storageType options with Some t => t | None => localStorage end.

(** A Web Storage area: its entries, and the writes it refuses
    ([setItem] throws: quota exceeded, access denied). *)
Record StorageArea : Type := {
  items : gmap string string;
  rejects : string -> string -> bool
}.

(** A timeout armed by [saveToStorage]: its handle, the time at which it
    is due, and the value its callback writes. *)
Record Timer : Type := {
  timer_id : positive;
  due : Z;
  timer_value : json
}.

(** What surrounds the hook: a clock in milliseconds, the armed timeouts in
    the order they were armed, the storage area the storage type selects
    ([None] when there is no window or the area cannot be reached), and the
    [setItem] calls the container has made on it, oldest first. *)
Record World : Type := {
  clock : Z;
  next_timer : positive;
  timers : list Timer;
  area : option StorageArea;
  setItem_calls : list (string * string)
}.

(** The refs and the state of one mounted hook. *)
Record Hook : Type := {
  state : json;
  debounceRef : option positive;
  isInitializedRef : bool
}.

(** [getStorageManager]: the area if a trial write is accepted.  The
    trial entry is removed at once and is left out here, which is exact
    for every key but the trial key; [RenderCycle.getStorageManager] has
    the trial write and its removal. *)
Definition getStorageManager (w : World) : option StorageArea :=
  match area w with
  | None => None
  | Some a => if rejects a "__storage_test__" "test" then None else Some a
  end.

Definition available (w : World) : bool :=
  match getStorageManager w with
  | Some _ => true
  | None => false
  end.

(** What of the area decides availability and never changes: whether the
    area can be reached, and the writes it refuses. *)
Definition shape (w : World) : option (string -> string -> bool) :=
  option_map rejects (area w).

Definition getItem (w : World) (k : string) : option string :=
  match area w with
  | Some a => items a !! k
  | None => None
  end.

(** [storage.setItem(k, v)]; [false] when it throws. *)
Definition setItem (w : World) (k v : string) : World * bool :=
  let calls := setItem_calls w ++ [(k, v)] in
  match area w with
  | Some a =>
      if rejects a k v then
        ({| clock := clock w; next_timer := next_timer w; timers := timers w;
            area := Some a; setItem_calls := calls |}, false)
      else
        ({| clock := clock w; next_timer := next_timer w; timers := timers w;
            area := Some {| items := <[k := v]> (items a); rejects := rejects a |};
            setItem_calls := calls |}, true)
  | None =>
      ({| clock := clock w; next_timer := next_timer w; timers := timers w;
          area := None; setItem_calls := calls |}, false)
  end.

Definition removeItem (w : World) (k : string) : World :=
  match area w with
  | Some a =>
      {| clock := clock w; next_timer := next_timer w; timers := timers w;
         area := Some {| items := delete k (items a); rejects := rejects a |};
         setItem_calls := setItem_calls w |}
  | None => w
  end.

(** [clearTimeout(id)]: a handle that is not armed is ignored. *)
Definition clearTimeout (id : positive) (w : World) : World :=
  {| clock := clock w; next_timer := next_timer w;
     timers := List.filter (fun t => negb (Pos.eqb (timer_id t) id)) (timers w);
     area := area w; setItem_calls := setItem_calls w |}.

(** [setTimeout(() => write value, delay)]: a negative delay counts as 0
    (the 32-bit range of a delay is not modelled). *)
Definition setTimeout (value : json) (delay : Z) (w : World) : World * positive :=
  let id := next_timer w in
  ({| clock := clock w; next_timer := Pos.succ id;
      timers := timers w ++ [{| timer_id := id; due := clock w + Z.max 0 delay;
                                timer_value := value |}];
      area := area w; setItem_calls := setItem_calls w |}, id).

(** An argument of [setPersistentState]: a value or a function of the
    previous state. *)
Inductive Update : Type :=
| Value (v : json)
| Updater (f : json -> json).

(** A storage event: [e.key] and [e.newValue], each possibly [null]. *)
Record StorageEvent : Type := {
  event_key : option string;
  newValue : option string
}.

Section Hook.

(** [JSON.parse]; [None] when it throws. *)
Variable JSON_parse : string -> option json.

Variable options : StorageOptions.

(** What the load and the storage event do with a parsed value. *)
Definition merge_parsed (parsed : json) : json :=
  if is_plain_object (defaultValue options) then spread (defaultValue options) parsed
  else parsed.

(** The initializer of [useState]. *)
Definition initialState (w : World) : json :=
  match getStorageManager w with
  | None => defaultValue options
  | Some _ =>
      match getItem w (key options) with
      | Some stored =>
          match JSON_parse stored with
          | Some parsed => merge_parsed parsed
          | None => defaultValue options
          end
      | None => defaultValue options
      end
  end.

(** The first render. *)
Definition render (w : World) : Hook :=
  {| state := initialState w; debounceRef := None; isInitializedRef := false |}.

(** The effect that marks the hook as initialized after the first render. *)
Definition mark_initialized (h : Hook) : Hook :=
  {| state := state h; debounceRef := debounceRef h; isInitializedRef := true |}.

(** The callback of the timeout: the write, an exception being caught. *)
Definition write_back (value : json) (w : World) : World :=
  fst (setItem w (key options) (JSON_stringify value)).

Definition saveToStorage (value : json) (w : World) (h : Hook) : World * Hook :=
  match getStorageManager w with
  | None => (w, h)
  | Some _ =>
      let w1 :=
        match debounceRef h with
        | Some id => clearTimeout id w
        | None => w
        end in
      let '(w2, id) := setTimeout value (debounceMs_of options) w1 in
      (w2, {| state := state h; debounceRef := Some id;
              isInitializedRef := isInitializedRef h |})
  end.

(** [setPersistentState(newValue)], the updater being run at the call;
    [RenderCycle.setPersistentState] has the queue of [setState]. *)
Definition setPersistentState (newValue : Update) (w : World) (h : Hook) : World * Hook :=
  let prevState := state h in
  let nextState :=
    match newValue with
    | Updater f => f prevState
    | Value v => v
    end in
  let '(w', h') :=
    if isInitializedRef h then saveToStorage nextState w h else (w, h) in
  (w', {| state := nextState; debounceRef := debounceRef h';
          isInitializedRef := isInitializedRef h' |}).

Definition clearStoredValue (w : World) (h : Hook) : World * Hook :=
  match getStorageManager w with
  | None => (w, h)
  | Some _ =>
      let w1 :=
        match debounceRef h with
        | Some id => clearTimeout id w
        | None => w
        end in
      (removeItem w1 (key options), h)
  end.

Definition resetToDefault (w : World) (h : Hook) : World * Hook :=
  let '(w', h') := clearStoredValue w h in
  (w', {| state := defaultValue options; debounceRef := debounceRef h';
          isInitializedRef := isInitializedRef h' |}).

(** The cleanup on unmount. *)
Definition unmount (w : World) (h : Hook) : World :=
  match debounceRef h with
  | Some id => clearTimeout id w
  | None => w
  end.

(** Whether the effect has registered the listener of storage events. *)
Definition listens (w : World) : bool :=
  match getStorageManager w, storageType_of options with
  | Some _, localStorage => true
  | _, _ => false
  end.

Definition handleStorageChange (e : StorageEvent) (h : Hook) : Hook :=
  match event_key e, newValue e with
  | Some k, Some text =>
      if String.eqb k (key options) then
        match JSON_parse text with
        | Some parsed =>
            {| state := merge_parsed parsed; debounceRef := debounceRef h;
               isInitializedRef := isInitializedRef h |}
        | None => h
        end
      else h
  | _, _ => h
  end.

(** Time passes: the clock advances by [dt] milliseconds and the timeouts
    that have come due run, in the order they were armed (all of them have
    the same delay, so this is the order in which they are due). *)
Definition advance (dt : Z) (w : World) : World :=
  let now := (clock w + Z.max 0 dt)%Z in
  let due_now := List.filter (fun t => (due t <=? now)%Z) (timers w) in
  let later := List.filter (fun t => negb (due t <=? now)%Z) (timers w) in
  fold_left (fun w t => write_back (timer_value t) w) due_now
    {| clock := now; next_timer := next_timer w; timers := later;
       area := area w; setItem_calls := setItem_calls w |}.

(** What happens to one container after its first render: its effects
    run, and updates, clears, resets, storage events from other tabs (with
    the other tab's write to the area) and the passing of time follow in
    any order. *)
Inductive Action : Type :=
| DoEffects
| DoUpdate (newValue : Update)
| DoClear
| DoReset
| DoStorageEvent (e : StorageEvent)
| DoExternalWrite (k v : string)
| DoAdvance (dt : Z).

Definition external_write (k v : string) (w : World) : World :=
  match area w with
  | Some a =>
      {| clock := clock w; next_timer := next_timer w; timers := timers w;
         area := Some {| items := <[k := v]> (items a); rejects := rejects a |};
         setItem_calls := setItem_calls w |}
  | None => w
  end.

Definition step (a : Action) (wh : World * Hook) : World * Hook :=
  let '(w, h) := wh in
  match a with
  | DoEffects => (w, mark_initialized h)
  | DoUpdate newValue => setPersistentState newValue w h
  | DoClear => clearStoredValue w h
  | DoReset => resetToDefault w h
  | DoStorageEvent e => (w, if listens w then handleStorageChange e h else h)
  | DoExternalWrite k v => (external_write k v w, h)
  | DoAdvance dt => (advance dt w, h)
  end.

(** A world in which no timeout has been armed yet. *)
Definition fresh_world (now : Z) (a : option StorageArea) : World :=
  {| clock := now; next_timer := 1%positive; timers := []; area := a; setItem_calls := [] |}.

Definition run (actions : list Action) (wh : World * Hook) : World * Hook :=
  fold_left (fun wh a => step a wh) actions wh.

(** The states a container can be in: it was rendered in a world with no
    timeout of its own armed, and some actions followed. *)
Definition reachable (w : World) (h : Hook) : Prop :=
  exists (w0 : World) (actions : list Action),
    timers w0 = [] /\ run actions (w0, render w0) = (w, h).

(** The state after an update. *)
Definition apply_update (st : json) (newValue : Update) : json :=
  match newValue with
  | Updater f => f st
  | Value v => v
  end.


(** The timeouts agree with the ref: at most one is armed, [debounceRef]
    holds its handle, and storage is available. *)
Definition coherent (w : World) (h : Hook) : Prop :=
  match timers w with
  | [] => True
  | [t] => debounceRef h = Some (timer_id t) /\ available w = true
  | _ :: _ :: _ => False
  end.

End Hook.

(** The two storage areas of a window; [None] when there is no window or
    the area cannot be reached. *)
Record Window : Type := {
  localArea : option StorageArea;
  sessionArea : option StorageArea
}.

Definition area_of (type : StorageType) (win : Window) : option StorageArea :=
  match type with
  | localStorage => localArea win
  | sessionStorage => sessionArea win
  end.

Definition with_area (type : StorageType) (a : option StorageArea) (win : Window) : Window :=
  match type with
  | localStorage => {| localArea := a; sessionArea := sessionArea win |}
  | sessionStorage => {| localArea := localArea win; sessionArea := a |}
  end.

Definition testKey : string := "__storage_test__".

(** [getStorageManager(type)] with what it does to the area: the trial
    entry is written and removed again, and an entry that was stored under
    the trial key goes with it.  The boolean tells whether a manager is
    returned ([false] is [null]). *)
Definition openStorage (type : StorageType) (win : Window) : Window * bool :=
  match area_of type win with
  | None => (win, false)
  | Some a =>
      if rejects a testKey "test" then (win, false)
      else
        (with_area type
           (Some {| items := delete testKey (<[testKey := "test"]> (items a));
                    rejects := rejects a |})
           win,
         true)
  end.

(** [storage.getItem(k)] on the area of a type. *)
Definition Storage_getItem (type : StorageType) (k : string) (win : Window) : option string :=
  match area_of type win with
  | Some a => items a !! k
  | None => None
  end.

(** [storage.setItem(k, v)]; [false] when it throws. *)
Definition Storage_setItem (type : StorageType) (k v : string) (win : Window)
    : Window * bool :=
  match area_of type win with
  | Some a =>
      if rejects a k v then (win, false)
      else (with_area type (Some {| items := <[k := v]> (items a); rejects := rejects a |}) win,
            true)
  | None => (win, false)
  end.

(** [storage.removeItem(k)] *)
Definition Storage_removeItem (type : StorageType) (k : string) (win : Window) : Window :=
  match area_of type win with
  | Some a => with_area type (Some {| items := delete k (items a); rejects := rejects a |}) win
  | None => win
  end.

(** The keys of an area in the order of [storage.key(i)].  The order is
    the user agent's; the one of the map stands for it. *)
Definition Storage_keys (a : StorageArea) : list string := (map_to_list (items a)).*1.

(** [storage.length] *)
Definition Storage_length (a : StorageArea) : nat := List.length (Storage_keys a).

(** [storage.key(i)]; [None] is [null]. *)
Definition Storage_key (a : StorageArea) (i : nat) : option string := Storage_keys a !! i.

(** [clearAllAppStorage(appPrefix = 'calculator')]: the keys that start
    with the prefix are gathered first and removed afterwards. *)
Definition clearAllAppStorage (appPrefix : option string) (win : Window) : Window :=
  let appPrefix := match appPrefix with Some p => p | None => "calculator" end in
  let '(win, storage) := openStorage localStorage win in
  if storage then
    match localArea win with
    | Some a =>
        let keysToRemove :=
          fold_left
            (fun keysToRemove i =>
               match Storage_key a i with
               | Some k => if String.prefix appPrefix k then keysToRemove ++ [k] else keysToRemove
               | None => keysToRemove
               end)
            (seq 0 (Storage_length a)) [] in
        JS.forEach (fun win k (_ : nat) => Storage_removeItem localStorage k win) keysToRemove win
    | None => win
    end
  else win.

Section Utilities.

(** [JSON.parse]; [None] when it throws. *)
Variable JSON_parse : string -> option json.

Definition type_or_local (type : option StorageType) : StorageType :=
  match type with Some t => t | None => localStorage end.

(** [storageUtils.get(key, defaultValue, type = 'localStorage')] *)
Definition storageUtils_get (k : string) (defaultValue : json) (type : option StorageType)
    (win : Window) : Window * json :=
  let type := type_or_local type in
  let '(win, storage) := openStorage type win in
  if storage then
    match Storage_getItem type k win with
    | Some stored =>
        match JSON_parse stored with
        | Some parsed => (win, parsed)
        | None => (win, defaultValue)
        end
    | None => (win, defaultValue)
    end
  else (win, defaultValue).

(** [storageUtils.set(key, value, type = 'localStorage')] *)
Definition storageUtils_set (k : string) (value : json) (type : option StorageType)
    (win : Window) : Window * bool :=
  let type := type_or_local type in
  let '(win, storage) := openStorage type win in
  if storage then Storage_setItem type k (JSON_stringify value) win
  else (win, false).

(** [storageUtils.remove(key, type = 'localStorage')] *)
Definition storageUtils_remove (k : string) (type : option StorageType) (win : Window)
    : Window * bool :=
  let type := type_or_local type in
  let '(win, storage) := openStorage type win in
  if storage then (Storage_removeItem type k win, true)
  else (win, false).

(** [storageUtils.has(key, type = 'localStorage')] *)
Definition storageUtils_has (k : string) (type : option StorageType) (win : Window)
    : Window * bool :=
  let type := type_or_local type in
  let '(win, storage) := openStorage type win in
  if storage then
    (win, match Storage_getItem type k win with Some _ => true | None => false end)
  else (win, false).

End Utilities.

End PersistentState.

(** ** The hook in React's render cycle *)

(** [PersistentState] runs the updater of [setPersistentState] at the call
    and reads the availability of storage off the area, which never changes
    there.  Here both are as React and the browser have them: [setState]
    queues its argument, and the queued updaters run when React renders
    the component again; each render probes the storage area anew, with
    the trial write and its removal; what the hook returned closes over
    the [storage] of the render that made it; and the area can change from
    outside at any time. *)

Module RenderCycle.

Import PersistentState.

(** An update waiting in the queue of [useState]: the updater that
    [setPersistentState] hands to [setState], with whether the [storage]
    its [saveToStorage] closes over is a manager; or a plain value. *)
Inductive Queued : Type :=
| QUpdater (newValue : Update) (manager : bool)
| QValue (value : json).

(** The refs and the state of a mounted hook as of its last render:
    [storage] tells whether [getStorageManager] returned a manager then,
    [queue] holds the updates made since, oldest first. *)
Record Hook : Type := {
  state : json;
  debounceRef : option positive;
  isInitializedRef : bool;
  storage : bool;
  queue : list Queued
}.

(** [getStorageManager]: the trial write, and the removal of the trial
    entry when the write went through.  [false] is [null]. *)
Definition getStorageManager (w : World) : World * bool :=
  match area w with
  | None => (w, false)
  | Some _ =>
      let '(w1, stored) := setItem w testKey "test" in
      if stored then (removeItem w1 testKey, true) else (w1, false)
  end.

Section Hook.

Variable JSON_parse : string -> option json.
Variable options : StorageOptions.

(** The first render: the probe, then the initializer of [useState]. *)
Definition mount (w : World) : World * Hook :=
  let '(w1, manager) := getStorageManager w in
  let initial :=
    if manager then
      match getItem w1 (key options) with
      | Some stored =>
          match JSON_parse stored with
          | Some parsed => merge_parsed options parsed
          | None => defaultValue options
          end
      | None => defaultValue options
      end
    else defaultValue options in
  (w1, {| state := initial; debounceRef := None; isInitializedRef := false;
          storage := manager; queue := [] |}).

(** [saveToStorage] as created by a render whose [storage] was a manager
    or not. *)
Definition saveToStorage (manager : bool) (value : json) (w : World) (h : Hook)
    : World * Hook :=
  if manager then
    let w1 :=
      match debounceRef h with
      | Some id => clearTimeout id w
      | None => w
      end in
    let '(w2, id) := setTimeout value (debounceMs_of options) w1 in
    (w2, {| state := state h; debounceRef := Some id;
            isInitializedRef := isInitializedRef h; storage := storage h;
            queue := queue h |})
  else (w, h).

(** React runs a queued update. *)
Definition run_queued (q : Queued) (wh : World * Hook) : World * Hook :=
  let '(w, h) := wh in
  match q with
  | QUpdater newValue manager =>
      let nextState := apply_update (state h) newValue in
      let '(w', h') :=
        if isInitializedRef h then saveToStorage manager nextState w h else (w, h) in
      (w', {| state := nextState; debounceRef := debounceRef h';
              isInitializedRef := isInitializedRef h'; storage := storage h';
              queue := queue h' |})
  | QValue value =>
      (w, {| state := value; debounceRef := debounceRef h;
             isInitializedRef := isInitializedRef h; storage := storage h;
             queue := queue h |})
  end.

(** [setPersistentState(newValue)] hands its updater to [setState].  React
    queues it for the next render; when no update is waiting it may
    instead run the updater at once and queue the state it computed, and
    [eager] tells that it does. *)
Definition setPersistentState (eager : bool) (newValue : Update) (w : World) (h : Hook)
    : World * Hook :=
  match eager, queue h with
  | true, [] =>
      let '(w', h') := run_queued (QUpdater newValue (storage h)) (w, h) in
      (w', {| state := state h; debounceRef := debounceRef h';
              isInitializedRef := isInitializedRef h'; storage := storage h';
              queue := [QValue (state h')] |})
  | _, _ =>
      (w, {| state := state h; debounceRef := debounceRef h;
             isInitializedRef := isInitializedRef h; storage := storage h;
             queue := queue h ++ [QUpdater newValue (storage h)] |})
  end.

(** A later render: the probe, then the queued updates in order. *)
Definition render (w : World) (h : Hook) : World * Hook :=
  let '(w1, manager) := getStorageManager w in
  let '(w2, h2) :=
    fold_left (fun wh q => run_queued q wh) (queue h)
      (w1, {| state := state h; debounceRef := debounceRef h;
              isInitializedRef := isInitializedRef h; storage := storage h;
              queue := [] |}) in
  (w2, {| state := state h2; debounceRef := debounceRef h2;
          isInitializedRef := isInitializedRef h2; storage := manager;
          queue := queue h2 |}).

Definition clearStoredValue (w : World) (h : Hook) : World :=
  if storage h then
    let w1 :=
      match debounceRef h with
      | Some id => clearTimeout id w
      | None => w
      end in
    removeItem w1 (key options)
  else w.

Definition resetToDefault (w : World) (h : Hook) : World * Hook :=
  (clearStoredValue w h,
   {| state := state h; debounceRef := debounceRef h;
      isInitializedRef := isInitializedRef h; storage := storage h;
      queue := queue h ++ [QValue (defaultValue options)] |}).

(** The effect that marks the hook as initialized after the first render. *)
Definition mark_initialized (h : Hook) : Hook :=
  {| state := state h; debounceRef := debounceRef h; isInitializedRef := true;
     storage := storage h; queue := queue h |}.

(** Whether the effect of the last render has registered the listener. *)
Definition listens (h : Hook) : bool :=
  storage h && match storageType_of options with
               | localStorage => true
               | sessionStorage => false
               end.

Definition handleStorageChange (e : StorageEvent) (h : Hook) : Hook :=
  match event_key e, newValue e with
  | Some k, Some text =>
      if String.eqb k (key options) then
        match JSON_parse text with
        | Some parsed =>
            {| state := state h; debounceRef := debounceRef h;
               isInitializedRef := isInitializedRef h; storage := storage h;
               queue := queue h ++ [QValue (merge_parsed options parsed)] |}
        | None => h
        end
      else h
  | _, _ => h
  end.

(** What happens to a mounted container: its effects run; the component
    calls what the hook returned; a storage event arrives; React renders
    the component again; time passes; and the storage area changes from
    outside (another tab writes, the user clears or blocks the storage,
    the quota fills up). *)
Inductive Action : Type :=
| DoEffects
| DoUpdate (eager : bool) (newValue : Update)
| DoClear
| DoReset
| DoStorageEvent (e : StorageEvent)
| DoRender
| DoAdvance (dt : Z)
| DoOutside (a : option StorageArea).

Definition set_area (a : option StorageArea) (w : World) : World :=
  {| clock := clock w; next_timer := next_timer w; timers := timers w;
     area := a; setItem_calls := setItem_calls w |}.

Definition step (a : Action) (wh : World * Hook) : World * Hook :=
  let '(w, h) := wh in
  match a with
  | DoEffects => (w, mark_initialized h)
  | DoUpdate eager newValue => setPersistentState eager newValue w h
  | DoClear => (clearStoredValue w h, h)
  | DoReset => resetToDefault w h
  | DoStorageEvent e => (w, if listens h then handleStorageChange e h else h)
  | DoRender => render w h
  | DoAdvance dt => (advance options dt w, h)
  | DoOutside a => (set_area a w, h)
  end.

Definition run (actions : list Action) (wh : World * Hook) : World * Hook :=
  fold_left (fun wh a => step a wh) actions wh.

Definition reachable (w : World) (h : Hook) : Prop :=
  exists (w0 : World) (actions : list Action),
    timers w0 = [] /\ run actions (mount w0) = (w, h).

Definition is_update (a : Action) : bool :=
  match a with
  | DoUpdate _ _ => true
  | _ => false
  end.

(** The actions that neither update the state nor change the area from
    outside. *)
Definition quiet (a : Action) : bool :=
  match a with
  | DoUpdate _ _ | DoOutside _ => false
  | _ => true
  end.

Definition is_value (q : Queued) : bool :=
  match q with
  | QValue _ => true
  | QUpdater _ _ => false
  end.

(** At most one timeout is armed, and [debounceRef] holds its handle. *)
Definition coherent (w : World) (h : Hook) : Prop :=
  match timers w with
  | [] => True
  | [t] => debounceRef h = Some (timer_id t)
  | _ :: _ :: _ => False
  end.

(** The [setItem] calls of probes. *)
Definition trial_writes (calls : list (string * string)) : Prop :=
  Forall (fun call => call = (testKey, "test")) calls.

End Hook.

(** The updates that wait are values: no updater is in the queue. *)
Definition values_only (h : Hook) : Prop := forallb is_value (queue h) = true.

End RenderCycle.

(** ** Reading JSON text back *)

Module JsonText.

Import PersistentState.

(** Induction on a value, with the elements of an array and the fields of
    an object as smaller values. *)
Section Induction.

Variable P : json -> Prop.
Hypothesis Hnull : P JNull.
Hypothesis Hbool : forall b, P (JBool b).
Hypothesis Hnum : forall z, P (JNum z).
Hypothesis Hstr : forall s, P (JStr s).
Hypothesis Harr : forall items, Forall P items -> P (JArr items).
Hypothesis Hobj : forall props, Forall (fun kv => P (snd kv)) props -> P (JObj props).
Hypothesis Hundefined : P JUndefined.
Hypothesis Hnan : P JNaN.
Hypothesis Hinfinity : forall negative, P (JInfinity negative).
Hypothesis Hfraction : forall negative whole fraction, P (JFraction negative whole fraction).

Fixpoint json_induction (v : json) : P v :=
  match v with
  | JNull => Hnull
  | JBool b => Hbool b
  | JNum z => Hnum z
  | JStr s => Hstr s
  | JUndefined => Hundefined
  | JNaN => Hnan
  | JInfinity negative => Hinfinity negative
  | JFraction negative whole fraction => Hfraction negative whole fraction
  | JArr items =>
      Harr items
        ((fix all (l : list json) : Forall P l :=
            match l with
            | [] => @List.Forall_nil json P
            | x :: l' => @List.Forall_cons json P x l' (json_induction x) (all l')
            end) items)
  | JObj props =>
      Hobj props
        ((fix all (l : list (string * json)) : Forall (fun kv => P (snd kv)) l :=
            match l with
            | [] => @List.Forall_nil (string * json) _
            | kv :: l' =>
                @List.Forall_cons (string * json) _ kv l' (json_induction (snd kv)) (all l')
            end) props)
  end.

End Induction.

Definition is_digit (c : ascii) : bool :=
  (48 <=? nat_of_ascii c)%nat && (nat_of_ascii c <=? 57)%nat.

(** A text that does not go on with a digit. *)
Definition no_digit_head (r : string) : Prop :=
  match r with
  | String c _ => is_digit c = false
  | EmptyString => True
  end.

(** A text that does not go on as a number would: with a digit or the
    point. *)
Definition no_number_head (r : string) : Prop :=
  match r with
  | String c _ => is_digit c = false /\ c <> "."%char
  | EmptyString => True
  end.

Definition hex_value (c : ascii) : nat :=
  let n := nat_of_ascii c in
  if (n <=? 57)%nat then (n - 48)%nat else (n - 87)%nat.

(** Reads one character of the inside of a JSON string; [None] at the
    closing quote. *)
Definition unescape_char (s : string) : option (ascii * string) :=
  match s with
  | String a rest =>
      if Ascii.eqb a JS.quote then None
      else if Ascii.eqb a backslash then
        match rest with
        | String e rest' =>
            if Ascii.eqb e JS.quote then Some (JS.quote, rest')
            else if Ascii.eqb e backslash then Some (backslash, rest')
            else if Ascii.eqb e "b" then Some ("008"%char, rest')
            else if Ascii.eqb e "f" then Some ("012"%char, rest')
            else if Ascii.eqb e "n" then Some ("010"%char, rest')
            else if Ascii.eqb e "r" then Some ("013"%char, rest')
            else if Ascii.eqb e "t" then Some ("009"%char, rest')
            else if Ascii.eqb e "u" then
              match rest' with
              | String _ (String _ (String h1 (String h2 r))) =>
                  Some (ascii_of_nat (16 * hex_value h1 + hex_value h2), r)
              | _ => None
              end
            else None
        | EmptyString => None
        end
      else Some (a, rest)
  | EmptyString => None
  end.

(** The kinds of value, told apart by the first character of their text. *)
Inductive kind : Type := KNull | KBool | KNum | KStr | KArr | KObj | KNone.

Definition kind_of (v : json) : kind :=
  match v with
  | JNull => KNull
  | JBool _ => KBool
  | JNum _ | JFraction _ _ _ => KNum
  | JStr _ => KStr
  | JArr _ => KArr
  | JObj _ => KObj
  | JUndefined | JNaN | JInfinity _ => KNone
  end.

(** What is left of a value inside its JSON text: [null] for NaN and the
    infinities, and for [undefined] as an element of an array; no field for
    a field that holds [undefined]; the fields in the order of their
    enumeration. *)
Fixpoint written (v : json) : json :=
  match v with
  | JUndefined | JNaN | JInfinity _ => JNull
  | JArr items => JArr (map written items)
  | JObj props => JObj (JS.Object_entries (defined_fields written props))
  | _ => v
  end.

(** The value [JSON.parse] reads from the text [JSON.stringify] writes of
    a value ([undefined] for [undefined], which has no text). *)
Definition JSON_value (v : json) : json :=
  match v with
  | JUndefined => JUndefined
  | _ => written v
  end.

(** A value that holds only what JSON text can hold. *)
Fixpoint textual (v : json) : Prop :=
  match v with
  | JNull | JBool _ | JNum _ | JFraction _ _ _ | JStr _ => True
  | JArr items => fold_right (fun x rest => textual x /\ rest) True items
  | JObj props => fold_right (fun kv rest => textual (snd kv) /\ rest) True props
  | JUndefined | JNaN | JInfinity _ => False
  end.

(** A value that its JSON text gives back as it is: it holds only what
    JSON text can hold, and no field of it is named by an array index. *)
Fixpoint plain (v : json) : Prop :=
  match v with
  | JNull | JBool _ | JNum _ | JFraction _ _ _ | JStr _ => True
  | JArr items => fold_right (fun x rest => plain x /\ rest) True items
  | JObj props =>
      fold_right (fun kv rest => JS.array_index (fst kv) = None /\ plain (snd kv) /\ rest)
        True props
  | JUndefined | JNaN | JInfinity _ => False
  end.

(** The text of a value with its elements and fields written one after
    the other as they are listed. *)
Fixpoint print (v : json) : string :=
  match v with
  | JNull | JNaN | JInfinity _ => "null"
  | JUndefined => "undefined"
  | JBool true => "true"
  | JBool false => "false"
  | JNum z => JS.Z_toString z
  | JFraction negative whole fraction => fraction_text negative whole fraction
  | JStr s => JSON_quote s
  | JArr items => "[" +:+ JS.join "," (map print items) +:+ "]"
  | JObj props =>
      "{" +:+ JS.join ","
                (map (fun kv => let '(k, x) := kv in JSON_quote k +:+ ":" +:+ print x) props)
          +:+ "}"
  end.

Definition head_kind (s : string) : kind :=
  match s with
  | String c _ =>
      if Ascii.eqb c "n" then KNull
      else if Ascii.eqb c "t" || Ascii.eqb c "f" then KBool
      else if Ascii.eqb c "-" || is_digit c then KNum
      else if Ascii.eqb c JS.quote then KStr
      else if Ascii.eqb c "[" then KArr
      else if Ascii.eqb c "{" then KObj
      else KNone
  | EmptyString => KNone
  end.

(** What follows the first element of a joined list. *)
Definition join_tail (l : list string) : string :=
  match l with
  | [] => ""
  | _ :: _ => "," +:+ JS.join "," l
  end.

(** The text of one field of an object. *)
Definition field_text (kv : string * json) : string :=
  JSON_quote (fst kv) +:+ ":" +:+ print (snd kv).

(** The text of a value, followed by anything that does not go on as a
    number would, determines the value and what follows. *)
Definition text_determines (v : json) : Prop :=
  forall (v' : json) (r1 r2 : string),
    textual v' ->
    print v +:+ r1 = print v' +:+ r2 ->
    no_number_head r1 -> no_number_head r2 ->
    v = v' /\ r1 = r2.

End JsonText.

(** ** hooks/useCalculatorState.ts *)

Module CalculatorState.

Import PersistentState.

Definition STORAGE_KEY : string := "calculator-values".
Definition DEBOUNCE_MS : Z := 500.

(** The options [useCalculatorState] passes to [usePersistentState]. *)
Definition calculator_options (defaultValues : json) : StorageOptions :=
  {| key := STORAGE_KEY;
     defaultValue := defaultValues;
     debounceMs := Some DEBOUNCE_MS;
     storageType := Some localStorage |}.

(** [updateValue(key, value)]: the update [prev => ({ ...prev, [key]: value })]. *)
Definition updateValue (k : string) (value : Z) : Update :=
  Updater (fun prev => JObj (JS.set (JS.copy_props [] (own_props prev)) k (JNum value))).

(** [updateValues(updates)]: the update [prev => ({ ...prev, ...updates })]. *)
Definition updateValues (updates : json) : Update :=
  Updater (fun prev => spread prev updates).

(** [defaultValues] of App.tsx. *)
Definition defaultValues : json :=
  JObj [("localCustomers", JNum 100); ("touristCustomers", JNum 50);
        ("localFrequency", JNum 7); ("touristFrequency", JNum 30);
        ("targetDishes", JNum 200); ("avgGroupSize", JNum 3);
        ("dishesPerPerson", JNum 2); ("walkInDaily", JNum 20);
        ("weekdayShowUp", JNum 85); ("weekendShowUp", JNum 75);
        ("noShowRate", JNum 15)].

Definition hasUnsavedChanges (values defaultValues : json) : bool :=
  negb (String.eqb (JSON_stringify values) (JSON_stringify defaultValues)).





End CalculatorState.

(** ** The CSV rules the specification refers to *)

Module CsvSpec.

(** A separator, a quote or a line break. *)
Definition is_special (c : ascii) : bool :=
  Ascii.eqb c JS.comma || Ascii.eqb c JS.quote || Ascii.eqb c JS.LF || Ascii.eqb c JS.CR.

Definition has_special (text : string) : bool :=
  existsb is_special (list_ascii_of_string text).

(** Every quote of the text written twice. *)
Fixpoint double_quotes (text : string) : string :=
  match text with
  | EmptyString => EmptyString
  | String c text' =>
      if Ascii.eqb c JS.quote then String JS.quote (String JS.quote (double_quotes text'))
      else String c (double_quotes text')
  end.

(** The standard reading of a quoted field, after its opening quote: two
    quotes stand for one, a single quote must be the last character. *)
Fixpoint unquote_body (s : string) : option string :=
  match s with
  | EmptyString => None
  | String c s' =>
      if Ascii.eqb c JS.quote then
        match s' with
        | EmptyString => Some EmptyString
        | String c' s'' =>
            if Ascii.eqb c' JS.quote then option_map (String JS.quote) (unquote_body s'')
            else None
        end
      else option_map (String c) (unquote_body s')
  end.

(** The standard reading of one field: a quoted field is unquoted, a bare
    field stands for itself and holds no separator, quote or line break. *)
Definition csvUnquote (field : string) : option string :=
  match field with
  | EmptyString => Some EmptyString
  | String c s' =>
      if Ascii.eqb c JS.quote then unquote_body s'
      else if has_special field then None else Some field
  end.

(** The value a record gives for a header: its field of that name;
    failing that the property of that name that every record inherits (a
    method such as [constructor] or [toString]); failing that nothing. *)
Definition field_named (row : CsvExport.CsvRow) (header : string) : CsvExport.CsvValue :=
  match List.find (fun field => String.eqb (fst field) header) row with
  | Some field => snd field
  | None =>
      match List.find (fun property => String.eqb (fst property) header)
              CsvExport.Object_prototype with
      | Some property => snd property
      | None => CsvExport.VUndefined
      end
  end.

Definition named_by_index (field : string * CsvExport.CsvValue) : bool :=
  match JS.array_index (fst field) with
  | Some _ => true
  | None => false
  end.

Definition index_of (field : string * CsvExport.CsvValue) : Z :=
  match JS.array_index (fst field) with
  | Some n => n
  | None => 0
  end.

Fixpoint insert_ascending (field : string * CsvExport.CsvValue)
    (fields : list (string * CsvExport.CsvValue)) : list (string * CsvExport.CsvValue) :=
  match fields with
  | [] => [field]
  | f :: rest =>
      if (index_of f <=? index_of field)%Z then f :: insert_ascending field rest
      else field :: fields
  end.

Definition ascending (fields : list (string * CsvExport.CsvValue))
    : list (string * CsvExport.CsvValue) :=
  fold_left (fun sorted field => insert_ascending field sorted) fields [].

(** The record's own field order: the fields named by an array index, in
    ascending order of the index, then the other fields in the order in
    which they were created. *)
Definition natural_order (row : CsvExport.CsvRow) : list (string * CsvExport.CsvValue) :=
  ascending (List.filter named_by_index row)
  ++ List.filter (fun field => negb (named_by_index field)) row.

Section SectionsToText.

(** The cell encoder, [escapeCell]. *)
Variable escapeCell : CsvExport.CsvValue -> string.

(** The title line, itself escaped, and a blank line, if a title is present. *)
Definition title_lines (section : CsvExport.CsvSection) : list string :=
  match CsvExport.title section with
  | EmptyString => []
  | String _ _ => [escapeCell (CsvExport.VStr (CsvExport.title section)); ""]
  end.

(** The header line, each header escaped, if headers are given. *)
Definition header_lines (section : CsvExport.CsvSection) : list string :=
  match CsvExport.headers section with
  | [] => []
  | _ :: _ =>
      [String.concat "," (map (fun h => escapeCell (CsvExport.VStr h)) (CsvExport.headers section))]
  end.

(** The cells of a row: in header order, each the value the record gives
    for the header; in the record's own field order if there are no
    headers. *)
Definition row_cells (section : CsvExport.CsvSection) (row : CsvExport.CsvRow)
    : list CsvExport.CsvValue :=
  match CsvExport.headers section with
  | [] => map snd (natural_order row)
  | _ :: _ => map (field_named row) (CsvExport.headers section)
  end.

Definition row_line (section : CsvExport.CsvSection) (row : CsvExport.CsvRow) : string :=
  String.concat "," (map escapeCell (row_cells section row)).

(** The lines of one section, with the blank line that separates it from
    the next section unless it is the final one. *)
Definition section_lines (final : bool) (section : CsvExport.CsvSection) : list string :=
  title_lines section ++ header_lines section
  ++ map (row_line section) (CsvExport.rows section)
  ++ (if final then [] else [""]).

Fixpoint all_lines (sections : list CsvExport.CsvSection) : list string :=
  match sections with
  | [] => []
  | [section] => section_lines true section
  | section :: rest => section_lines false section ++ all_lines rest
  end.

(** One newline between consecutive lines, none after the last. *)
Fixpoint lines_text (lines : list string) : string :=
  match lines with
  | [] => ""
  | [line] => line
  | line :: rest => line +:+ String JS.LF (lines_text rest)
  end.

Definition sectionsToText (sections : list CsvExport.CsvSection) : string :=
  lines_text (all_lines sections).

End SectionsToText.

(** The text of one field: between quotes, with its quotes doubled, when
    it holds a separator, a quote or a line break. *)
Definition escape (text : string) : string :=
  if has_special text
  then JS.str JS.quote +:+ double_quotes text +:+ JS.str JS.quote
  else text.

(** A standard reader of CSV text.  Fields are separated by commas and
    records by line feeds; a field that starts with a quote runs to its
    closing quote, two quotes inside it standing for one, and may hold
    commas and line breaks; a bare field holds no quote and no carriage
    return.  The reader is at the start of a field, inside a bare field,
    inside a quoted field, or just after a quote met inside a quoted
    field. *)
Inductive ReadState : Type := FieldStart | Bare | Quoted | QuoteSeen.

(** [field] is what has been read of the current field, [record] the
    fields before it in the current record, [records] the records before
    that one. *)
Fixpoint read_from (st : ReadState) (field : string) (record : list string)
    (records : list (list string)) (text : string) : option (list (list string)) :=
  match text with
  | EmptyString =>
      match st with
      | Quoted => None
      | _ => Some (records ++ [record ++ [field]])
      end
  | String c text' =>
      match st with
      | FieldStart =>
          if Ascii.eqb c JS.quote then read_from Quoted "" record records text'
          else if Ascii.eqb c JS.comma then read_from FieldStart "" (record ++ [""]) records text'
          else if Ascii.eqb c JS.LF then read_from FieldStart "" [] (records ++ [record ++ [""]]) text'
          else if Ascii.eqb c JS.CR then None
          else read_from Bare (JS.str c) record records text'
      | Bare =>
          if Ascii.eqb c JS.quote then None
          else if Ascii.eqb c JS.comma then
            read_from FieldStart "" (record ++ [field]) records text'
          else if Ascii.eqb c JS.LF then
            read_from FieldStart "" [] (records ++ [record ++ [field]]) text'
          else if Ascii.eqb c JS.CR then None
          else read_from Bare (field +:+ JS.str c) record records text'
      | Quoted =>
          if Ascii.eqb c JS.quote then read_from QuoteSeen field record records text'
          else read_from Quoted (field +:+ JS.str c) record records text'
      | QuoteSeen =>
          if Ascii.eqb c JS.quote then
            read_from Quoted (field +:+ JS.str JS.quote) record records text'
          else if Ascii.eqb c JS.comma then
            read_from FieldStart "" (record ++ [field]) records text'
          else if Ascii.eqb c JS.LF then
            read_from FieldStart "" [] (records ++ [record ++ [field]]) text'
          else None
      end
  end.

(** The records of a text, [None] when it is not well formed.  The empty
    text is one record of one empty field. *)
Definition read (text : string) : option (list (list string)) :=
  read_from FieldStart "" [] [] text.

(** What the reader sees of a line written for no cell at all: one empty
    field. *)
Definition record_of (cells : list string) : list string :=
  match cells with
  | [] => [""]
  | _ :: _ => cells
  end.

(** What the reader sees of the lines written for a table. *)
Definition table_of (table : list (list string)) : list (list string) :=
  match table with
  | [] => [[""]]
  | _ :: _ => map record_of table
  end.

(** The reader's next steps once a field is complete. *)
Definition after_field (field : string) (record : list string) (records : list (list string))
    (rest : string) : option (list (list string)) :=
  match rest with
  | EmptyString => Some (records ++ [record ++ [field]])
  | String c rest' =>
      if Ascii.eqb c JS.comma then read_from FieldStart "" (record ++ [field]) records rest'
      else read_from FieldStart "" [] (records ++ [record ++ [field]]) rest'
  end.

(** The reader's next steps once a record is complete. *)
Definition after_record (record : list string) (records : list (list string)) (rest : string)
    : option (list (list string)) :=
  match rest with
  | EmptyString => Some (records ++ [record])
  | String _ rest' => read_from FieldStart "" [] (records ++ [record]) rest'
  end.

(** A text that is over or goes on with a comma or a line feed. *)
Definition delimited (rest : string) : Prop :=
  match rest with
  | EmptyString => True
  | String c _ => c = JS.comma \/ c = JS.LF
  end.

Section Cells.

Variable Number_toString : JS.number -> string.

(** The text a cell stands for: nothing for [null] and [undefined]. *)
Definition cell_text (value : CsvExport.CsvValue) : string :=
  match value with
  | CsvExport.VNull | CsvExport.VUndefined => ""
  | _ => CsvExport.String_ Number_toString value
  end.

(** The cells each line of the text of a section is written for: the
    title alone, no cell for a blank line, the headers, the cells of each
    row. *)
Definition section_cells (final : bool) (section : CsvExport.CsvSection)
    : list (list CsvExport.CsvValue) :=
  match CsvExport.title section with
  | EmptyString => []
  | String _ _ => [[CsvExport.VStr (CsvExport.title section)]; []]
  end
  ++ match CsvExport.headers section with
     | [] => []
     | _ :: _ => [map CsvExport.VStr (CsvExport.headers section)]
     end
  ++ map (row_cells section) (CsvExport.rows section)
  ++ (if final then [] else [[]]).

Fixpoint all_cells (sections : list CsvExport.CsvSection) : list (list CsvExport.CsvValue) :=
  match sections with
  | [] => []
  | [section] => section_cells true section
  | section :: rest => section_cells false section ++ all_cells rest
  end.

End Cells.

(** The line written for the texts of the cells of a record. *)
Definition written_line (cells : list string) : string :=
  String.concat "," (map escape cells).

(** A text of decimal digits only. *)
Definition all_digits (s : string) : bool :=
  forallb JsonText.is_digit (list_ascii_of_string s).

(** The fields of a date are in the ranges of the calendar and the clock. *)
Definition in_range (now : CsvExport.Date) : Prop :=
  (0 <= CsvExport.getMonth now <= 11)%Z
  /\ (1 <= CsvExport.getDate now <= 31)%Z
  /\ (0 <= CsvExport.getHours now <= 23)%Z
  /\ (0 <= CsvExport.getMinutes now <= 59)%Z
  /\ (0 <= CsvExport.getSeconds now <= 59)%Z.

End CsvSpec.

(** ** App.tsx *)

Module App.

(** The text [handleExport] hands to [downloadCSV]: [metrics] is the result
    of [calculateMetrics(values)], and the metadata is what
    [createExportMetadata] reads from the clock and the locale. *)
Definition csvContent (rt : JS.Runtime) (metadata : ExportData.ExportMetadata)
    (values : ExportData.CalculatorValues) (metrics : ExportData.CalculationResults) : string :=
  let exportData := ExportData.aggregateExportData rt metadata values metrics in
  let csvSections := ExportData.convertToCSVSections rt exportData in
  CsvExport.sectionsToCSV (JS.Number_toString rt) csvSections.

End App.

(** ** Sample inputs *)

Module Samples.

Import PersistentState.

(** A printer of numbers that is right on integers. *)
Definition print_integer (n : JS.number) : string :=
  match n with
  | JS.NaN => "NaN"
  | JS.Infinity true => "-Infinity"
  | JS.Infinity false => "Infinity"
  | JS.Finite q => JS.Z_toString (Qfloor q)
  end.

(** A reader of the decimal texts [toFixed] prints. *)
Definition read_decimal (text : string) : JS.number :=
  match JS.split "."%char text with
  | [whole] =>
      match NilZero.int_of_string whole with
      | Some d => JS.of_Z (Z.of_int d)
      | None => JS.NaN
      end
  | [whole; fraction] =>
      match NilZero.int_of_string (whole +:+ fraction) with
      | Some d =>
          JS.Finite (inject_Z (Z.of_int d)
                     / inject_Z (10 ^ Z.of_nat (String.length fraction)))
      | None => JS.NaN
      end
  | _ => JS.NaN
  end.

(** A runtime whose arithmetic does not round. *)
Definition runtime : JS.Runtime :=
  {| JS.Number_toString := print_integer;
     JS.Number_ofString := read_decimal;
     JS.mul := JS.mul_exact;
     JS.div := JS.div_exact |}.

Definition options : StorageOptions :=
  CalculatorState.calculator_options CalculatorState.defaultValues.

(** A stored value with a field the default does not have. *)
Definition stored_with_unknown_field : json :=
  JObj [("targetDishes", JNum 300); ("legacyField", JNum 9)].

(** A stored value from an older version: some of the default's fields. *)
Definition stored_partial : json :=
  JObj [("targetDishes", JNum 300); ("noShowRate", JNum 10)].

(** A parser that knows the texts of the two stored values. *)
Definition parse (text : string) : option json :=
  if String.eqb text (JSON_stringify stored_with_unknown_field)
  then Some stored_with_unknown_field
  else if String.eqb text (JSON_stringify stored_partial) then Some stored_partial
  else None.

Definition area_storing (stored : json) : StorageArea :=
  {| items := {[ CalculatorState.STORAGE_KEY := JSON_stringify stored ]};
     rejects := fun _ _ => false |}.

Definition world_with_storage : World := fresh_world 0 (Some (area_storing stored_partial)).



(** One update made after the effects, in a world with storage. *)
Definition updated_with_storage : World * Hook :=
  run parse options [DoEffects; DoUpdate (CalculatorState.updateValue "targetDishes" 250)]
    (world_with_storage, render parse options world_with_storage).

(** The default's fields with the first two exchanged. *)
Definition reordered_defaults : json :=
  JObj [("touristCustomers", JNum 50); ("localCustomers", JNum 100);
        ("localFrequency", JNum 7); ("touristFrequency", JNum 30);
        ("targetDishes", JNum 200); ("avgGroupSize", JNum 3);
        ("dishesPerPerson", JNum 2); ("walkInDaily", JNum 20);
        ("weekdayShowUp", JNum 85); ("weekendShowUp", JNum 75);
        ("noShowRate", JNum 15)].


Definition values : ExportData.CalculatorValues :=
  {| ExportData.localCustomers := JS.of_Z 100;
     ExportData.touristCustomers := JS.of_Z 50;
     ExportData.localFrequency := JS.of_Z 7;
     ExportData.touristFrequency := JS.of_Z 30;
     ExportData.targetDishes := JS.of_Z 200;
     ExportData.avgGroupSize := JS.of_Z 3;
     ExportData.dishesPerPerson := JS.of_Z 2;
     ExportData.walkInDaily := JS.of_Z 20;
     ExportData.weekdayShowUp := JS.of_Z 85;
     ExportData.weekendShowUp := JS.of_Z 75;
     ExportData.noShowRate := JS.of_Z 15 |}.

Definition results (total gap : Z) : ExportData.CalculationResults :=
  {| ExportData.localActiveBase := JS.of_Z 0;
     ExportData.touristActiveBase := JS.of_Z 0;
     ExportData.localCapacity := JS.of_Z 0;
     ExportData.touristCapacity := JS.of_Z 0;
     ExportData.walkInCapacity := JS.of_Z 0;
     ExportData.totalCapacity := JS.of_Z total;
     ExportData.groupsPerDay := JS.of_Z 0;
     ExportData.gap := JS.of_Z gap;
     ExportData.utilizationRate := JS.of_Z 0 |}.

Definition metadata : ExportData.ExportMetadata :=
  {| ExportData.exportDate := "03/11/2569";
     ExportData.exportTime := "10:00:00";
     ExportData.appName := "Customer Rotation Calculator";
     ExportData.version := "1.0.0";
     ExportData.timezone := "Asia/Bangkok" |}.

(** The time of an export: 5 March 2024, 14:07:09. *)
Definition export_time : CsvExport.Date :=
  {| CsvExport.getFullYear := 2024; CsvExport.getMonth := 2; CsvExport.getDate := 5;
     CsvExport.getHours := 14; CsvExport.getMinutes := 7; CsvExport.getSeconds := 9 |}.

(** One second later. *)
Definition a_second_later : CsvExport.Date :=
  {| CsvExport.getFullYear := 2024; CsvExport.getMonth := 2; CsvExport.getDate := 5;
     CsvExport.getHours := 14; CsvExport.getMinutes := 7; CsvExport.getSeconds := 10 |}.

(** Results that are no numbers, as when an input field holds no number. *)
Definition results_NaN : ExportData.CalculationResults :=
  {| ExportData.localActiveBase := JS.NaN;
     ExportData.touristActiveBase := JS.NaN;
     ExportData.localCapacity := JS.NaN;
     ExportData.touristCapacity := JS.NaN;
     ExportData.walkInCapacity := JS.NaN;
     ExportData.totalCapacity := JS.NaN;
     ExportData.groupsPerDay := JS.NaN;
     ExportData.gap := JS.NaN;
     ExportData.utilizationRate := JS.NaN |}.

(** A local area with the entries of the calculator and one of another
    application. *)
Definition shared_area : StorageArea :=
  {| items := {[ "calculator-values" := JSON_stringify stored_partial;
                 "calculator-preferences" := "{}";
                 "theme" := "dark" ]};
     rejects := fun _ _ => false |}.

Definition window : Window := {| localArea := Some shared_area; sessionArea := None |}.

(** An area that is full: it takes the trial write and no other. *)
Definition full_area : StorageArea :=
  {| items := {[ CalculatorState.STORAGE_KEY := JSON_stringify stored_partial ]};
     rejects := fun k _ => negb (String.eqb k testKey) |}.

Definition full_window : Window := {| localArea := Some full_area; sessionArea := None |}.



(** A record with two fields named by array indices, created in the
    order b, 10, a, 2. *)
Definition row_with_indices : CsvExport.CsvRow :=
  [("b", CsvExport.VNum (JS.of_Z 1)); ("10", CsvExport.VNum (JS.of_Z 2));
   ("a", CsvExport.VNum (JS.of_Z 3)); ("2", CsvExport.VNum (JS.of_Z 4))].

(** A section with a title and nothing else. *)
Definition title_only : CsvExport.CsvSection :=
  {| CsvExport.title := "Summary"; CsvExport.headers := []; CsvExport.rows := [] |}.

(** The render cycle: the effects, one queued update, and the render that
    runs it. *)
Definition rendered_update : World * RenderCycle.Hook :=
  RenderCycle.run parse options
    [RenderCycle.DoEffects;
     RenderCycle.DoUpdate false (CalculatorState.updateValue "targetDishes" 250);
     RenderCycle.DoRender]
    (RenderCycle.mount parse options world_with_storage).

(** An area that refuses the trial write and takes a write of the
    calculator's entry. *)
Definition area_without_room : StorageArea :=
  {| items := {[ CalculatorState.STORAGE_KEY := JSON_stringify stored_partial ]};
     rejects := fun k _ => String.eqb k testKey |}.

(** The area comes to refuse the trial write while the write of the
    update is pending, and the component is rendered again. *)
Definition rendered_without_storage : World * RenderCycle.Hook :=
  RenderCycle.run parse options
    [RenderCycle.DoOutside (Some area_without_room); RenderCycle.DoRender]
    rendered_update.

(** A second update is made while the write of the first is pending, and
    waits for the next render. *)
Definition second_update_waiting : World * RenderCycle.Hook :=
  RenderCycle.run parse options
    [RenderCycle.DoUpdate false (CalculatorState.updateValue "targetDishes" 300)]
    rendered_update.


End Samples.

(** * Properties *)

(** ** Strings *)

Lemma append_assoc (a b c : string) : (a +:+ b) +:+ c = a +:+ (b +:+ c).
Proof. induction a as [|x a IH]; cbn; [reflexivity | rewrite IH; reflexivity]. Qed.

Lemma append_nil_r (a : string) : a +:+ "" = a.
Proof. induction a as [|x a IH]; cbn; [reflexivity | rewrite IH; reflexivity]. Qed.

Lemma includes_char (s : string) (c : ascii) :
  JS.includes s (JS.str c) = existsb (Ascii.eqb c) (list_ascii_of_string s).
Proof.
  induction s as [|a s IH]; simpl; [reflexivity|].
  destruct (ascii_dec c a) as [E|Hne]; simpl.
  - subst a. rewrite Ascii.eqb_refl.
    replace (String.prefix "" s) with true by (destruct s; reflexivity).
    reflexivity.
  - apply Ascii.eqb_neq in Hne. rewrite Hne. exact IH.
Qed.

Lemma existsb_is_special (l : list ascii) :
  existsb CsvSpec.is_special l
  = existsb (Ascii.eqb JS.comma) l || existsb (Ascii.eqb JS.quote) l
    || existsb (Ascii.eqb JS.LF) l || existsb (Ascii.eqb JS.CR) l.
Proof.
  induction l as [|a l IH]; cbn [existsb]; [reflexivity|].
  rewrite IH. unfold CsvSpec.is_special.
  rewrite !(Ascii.eqb_sym a).
  destruct (Ascii.eqb JS.comma a), (Ascii.eqb JS.quote a), (Ascii.eqb JS.LF a),
    (Ascii.eqb JS.CR a); simpl; rewrite ?orb_true_r; reflexivity.
Qed.

Lemma replace_quote_doubles (s : string) :
  JS.replace_char JS.quote (String JS.quote (JS.str JS.quote)) s = CsvSpec.double_quotes s.
Proof.
  induction s as [|a s IH]; [reflexivity|].
  cbn [JS.replace_char CsvSpec.double_quotes].
  rewrite IH. destruct (Ascii.eqb a JS.quote); reflexivity.
Qed.

Lemma unquote_body_double_quotes (s : string) :
  CsvSpec.unquote_body (CsvSpec.double_quotes s +:+ JS.str JS.quote) = Some s.
Proof.
  induction s as [|a s IH].
  - cbn [CsvSpec.double_quotes String.append JS.str CsvSpec.unquote_body].
    rewrite Ascii.eqb_refl. reflexivity.
  - cbn [CsvSpec.double_quotes].
    destruct (Ascii.eqb a JS.quote) eqn:Ha;
      cbn [String.append CsvSpec.unquote_body].
    + apply Ascii.eqb_eq in Ha. subst a.
      rewrite !Ascii.eqb_refl, IH. reflexivity.
    + rewrite Ha, IH. reflexivity.
Qed.

Lemma csvUnquote_bare (s : string) :
  CsvSpec.has_special s = false -> CsvSpec.csvUnquote s = Some s.
Proof.
  destruct s as [|a s]; [reflexivity|].
  intros H. unfold CsvSpec.csvUnquote. rewrite H.
  unfold CsvSpec.has_special in H. cbn [list_ascii_of_string existsb] in H.
  apply orb_false_elim in H as [Ha _].
  unfold CsvSpec.is_special in Ha.
  destruct (Ascii.eqb a JS.quote); [|reflexivity].
  rewrite orb_true_r in Ha. discriminate.
Qed.

Section FormatCsvValue.

Variable Number_toString : JS.number -> string.

Lemma formatCsvValue_text (value : CsvExport.CsvValue) :
  value <> CsvExport.VNull -> value <> CsvExport.VUndefined ->
  CsvExport.formatCsvValue Number_toString value
  = if CsvSpec.has_special (CsvExport.String_ Number_toString value)
    then JS.str JS.quote
         +:+ CsvSpec.double_quotes (CsvExport.String_ Number_toString value)
         +:+ JS.str JS.quote
    else CsvExport.String_ Number_toString value.
Proof.
  intros Hn Hu.
  assert (E : CsvExport.formatCsvValue Number_toString value
              = let stringValue := CsvExport.String_ Number_toString value in
                if JS.includes stringValue (JS.str JS.comma)
                   || JS.includes stringValue (JS.str JS.quote)
                   || JS.includes stringValue (JS.str JS.LF)
                   || JS.includes stringValue (JS.str JS.CR)
                then JS.str JS.quote
                     +:+ JS.replace_char JS.quote (String JS.quote (JS.str JS.quote)) stringValue
                     +:+ JS.str JS.quote
                else stringValue)
    by (destruct value; try reflexivity; congruence).
  rewrite E. cbv zeta.
  rewrite !includes_char, replace_quote_doubles.
  unfold CsvSpec.has_special. rewrite existsb_is_special. reflexivity.
Qed.

(** C3.  [formatCsvValue] (the specification's escapeCell) gives the empty
    text for [null] and [undefined]; any other value is converted to text,
    and when the text holds a comma, a double quote, a line feed or a
    carriage return the result is the text between quotes with every quote
    of it doubled, otherwise the text itself; reading the result back by
    the standard CSV rule for one field gives the text again, for every
    text. *)
Theorem formatCsvValue_round_trip :
  CsvExport.formatCsvValue Number_toString CsvExport.VNull = ""
  /\ CsvExport.formatCsvValue Number_toString CsvExport.VUndefined = ""
  /\ forall value : CsvExport.CsvValue,
      value <> CsvExport.VNull -> value <> CsvExport.VUndefined ->
      CsvExport.formatCsvValue Number_toString value
      = (if CsvSpec.has_special (CsvExport.String_ Number_toString value)
         then JS.str JS.quote
              +:+ CsvSpec.double_quotes (CsvExport.String_ Number_toString value)
              +:+ JS.str JS.quote
         else CsvExport.String_ Number_toString value)
      /\ CsvSpec.csvUnquote (CsvExport.formatCsvValue Number_toString value)
         = Some (CsvExport.String_ Number_toString value).
Proof.
  split; [reflexivity|]. split; [reflexivity|].
  intros value Hn Hu.
  pose proof (formatCsvValue_text value Hn Hu) as E.
  split; [exact E|].
  rewrite E.
  destruct (CsvSpec.has_special (CsvExport.String_ Number_toString value)) eqn:Hs.
  - cbn [JS.str String.append CsvSpec.csvUnquote].
    rewrite Ascii.eqb_refl. apply unquote_body_double_quotes.
  - apply csvUnquote_bare. exact Hs.
Qed.

End FormatCsvValue.

(** ** Sections *)

Lemma join_lines_text (lines : list string) :
  JS.join (JS.str JS.LF) lines = CsvSpec.lines_text lines.
Proof.
  unfold JS.join.
  induction lines as [|l [|l' ls] IH]; [reflexivity..|].
  change (String.concat (JS.str JS.LF) (l :: l' :: ls))
    with (l +:+ JS.str JS.LF +:+ String.concat (JS.str JS.LF) (l' :: ls)).
  rewrite IH. reflexivity.
Qed.

Lemma forEach_push {A} (f : A -> string) (arr : list A) :
  forall (i : nat) (acc : list string),
    JS.forEach_from i (fun acc x (_ : nat) => acc ++ [f x]) arr acc = acc ++ map f arr.
Proof.
  induction arr as [|x arr IH]; intros i acc; cbn [JS.forEach_from map].
  - rewrite app_nil_r. reflexivity.
  - rewrite IH, <- app_assoc. reflexivity.
Qed.

(** Reading a property by its name finds the first field of that name. *)
Lemma get_find {V} (obj : JS.object V) (k : string) :
  JS.get obj k = option_map snd (List.find (fun field => String.eqb (fst field) k) obj).
Proof.
  induction obj as [|[k' v] obj IH]; cbn [JS.get List.find fst]; [reflexivity|].
  destruct (String.eqb k' k); [reflexivity | exact IH].
Qed.

Lemma cell_field_named (row : CsvExport.CsvRow) (header : string) :
  CsvExport.cell row header = CsvSpec.field_named row header.
Proof.
  unfold CsvExport.cell, CsvSpec.field_named. rewrite !get_find.
  destruct (List.find _ row); [reflexivity|].
  destruct (List.find _ CsvExport.Object_prototype); reflexivity.
Qed.

Lemma insert_ascending_indexed (field : string * CsvExport.CsvValue)
    (fields : list (string * CsvExport.CsvValue)) :
  CsvSpec.named_by_index field = true ->
  Forall (fun f => CsvSpec.named_by_index f = true) fields ->
  Forall (fun f => CsvSpec.named_by_index f = true) (CsvSpec.insert_ascending field fields).
Proof.
  intros Hfield. induction 1 as [|f rest Hf Hrest IH]; cbn [CsvSpec.insert_ascending].
  - repeat constructor. exact Hfield.
  - destruct (CsvSpec.index_of f <=? CsvSpec.index_of field)%Z; repeat constructor; assumption.
Qed.

(** Placing a field named by an index among the fields listed so far, the
    indexed ones first: it goes among the indexed ones. *)
Lemma insert_index_ascending (n : Z) (field : string * CsvExport.CsvValue)
    (indexed others : list (string * CsvExport.CsvValue)) :
  JS.array_index (fst field) = Some n ->
  Forall (fun f => CsvSpec.named_by_index f = true) indexed ->
  Forall (fun f => CsvSpec.named_by_index f = false) others ->
  JS.insert_index n field (indexed ++ others) = CsvSpec.insert_ascending field indexed ++ others.
Proof.
  intros Hn Hindexed Hothers.
  induction Hindexed as [|f rest Hf Hrest IH]; cbn [app JS.insert_index CsvSpec.insert_ascending].
  - destruct Hothers as [|o others Ho _]; [reflexivity|].
    cbn [JS.insert_index]. unfold CsvSpec.named_by_index in Ho.
    destruct (JS.array_index (fst o)); [discriminate | reflexivity].
  - unfold CsvSpec.named_by_index in Hf. unfold CsvSpec.index_of. rewrite Hn.
    destruct (JS.array_index (fst f)) as [m|]; [|discriminate].
    destruct (m <=? n)%Z; [rewrite IH|]; reflexivity.
Qed.

Lemma enumerate_from (row : CsvExport.CsvRow) :
  forall indexed others : list (string * CsvExport.CsvValue),
    Forall (fun f => CsvSpec.named_by_index f = true) indexed ->
    Forall (fun f => CsvSpec.named_by_index f = false) others ->
    fold_left
      (fun entries kv =>
         match JS.array_index (fst kv) with
         | Some n => JS.insert_index n kv entries
         | None => entries ++ [kv]
         end)
      row (indexed ++ others)
    = fold_left (fun sorted field => CsvSpec.insert_ascending field sorted)
        (List.filter CsvSpec.named_by_index row) indexed
      ++ (others ++ List.filter (fun field => negb (CsvSpec.named_by_index field)) row).
Proof.
  induction row as [|field row IH]; intros indexed others Hindexed Hothers;
    cbn [fold_left List.filter].
  - rewrite app_nil_r. reflexivity.
  - destruct (JS.array_index (fst field)) as [n|] eqn:Hn.
    + assert (Hb : CsvSpec.named_by_index field = true)
        by (unfold CsvSpec.named_by_index; rewrite Hn; reflexivity).
      rewrite Hb. cbn [negb fold_left].
      rewrite (insert_index_ascending n field indexed others Hn Hindexed Hothers).
      apply IH; [|exact Hothers].
      apply insert_ascending_indexed; [exact Hb | exact Hindexed].
    + assert (Hb : CsvSpec.named_by_index field = false)
        by (unfold CsvSpec.named_by_index; rewrite Hn; reflexivity).
      rewrite Hb. cbn [negb].
      rewrite <- app_assoc, (IH indexed (others ++ [field]) Hindexed).
      * rewrite <- app_assoc. reflexivity.
      * apply Forall_app. split; [exact Hothers|]. repeat constructor. exact Hb.
Qed.

(** The engine enumerates the fields of a row in its natural order. *)
Lemma Object_entries_natural_order (row : CsvExport.CsvRow) :
  JS.Object_entries row = CsvSpec.natural_order row.
Proof.
  unfold JS.Object_entries, CsvSpec.natural_order, CsvSpec.ascending.
  exact (enumerate_from row [] [] (List.Forall_nil _) (List.Forall_nil _)).
Qed.

(** A row none of whose fields is named by an array index is enumerated
    in the order in which its fields were created. *)
Lemma natural_order_unindexed (row : CsvExport.CsvRow) :
  Forall (fun field => CsvSpec.named_by_index field = false) row ->
  CsvSpec.natural_order row = row.
Proof.
  intros H. unfold CsvSpec.natural_order.
  induction H as [|f l Hf Hl IH]; cbn [List.filter]; [reflexivity|].
  rewrite Hf. cbn [negb].
  destruct (List.filter CsvSpec.named_by_index l) as [|g indexed] eqn:E.
  - cbn [CsvSpec.ascending fold_left app] in *. f_equal. exact IH.
  - exfalso. assert (Hg : In g (List.filter CsvSpec.named_by_index l))
      by (rewrite E; left; reflexivity).
    apply filter_In in Hg as [Hin Hg].
    rewrite List.Forall_forall in Hl. rewrite (Hl g Hin) in Hg. discriminate.
Qed.

(** A further line goes after a newline. *)
Lemma lines_text_snoc (lines : list string) (line : string) :
  lines <> [] ->
  CsvSpec.lines_text (lines ++ [line]) = CsvSpec.lines_text lines +:+ JS.str JS.LF +:+ line.
Proof.
  induction lines as [|l [|l' ls] IH]; intros Hne; [contradiction|reflexivity|].
  change (CsvSpec.lines_text ((l :: l' :: ls) ++ [line]))
    with (l +:+ String JS.LF (CsvSpec.lines_text ((l' :: ls) ++ [line]))).
  rewrite IH by discriminate.
  change (CsvSpec.lines_text (l :: l' :: ls))
    with (l +:+ String JS.LF (CsvSpec.lines_text (l' :: ls))).
  rewrite append_assoc. reflexivity.
Qed.

Section SectionsToCSV.

Variable Number_toString : JS.number -> string.

Let escape := CsvExport.formatCsvValue Number_toString.

Lemma push_section_lines (n : nat) (acc : list string) (section : CsvExport.CsvSection)
    (i : nat) :
  CsvExport.push_section Number_toString n acc section i
  = acc ++ CsvSpec.section_lines escape (negb (Z.of_nat i <? Z.of_nat n - 1)%Z) section.
Proof.
  unfold CsvExport.push_section, CsvSpec.section_lines, CsvSpec.title_lines,
    CsvSpec.header_lines, CsvSpec.row_line, CsvSpec.row_cells, JS.forEach, JS.join,
    JS.Object_values.
  destruct section as [t hs rs]; cbn [CsvExport.title CsvExport.headers CsvExport.rows].
  destruct (Z.of_nat i <? Z.of_nat n - 1)%Z; cbn [negb];
    destruct t as [|c t]; cbn [String.eqb];
    destruct hs as [|h hs]; cbn [List.length Nat.ltb Nat.leb];
    rewrite forEach_push; fold escape;
    rewrite <- ?app_assoc, ?app_nil_r; cbn [app];
    repeat first [ reflexivity
                 | apply map_ext; intros row;
                   rewrite ?map_map, ?Object_entries_natural_order;
                   first [ reflexivity
                         | f_equal; apply map_ext; intros header;
                           rewrite cell_field_named; reflexivity ]
                 | f_equal ].
Qed.

Lemma all_lines_cons (section : CsvExport.CsvSection) (rest : list CsvExport.CsvSection) :
  CsvSpec.all_lines escape (section :: rest)
  = CsvSpec.section_lines escape (Nat.eqb (List.length rest) 0) section
    ++ CsvSpec.all_lines escape rest.
Proof.
  destruct rest as [|s' rest]; cbn [CsvSpec.all_lines List.length Nat.eqb].
  - rewrite app_nil_r. reflexivity.
  - reflexivity.
Qed.

Lemma forEach_push_section (sections : list CsvExport.CsvSection) :
  forall (i : nat) (acc : list string),
    JS.forEach_from i (CsvExport.push_section Number_toString (i + List.length sections))
      sections acc
    = acc ++ CsvSpec.all_lines escape sections.
Proof.
  induction sections as [|s rest IH]; intros i acc.
  - cbn [JS.forEach_from CsvSpec.all_lines]. rewrite app_nil_r. reflexivity.
  - rewrite all_lines_cons.
    cbn [JS.forEach_from List.length].
    replace (i + S (List.length rest))%nat with (S i + List.length rest)%nat by lia.
    rewrite IH, push_section_lines, <- app_assoc.
    do 3 f_equal.
    destruct rest as [|s' rest]; cbn [List.length Nat.eqb].
    + replace (Z.of_nat i <? Z.of_nat (S i + 0) - 1)%Z with false
        by (symmetry; apply Z.ltb_ge; lia).
      reflexivity.
    + replace (Z.of_nat i <? Z.of_nat (S i + S (List.length rest)) - 1)%Z with true
        by (symmetry; apply Z.ltb_lt; lia).
      reflexivity.
Qed.

Lemma sectionsToCSV_text (sections : list CsvExport.CsvSection) :
  CsvExport.sectionsToCSV Number_toString sections
  = CsvSpec.sectionsToText (CsvExport.formatCsvValue Number_toString) sections.
Proof.
  unfold CsvExport.sectionsToCSV, CsvSpec.sectionsToText, JS.forEach.
  rewrite join_lines_text.
  change (List.length sections) with (0 + List.length sections)%nat.
  rewrite (forEach_push_section sections 0 []).
  reflexivity.
Qed.

(** The lines of a list of sections that ends with a section of a title
    only: the blank line after the title is the last one. *)
Lemma all_lines_title_last (sections : list CsvExport.CsvSection) (t : string) :
  t <> "" ->
  exists lines : list string,
    CsvSpec.all_lines escape
      (sections ++ [{| CsvExport.title := t; CsvExport.headers := []; CsvExport.rows := [] |}])
    = (lines ++ [escape (CsvExport.VStr t)]) ++ [""].
Proof.
  intros Ht.
  induction sections as [|section rest (lines & IH)].
  - exists []. cbn [app CsvSpec.all_lines]. unfold CsvSpec.section_lines, CsvSpec.title_lines,
      CsvSpec.header_lines. cbn [CsvExport.title CsvExport.headers CsvExport.rows map app].
    destruct t; [contradiction | reflexivity].
  - exists (CsvSpec.section_lines escape false section ++ lines).
    cbn [app]. rewrite all_lines_cons, IH, !app_assoc.
    replace (Nat.eqb (List.length (rest ++ [_])) 0) with false
      by (rewrite length_app; cbn [List.length]; symmetry; apply Nat.eqb_neq; lia).
    reflexivity.
Qed.

(** C4, as the code has it.  For every list of sections [sectionsToCSV]
    gives, for each section in the order given, the escaped title line and
    a blank line when the title is present, then the line of escaped
    headers joined by commas when there are headers, then one line per row,
    its cells escaped and taken in header order (the cell of a header being
    the row's field of that name, failing that the property every object
    inherits under that name, failing that nothing), or in the record's own
    field order when there are no headers (fields named by an array index
    first, in ascending order, then the others as created), then a blank
    line unless the section is the final one; consecutive lines are joined
    by one newline and nothing is added after the last line.  The last line
    can be blank: when the final section has a title and neither headers
    nor rows, the text ends with a newline. *)
Theorem sectionsToCSV_structure (sections : list CsvExport.CsvSection) :
  CsvExport.sectionsToCSV Number_toString sections
  = CsvSpec.sectionsToText (CsvExport.formatCsvValue Number_toString) sections
  /\ forall t : string,
       t <> "" ->
       exists body : string,
         CsvExport.sectionsToCSV Number_toString
           (sections
            ++ [{| CsvExport.title := t; CsvExport.headers := []; CsvExport.rows := [] |}])
         = body +:+ CsvExport.formatCsvValue Number_toString (CsvExport.VStr t)
           +:+ JS.str JS.LF.
Proof.
  split; [apply sectionsToCSV_text|].
  intros t Ht. rewrite sectionsToCSV_text. unfold CsvSpec.sectionsToText. fold escape.
  destruct (all_lines_title_last sections t Ht) as (lines & ->).
  rewrite lines_text_snoc, append_nil_r by (destruct lines; discriminate).
  destruct lines as [|l ls].
  - exists "". reflexivity.
  - exists (CsvSpec.lines_text (l :: ls) +:+ JS.str JS.LF).
    rewrite lines_text_snoc by discriminate.
    rewrite !append_assoc. reflexivity.
Qed.

End SectionsToCSV.

(** ** Numbers *)

Lemma Qlt_bool_true (x y : Q) : JS.Qlt_bool x y = true <-> (x < y)%Q.
Proof.
  unfold JS.Qlt_bool. rewrite negb_true_iff, <- not_true_iff_false, Qle_bool_iff.
  split; [apply Qnot_le_lt | apply Qlt_not_le].
Qed.

Lemma Qlt_bool_false (x y : Q) : JS.Qlt_bool x y = false <-> (y <= x)%Q.
Proof.
  unfold JS.Qlt_bool. rewrite negb_false_iff, Qle_bool_iff. reflexivity.
Qed.

Lemma lt_ge_false (a b : JS.number) : JS.lt a b = true -> JS.ge a b = false.
Proof.
  unfold JS.ge.
  destruct a as [|[|]|x], b as [|[|]|y]; cbn; try congruence.
  unfold JS.Qlt_bool. apply negb_true_iff.
Qed.

Lemma Qfloor_below (x : Q) (k : Z) :
  (x < inject_Z (k + 1))%Q -> (Qfloor x <= k)%Z.
Proof.
  intros Hx.
  assert (H : (Qfloor x < k + 1)%Z); [|lia].
  rewrite Zlt_Qlt.
  apply Qle_lt_trans with x; [apply Qfloor_le | exact Hx].
Qed.

Lemma round_half_up_below (q : Q) (k : Z) :
  (q < inject_Z k)%Q -> (Qfloor (q + (1 # 2)) <= k)%Z.
Proof.
  intros Hq. apply Qfloor_below.
  rewrite inject_Z_plus.
  apply Qplus_lt_le_compat; [exact Hq|].
  unfold Qle; cbn; lia.
Qed.

Lemma round_half_up_integer (k : Z) : Qfloor (inject_Z k + (1 # 2)) = k.
Proof.
  apply Z.le_antisymm.
  - apply Qfloor_below. rewrite inject_Z_plus.
    apply Qplus_lt_r. reflexivity.
  - rewrite <- (Qfloor_Z k) at 1. apply Qfloor_resp_le.
    rewrite <- (Qplus_0_r (inject_Z k)) at 1.
    apply Qplus_le_r. unfold Qle; cbn; lia.
Qed.

Lemma round_half_up_above (q : Q) (k : Z) :
  (inject_Z k <= q)%Q -> (k <= Qfloor (q + (1 # 2)))%Z.
Proof.
  intros Hq.
  rewrite <- (Qfloor_Z k).
  apply Qfloor_resp_le.
  apply Qle_trans with q; [exact Hq|].
  rewrite <- (Qplus_0_r q) at 1.
  apply Qplus_le_r. unfold Qle; cbn; lia.
Qed.

Lemma lt_inject_Z (a b : Z) : JS.Qlt_bool (inject_Z a) (inject_Z b) = (a <? b)%Z.
Proof.
  destruct (a <? b)%Z eqn:E.
  - apply Qlt_bool_true. rewrite <- Zlt_Qlt. apply Z.ltb_lt. exact E.
  - apply Qlt_bool_false. rewrite <- Zle_Qle. apply Z.ltb_ge. exact E.
Qed.

(** Rounding and capping at an integer commute. *)
Lemma Math_round_min (cap : Z) (x : JS.number) :
  JS.Math_round (JS.Math_min (JS.of_Z cap) x)
  = JS.Math_min (JS.of_Z cap) (JS.Math_round x).
Proof.
  assert (Hcap : JS.Math_round (JS.of_Z cap) = JS.of_Z cap).
  { unfold JS.of_Z, JS.Math_round. rewrite round_half_up_integer. reflexivity. }
  destruct x as [|[|]|q].
  - reflexivity.
  - reflexivity.
  - cbn [JS.Math_round]. unfold JS.Math_min, JS.of_Z. cbn [JS.lt].
    fold (JS.of_Z cap). exact Hcap.
  - unfold JS.Math_min, JS.of_Z in *. cbn [JS.lt JS.Math_round] in *.
    rewrite lt_inject_Z.
    destruct (JS.Qlt_bool q (inject_Z cap)) eqn:E; cbn [JS.Math_round].
    + apply Qlt_bool_true in E.
      pose proof (round_half_up_below q cap E) as Hk.
      destruct (Qfloor (q + (1 # 2)) <? cap)%Z eqn:Ek; [reflexivity|].
      apply Z.ltb_ge in Ek. cbn [JS.Math_round]. do 2 f_equal. lia.
    + apply Qlt_bool_false in E.
      pose proof (round_half_up_above q cap E) as Hk.
      replace (Qfloor (q + (1 # 2)) <? cap)%Z with false
        by (symmetry; apply Z.ltb_ge; exact Hk).
      exact Hcap.
Qed.

(** ** The analysis summary *)

Lemma analysis_texts_distinct :
  ExportData.recommend_large_surplus <> ExportData.recommend_moderate_surplus
  /\ ExportData.recommend_urgent <> ExportData.recommend_moderate_shortfall.
Proof. split; discriminate. Qed.

(** C5.  If [gap >= 0] the summary has the status "exceeds target" and the
    capacity status "sufficient", and its recommendation is the
    large-surplus one exactly when [gap > targetDishes * 0.2], the
    moderate-surplus one otherwise; if [gap < 0] it has the status "below
    target" and the capacity status "insufficient", and its recommendation
    is the urgent one exactly when [|gap| > targetDishes * 0.1], the
    moderate one otherwise.  Comparisons are JavaScript's. *)
Theorem createAnalysisSummary_branches (rt : JS.Runtime)
    (values : ExportData.CalculatorValues) (results : ExportData.CalculationResults) :
  (JS.ge (ExportData.gap results) (JS.of_Z 0) = true ->
     ExportData.status (ExportData.createAnalysisSummary rt values results)
     = ExportData.status_exceeds_target
     /\ ExportData.capacityStatus (ExportData.createAnalysisSummary rt values results)
        = ExportData.capacity_sufficient
     /\ (ExportData.recommendation (ExportData.createAnalysisSummary rt values results)
         = ExportData.recommend_large_surplus
         <-> JS.gt (ExportData.gap results)
               (JS.mul rt (ExportData.targetDishes values) JS.literal_0_2) = true)
     /\ (ExportData.recommendation (ExportData.createAnalysisSummary rt values results)
         = ExportData.recommend_moderate_surplus
         <-> JS.gt (ExportData.gap results)
               (JS.mul rt (ExportData.targetDishes values) JS.literal_0_2) = false))
  /\ (JS.lt (ExportData.gap results) (JS.of_Z 0) = true ->
     ExportData.status (ExportData.createAnalysisSummary rt values results)
     = ExportData.status_below_target
     /\ ExportData.capacityStatus (ExportData.createAnalysisSummary rt values results)
        = ExportData.capacity_insufficient
     /\ (ExportData.recommendation (ExportData.createAnalysisSummary rt values results)
         = ExportData.recommend_urgent
         <-> JS.gt (JS.Math_abs (ExportData.gap results))
               (JS.mul rt (ExportData.targetDishes values) JS.literal_0_1) = true)
     /\ (ExportData.recommendation (ExportData.createAnalysisSummary rt values results)
         = ExportData.recommend_moderate_shortfall
         <-> JS.gt (JS.Math_abs (ExportData.gap results))
               (JS.mul rt (ExportData.targetDishes values) JS.literal_0_1) = false)).
Proof.
  destruct analysis_texts_distinct as [Hs Hu].
  split; intros Hgap.
  - unfold ExportData.createAnalysisSummary. rewrite Hgap.
    cbn [ExportData.status ExportData.capacityStatus ExportData.recommendation].
    split; [reflexivity|]. split; [reflexivity|].
    destruct (JS.gt (ExportData.gap results) _); split; split; congruence.
  - apply lt_ge_false in Hgap.
    unfold ExportData.createAnalysisSummary. rewrite Hgap.
    cbn [ExportData.status ExportData.capacityStatus ExportData.recommendation].
    split; [reflexivity|]. split; [reflexivity|].
    destruct (JS.gt (JS.Math_abs (ExportData.gap results)) _); split; split; congruence.
Qed.

(** C6.  The utilization rate of the summary is
    [min(100, round(targetDishes / totalCapacity * 100))], whatever the
    total capacity, zero included (the quotient is then an infinity, or NaN
    when the target is zero too), and however the runtime rounds the
    quotient and the product. *)
Theorem createAnalysisSummary_utilizationRate (rt : JS.Runtime)
    (values : ExportData.CalculatorValues) (results : ExportData.CalculationResults) :
  ExportData.analysisUtilizationRate (ExportData.createAnalysisSummary rt values results)
  = JS.Math_min (JS.of_Z 100)
      (JS.Math_round
         (JS.mul rt
            (JS.div rt (ExportData.targetDishes values) (ExportData.totalCapacity results))
            (JS.of_Z 100))).
Proof.
  unfold ExportData.createAnalysisSummary.
  destruct (JS.ge (ExportData.gap results) (JS.of_Z 0));
    cbn [ExportData.analysisUtilizationRate]; apply Math_round_min.
Qed.

(** ** The capacity breakdown *)

Section Breakdown.

Variable rt : JS.Runtime.

Lemma percent_of_total_zero (capacity : JS.number) (q : Q) :
  (q == 0)%Q ->
  ExportData.percent_of_total rt capacity (JS.Finite q) = CsvExport.VStr "0%".
Proof.
  intros Hq. unfold ExportData.percent_of_total, JS.gt, JS.of_Z. cbn [JS.lt].
  replace (JS.Qlt_bool (inject_Z 0) q) with false; [reflexivity|].
  symmetry. apply Qlt_bool_false. rewrite Hq. apply Qle_refl.
Qed.

(** C7.  When the total capacity is zero, the fifth section of
    [convertToCSVSections], the capacity breakdown, has three rows, and in
    each of them the field "% of Total Capacity" is the text "0%", which
    [formatCsvValue] writes as it is, whatever the other inputs and
    results. *)
Theorem breakdown_percent_zero_total
    (exportData : ExportData.FullExportData) (q : Q) :
  ExportData.totalCapacity (ExportData.calculatedResults exportData) = JS.Finite q ->
  (q == 0)%Q ->
  exists section : CsvExport.CsvSection,
    nth_error (ExportData.convertToCSVSections rt exportData) 4 = Some section
    /\ map (fun row => CsvExport.cell row ExportData.percent_header) (CsvExport.rows section)
       = [CsvExport.VStr "0%"; CsvExport.VStr "0%"; CsvExport.VStr "0%"]
    /\ map (fun row => CsvExport.formatCsvValue (JS.Number_toString rt)
                         (CsvExport.cell row ExportData.percent_header))
           (CsvExport.rows section)
       = ["0%"; "0%"; "0%"].
Proof.
  intros Htotal Hq.
  exists (ExportData.breakdownSection rt exportData).
  split; [reflexivity|].
  unfold ExportData.breakdownSection. rewrite Htotal.
  cbn [CsvExport.rows map].
  rewrite !(percent_of_total_zero _ q Hq).
  split; reflexivity.
Qed.

End Breakdown.

(** ** Validation *)

(** Content that is empty or white space only is an error. *)
Lemma validateCsvContent_blank (csvContent : string) :
  JS.trim csvContent = "" ->
  CsvExport.validateCsvContent csvContent
  = {| CsvExport.isValid := false;
       CsvExport.warnings := [];
       CsvExport.errors := ["CSV content is empty"] |}.
Proof.
  intros H. unfold CsvExport.validateCsvContent. rewrite H. reflexivity.
Qed.

(** C9, the reported numbers.  In the text below the third line has one
    field where the first has two, and the second line is blank; the
    warning names line 2, the position of the offending line among the
    non-blank lines, not its line number 3. *)
Lemma validateCsvContent_numbers_non_blank_lines :
  JS.split JS.LF ("a,b" +:+ JS.str JS.LF +:+ JS.str JS.LF +:+ "c") = ["a,b"; ""; "c"]
  /\ CsvExport.validateCsvContent ("a,b" +:+ JS.str JS.LF +:+ JS.str JS.LF +:+ "c")
     = {| CsvExport.isValid := true;
          CsvExport.warnings := ["Inconsistent column counts found in lines: 2"];
          CsvExport.errors := [] |}.
Proof. split; vm_compute; reflexivity. Qed.

(** ** The persistent state container *)

Section Container.

Variable JSON_parse : string -> option PersistentState.json.
Variable options : PersistentState.StorageOptions.

Import PersistentState.

Lemma available_shape (w w' : World) : shape w = shape w' -> available w = available w'.
Proof.
  unfold shape, available, getStorageManager.
  destruct (area w) as [a|], (area w') as [a'|]; cbn; intros E; try congruence.
  injection E as ->. destruct (rejects a' _ _); reflexivity.
Qed.

Lemma setItem_frame (w : World) (k v : string) :
  timers (fst (setItem w k v)) = timers w
  /\ clock (fst (setItem w k v)) = clock w
  /\ shape (fst (setItem w k v)) = shape w
  /\ setItem_calls (fst (setItem w k v)) = setItem_calls w ++ [(k, v)].
Proof.
  unfold setItem, shape. destruct (area w) as [a|] eqn:E; [destruct (rejects a k v)|];
    cbn; rewrite ?E; auto.
Qed.

Lemma removeItem_frame (w : World) (k : string) :
  timers (removeItem w k) = timers w
  /\ clock (removeItem w k) = clock w
  /\ shape (removeItem w k) = shape w
  /\ setItem_calls (removeItem w k) = setItem_calls w.
Proof.
  unfold removeItem, shape. destruct (area w) as [a|] eqn:E; cbn; rewrite ?E; auto.
Qed.

Lemma getItem_removeItem (w : World) (k : string) : getItem (removeItem w k) k = None.
Proof.
  unfold getItem, removeItem. destruct (area w) as [a|] eqn:E; cbn.
  - apply lookup_delete_eq.
  - rewrite E. reflexivity.
Qed.

Lemma write_back_frame (value : json) (w : World) :
  timers (write_back options value w) = timers w
  /\ clock (write_back options value w) = clock w
  /\ shape (write_back options value w) = shape w
  /\ setItem_calls (write_back options value w)
     = setItem_calls w ++ [(key options, JSON_stringify value)].
Proof. apply setItem_frame. Qed.

Lemma fire_frame (due_now : list Timer) (w : World) :
  timers (fold_left (fun w t => write_back options (timer_value t) w) due_now w) = timers w
  /\ clock (fold_left (fun w t => write_back options (timer_value t) w) due_now w) = clock w
  /\ shape (fold_left (fun w t => write_back options (timer_value t) w) due_now w) = shape w
  /\ setItem_calls (fold_left (fun w t => write_back options (timer_value t) w) due_now w)
     = setItem_calls w
       ++ map (fun t => (key options, JSON_stringify (timer_value t))) due_now.
Proof.
  revert w. induction due_now as [|t l IH]; intros w; cbn [fold_left map].
  - rewrite app_nil_r. auto.
  - destruct (IH (write_back options (timer_value t) w)) as (Ht & Hc & Hs & Hl).
    destruct (write_back_frame (timer_value t) w) as (Ht' & Hc' & Hs' & Hl').
    rewrite Ht, Hc, Hs, Hl, Ht', Hc', Hs', Hl', <- app_assoc. auto.
Qed.

(** What [advance] does, in terms of the timeouts that are due. *)
Lemma advance_frame (dt : Z) (w : World) :
  timers (advance options dt w)
  = List.filter (fun t => negb (due t <=? clock w + Z.max 0 dt)%Z) (timers w)
  /\ clock (advance options dt w) = (clock w + Z.max 0 dt)%Z
  /\ shape (advance options dt w) = shape w
  /\ setItem_calls (advance options dt w)
     = setItem_calls w
       ++ map (fun t => (key options, JSON_stringify (timer_value t)))
            (List.filter (fun t => (due t <=? clock w + Z.max 0 dt)%Z) (timers w)).
Proof.
  unfold advance. cbv zeta.
  match goal with
  | |- context [fold_left ?f ?l ?w0] => destruct (fire_frame l w0) as (Ht & Hc & Hs & Hl)
  end.
  rewrite Ht, Hc, Hs, Hl. auto.
Qed.

Lemma advance_items_no_timers (dt : Z) (w : World) (k : string) :
  timers w = [] -> getItem (advance options dt w) k = getItem w k.
Proof.
  intros Hw. unfold advance. rewrite Hw. reflexivity.
Qed.

Lemma clearTimeout_frame (id : positive) (w : World) :
  clock (clearTimeout id w) = clock w
  /\ shape (clearTimeout id w) = shape w
  /\ setItem_calls (clearTimeout id w) = setItem_calls w
  /\ next_timer (clearTimeout id w) = next_timer w.
Proof. unfold clearTimeout, shape; cbn; auto. Qed.

(** Cancelling through the ref leaves no timeout armed. *)
Lemma cancel_pending (w : World) (h : Hook) :
  coherent w h ->
  timers (match debounceRef h with
          | Some id => clearTimeout id w
          | None => w
          end) = [].
Proof.
  unfold coherent.
  destruct (timers w) as [|t [|t' ts]] eqn:Hw; [| |contradiction].
  - intros _. destruct (debounceRef h); cbn; [rewrite Hw|]; auto.
  - intros [-> _]. cbn. rewrite Hw. cbn. rewrite Pos.eqb_refl. reflexivity.
Qed.

Lemma cancel_frame (w : World) (h : Hook) :
  clock (match debounceRef h with Some id => clearTimeout id w | None => w end) = clock w
  /\ shape (match debounceRef h with Some id => clearTimeout id w | None => w end) = shape w
  /\ setItem_calls (match debounceRef h with Some id => clearTimeout id w | None => w end)
     = setItem_calls w.
Proof.
  destruct (debounceRef h) as [id|]; [|auto].
  destruct (clearTimeout_frame id w) as (? & ? & ? & ?). auto.
Qed.

(** An update of an initialized container with storage available: the
    state is replaced, the pending timeout is cancelled, and one new
    timeout is armed for the new state. *)
Lemma update_arms (newValue : Update) (w : World) (h : Hook) :
  coherent w h -> isInitializedRef h = true -> available w = true ->
  let w' := fst (setPersistentState options newValue w h) in
  let h' := snd (setPersistentState options newValue w h) in
  state h' = apply_update (state h) newValue
  /\ (exists id, timers w'
                 = [{| timer_id := id;
                       due := clock w + Z.max 0 (debounceMs_of options);
                       timer_value := apply_update (state h) newValue |}]
                 /\ debounceRef h' = Some id)
  /\ isInitializedRef h' = true
  /\ clock w' = clock w
  /\ shape w' = shape w
  /\ setItem_calls w' = setItem_calls w.
Proof.
  intros Hco Hinit Hav. cbv zeta.
  unfold setPersistentState, saveToStorage. rewrite Hinit.
  unfold available in Hav.
  destruct (getStorageManager w) as [a|]; [|discriminate].
  pose proof (cancel_pending w h Hco) as Hnone.
  destruct (cancel_frame w h) as (Hc & Hs & Hl).
  unfold setTimeout.
  set (w1 := match debounceRef h with Some id => clearTimeout id w | None => w end) in *.
  cbn. rewrite Hnone, Hc, Hl. unfold shape in *. cbn.
  destruct newValue; cbn; eauto 10.
Qed.

(** Every action keeps the timeouts and the ref in agreement. *)
Lemma step_coherent (a : Action) (w : World) (h : Hook) :
  coherent w h ->
  coherent (fst (step JSON_parse options a (w, h))) (snd (step JSON_parse options a (w, h))).
Proof.
  intros Hco. destruct a as [|newValue| | |e|k v|dt]; cbn [step].
  - exact Hco.
  - destruct (isInitializedRef h) eqn:Hinit.
    + destruct (available w) eqn:Hav.
      * destruct (update_arms newValue w h Hco Hinit Hav)
          as (_ & (id & Ht & Hr) & _ & _ & Hs & _).
        unfold coherent. rewrite Ht, Hr. cbn [timer_id].
        split; [reflexivity|]. rewrite (available_shape _ w Hs). exact Hav.
      * unfold setPersistentState, saveToStorage. rewrite Hinit.
        unfold available in Hav. destruct (getStorageManager w); [discriminate|].
        cbn. exact Hco.
    + unfold setPersistentState. rewrite Hinit. cbn. exact Hco.
  - unfold clearStoredValue. destruct (getStorageManager w); [|exact Hco].
    cbn. unfold coherent.
    destruct (removeItem_frame
                (match debounceRef h with Some id => clearTimeout id w | None => w end)
                (key options)) as (-> & _).
    rewrite (cancel_pending w h Hco). exact I.
  - unfold resetToDefault, clearStoredValue.
    destruct (getStorageManager w); [|exact Hco].
    cbn. unfold coherent.
    destruct (removeItem_frame
                (match debounceRef h with Some id => clearTimeout id w | None => w end)
                (key options)) as (-> & _).
    rewrite (cancel_pending w h Hco). exact I.
  - cbn. unfold coherent in *.
    assert (E : debounceRef (if listens options w then handleStorageChange JSON_parse options e h
                             else h) = debounceRef h).
    { unfold handleStorageChange.
      destruct (listens options w), (event_key e), (newValue e); try reflexivity.
      destruct (String.eqb _ _); [|reflexivity].
      destruct (JSON_parse _); reflexivity. }
    rewrite E. exact Hco.
  - cbn. unfold coherent in *.
    assert (Et : timers (external_write k v w) = timers w)
      by (unfold external_write; destruct (area w); reflexivity).
    assert (Es : shape (external_write k v w) = shape w)
      by (unfold external_write, shape; destruct (area w) eqn:E; cbn; rewrite ?E; reflexivity).
    rewrite Et, (available_shape _ w Es). exact Hco.
  - cbn. unfold coherent in *.
    destruct (advance_frame dt w) as (Ht & _ & Hs & _).
    rewrite Ht, (available_shape _ w Hs).
    destruct (timers w) as [|t [|t' ts]]; [exact I| |contradiction].
    cbn. destruct (negb _); [exact Hco | exact I].
Qed.

Lemma run_coherent (actions : list Action) (w : World) (h : Hook) :
  coherent w h ->
  coherent (fst (run JSON_parse options actions (w, h)))
           (snd (run JSON_parse options actions (w, h))).
Proof.
  revert w h. induction actions as [|a l IH]; intros w h Hco; [exact Hco|].
  unfold run in *. cbn [fold_left].
  pose proof (step_coherent a w h Hco) as Hstep.
  destruct (step JSON_parse options a (w, h)) as [w1 h1].
  apply IH. exact Hstep.
Qed.

(** At most one write is pending in every state the container can reach,
    and [debounceRef] holds its handle. *)
Lemma reachable_coherent (w : World) (h : Hook) :
  reachable JSON_parse options w h -> coherent w h.
Proof.
  intros (w0 & actions & Hw0 & Hrun).
  assert (H0 : coherent w0 (render JSON_parse options w0))
    by (unfold coherent; rewrite Hw0; exact I).
  pose proof (run_coherent actions _ _ H0) as H. rewrite Hrun in H. exact H.
Qed.







Lemma advance_no_timers (dt : Z) (w : World) :
  timers w = [] ->
  timers (advance options dt w) = []
  /\ shape (advance options dt w) = shape w
  /\ setItem_calls (advance options dt w) = setItem_calls w.
Proof.
  intros Hw. destruct (advance_frame dt w) as (Ht & _ & Hs & Hl).
  rewrite Ht, Hs, Hl, Hw. cbn. rewrite app_nil_r. auto.
Qed.



End Container.

(** ** The container in the render cycle *)

Section Rendering.

Variable JSON_parse : string -> option PersistentState.json.
Variable options : PersistentState.StorageOptions.

Import PersistentState.
Import RenderCycle.

Lemma probe_frame (w : World) :
  timers (fst (RenderCycle.getStorageManager w)) = timers w
  /\ clock (fst (RenderCycle.getStorageManager w)) = clock w
  /\ next_timer (fst (RenderCycle.getStorageManager w)) = next_timer w.
Proof.
  unfold RenderCycle.getStorageManager, setItem, removeItem.
  destruct (area w) as [a|]; [|auto].
  destruct (rejects a testKey "test"); cbn; auto.
Qed.

(** A probe calls [setItem] once, for the trial entry, when the area can
    be reached. *)
Lemma probe_calls (w : World) :
  exists probes : list (string * string),
    setItem_calls (fst (RenderCycle.getStorageManager w)) = setItem_calls w ++ probes
    /\ trial_writes probes.
Proof.
  unfold RenderCycle.getStorageManager, setItem, removeItem.
  destruct (area w) as [a|].
  - exists [(testKey, "test")].
    split; [destruct (rejects a testKey "test"); reflexivity|].
    repeat constructor.
  - exists []. rewrite app_nil_r. split; [reflexivity | constructor].
Qed.

(** A probe changes the entry of the trial key only. *)
Lemma probe_other (w : World) (k : string) :
  k <> testKey -> getItem (fst (RenderCycle.getStorageManager w)) k = getItem w k.
Proof.
  intros Hk. unfold RenderCycle.getStorageManager, setItem, removeItem, getItem.
  destruct (area w) as [a|] eqn:E; [|cbn; rewrite E; reflexivity].
  destruct (rejects a testKey "test"); cbn; [reflexivity|].
  rewrite lookup_delete_ne, lookup_insert_ne by congruence. reflexivity.
Qed.

Lemma probe_absent (w : World) (k : string) :
  getItem w k = None -> getItem (fst (RenderCycle.getStorageManager w)) k = None.
Proof.
  intros Hnone. destruct (String.eqb_spec k testKey) as [->|Hk].
  - unfold RenderCycle.getStorageManager, setItem, removeItem, getItem in *.
    destruct (area w) as [a|] eqn:E; [|cbn; rewrite E; reflexivity].
    destruct (rejects a testKey "test"); cbn; [exact Hnone|].
    apply lookup_delete_eq.
  - rewrite probe_other by exact Hk. exact Hnone.
Qed.

(** Cancelling through the ref leaves no timeout armed. *)
Lemma cancel_ref (w : World) (h : Hook) :
  coherent w h ->
  timers (match debounceRef h with
          | Some id => clearTimeout id w
          | None => w
          end) = [].
Proof.
  unfold coherent.
  destruct (timers w) as [|t [|t' ts]] eqn:Hw; [| |contradiction].
  - intros _. destruct (debounceRef h); cbn; [rewrite Hw|]; auto.
  - intros ->. cbn. rewrite Hw. cbn. rewrite Pos.eqb_refl. reflexivity.
Qed.

Lemma cancel_ref_frame (w : World) (h : Hook) (k : string) :
  setItem_calls (match debounceRef h with Some id => clearTimeout id w | None => w end)
  = setItem_calls w
  /\ getItem (match debounceRef h with Some id => clearTimeout id w | None => w end) k
     = getItem w k.
Proof. destruct (debounceRef h); auto. Qed.

Lemma saveToStorage_coherent (manager : bool) (value : json) (w : World) (h : Hook) :
  coherent w h ->
  coherent (fst (RenderCycle.saveToStorage options manager value w h))
           (snd (RenderCycle.saveToStorage options manager value w h)).
Proof.
  intros Hco. unfold RenderCycle.saveToStorage. destruct manager; [|exact Hco].
  unfold setTimeout, coherent. cbn. rewrite (cancel_ref w h Hco). reflexivity.
Qed.

Lemma run_queued_coherent (q : Queued) (w : World) (h : Hook) :
  coherent w h ->
  coherent (fst (run_queued options q (w, h))) (snd (run_queued options q (w, h))).
Proof.
  intros Hco. destruct q as [newValue manager|value]; cbn [run_queued].
  - destruct (isInitializedRef h).
    + pose proof (saveToStorage_coherent manager (apply_update (state h) newValue) w h Hco)
        as Hsave.
      destruct (RenderCycle.saveToStorage options manager _ w h) as [w1 h1].
      exact Hsave.
    + exact Hco.
  - exact Hco.
Qed.

Lemma queue_coherent (waiting : list Queued) :
  forall (w : World) (h : Hook),
    coherent w h ->
    coherent (fst (fold_left (fun wh q => run_queued options q wh) waiting (w, h)))
             (snd (fold_left (fun wh q => run_queued options q wh) waiting (w, h))).
Proof.
  induction waiting as [|q l IH]; intros w h Hco; [exact Hco|].
  cbn [fold_left].
  pose proof (run_queued_coherent q w h Hco) as Hq.
  destruct (run_queued options q (w, h)) as [w1 h1]. apply IH. exact Hq.
Qed.

Lemma clear_coherent (w : World) (h h' : Hook) :
  coherent w h -> debounceRef h' = debounceRef h ->
  coherent (RenderCycle.clearStoredValue options w h) h'.
Proof.
  intros Hco Href. unfold RenderCycle.clearStoredValue.
  destruct (storage h).
  - unfold coherent.
    match goal with
    | |- context [removeItem ?w1 ?k] => destruct (removeItem_frame w1 k) as (-> & _)
    end.
    rewrite (cancel_ref w h Hco). exact I.
  - unfold coherent in *. rewrite Href. exact Hco.
Qed.

(** Every action keeps the timeouts and the ref in agreement. *)
Lemma cycle_step_coherent (a : Action) (w : World) (h : Hook) :
  coherent w h ->
  coherent (fst (RenderCycle.step JSON_parse options a (w, h)))
           (snd (RenderCycle.step JSON_parse options a (w, h))).
Proof.
  intros Hco. destruct a as [|eager newValue| | |e| |dt|a]; cbn [RenderCycle.step].
  - exact Hco.
  - unfold RenderCycle.setPersistentState.
    destruct eager; [destruct (queue h)|]; try exact Hco.
    pose proof (run_queued_coherent (QUpdater newValue (storage h)) w h Hco) as Hq.
    destruct (run_queued options _ (w, h)) as [w1 h1]. exact Hq.
  - apply clear_coherent; [exact Hco | reflexivity].
  - unfold RenderCycle.resetToDefault. apply clear_coherent; [exact Hco | reflexivity].
  - cbn. unfold coherent in *.
    assert (E : debounceRef (if listens options h
                             then RenderCycle.handleStorageChange JSON_parse options e h
                             else h) = debounceRef h).
    { unfold RenderCycle.handleStorageChange.
      destruct (listens options h), (event_key e), (newValue e); try reflexivity.
      destruct (String.eqb _ _); [|reflexivity].
      destruct (JSON_parse _); reflexivity. }
    rewrite E. exact Hco.
  - unfold RenderCycle.render.
    destruct (probe_frame w) as (Ht & _).
    destruct (RenderCycle.getStorageManager w) as [w1 manager]. cbn [fst] in Ht.
    match goal with
    | |- context [fold_left ?f ?l (w1, ?h0)] =>
        assert (H0 : coherent w1 h0) by (unfold coherent in *; rewrite Ht; exact Hco);
        pose proof (queue_coherent l w1 h0 H0) as Hq;
        destruct (fold_left f l (w1, h0)) as [w2 h2]
    end.
    exact Hq.
  - cbn. unfold coherent in *.
    destruct (advance_frame options dt w) as (Ht & _).
    rewrite Ht.
    destruct (timers w) as [|t [|t' ts]]; [exact I| |contradiction].
    cbn. destruct (negb _); [exact Hco | exact I].
  - exact Hco.
Qed.

Lemma cycle_run_coherent (actions : list Action) (w : World) (h : Hook) :
  coherent w h ->
  coherent (fst (RenderCycle.run JSON_parse options actions (w, h)))
           (snd (RenderCycle.run JSON_parse options actions (w, h))).
Proof.
  revert w h. induction actions as [|a l IH]; intros w h Hco; [exact Hco|].
  unfold RenderCycle.run in *. cbn [fold_left].
  pose proof (cycle_step_coherent a w h Hco) as Hstep.
  destruct (RenderCycle.step JSON_parse options a (w, h)) as [w1 h1].
  apply IH. exact Hstep.
Qed.

(** At most one write is pending in every state the container can reach,
    and [debounceRef] holds its handle. *)
Lemma cycle_reachable_coherent (w : World) (h : Hook) :
  RenderCycle.reachable JSON_parse options w h -> coherent w h.
Proof.
  intros (w0 & actions & Hw0 & Hrun).
  assert (H0 : coherent (fst (mount JSON_parse options w0)) (snd (mount JSON_parse options w0))).
  { unfold mount. destruct (probe_frame w0) as (Ht & _).
    destruct (RenderCycle.getStorageManager w0) as [w1 manager]. cbn [fst snd] in *.
    unfold coherent. rewrite Ht, Hw0. exact I. }
  pose proof (cycle_run_coherent actions _ _ H0) as H.
  rewrite <- surjective_pairing, Hrun in H. exact H.
Qed.

(** Values in the queue: the render that takes them leaves the world as
    it is. *)
Lemma queue_of_values (waiting : list Queued) :
  forall (w : World) (h : Hook),
    forallb is_value waiting = true ->
    fst (fold_left (fun wh q => run_queued options q wh) waiting (w, h)) = w
    /\ queue (snd (fold_left (fun wh q => run_queued options q wh) waiting (w, h))) = queue h.
Proof.
  induction waiting as [|q l IH]; intros w h Hq; [auto|].
  cbn [forallb] in Hq. apply andb_prop in Hq as [Hv Hl].
  destruct q as [|value]; [discriminate|].
  cbn [fold_left run_queued].
  destruct (IH w {| state := value; debounceRef := debounceRef h;
                    isInitializedRef := isInitializedRef h; storage := storage h;
                    queue := queue h |} Hl) as (Hw & Hqueue).
  split; [exact Hw | exact Hqueue].
Qed.

(** What a render does when only values wait: the probe, and the state. *)
Lemma render_of_values (w : World) (h : Hook) :
  values_only h ->
  fst (RenderCycle.render options w h) = fst (RenderCycle.getStorageManager w)
  /\ queue (snd (RenderCycle.render options w h)) = [].
Proof.
  intros Hq. unfold RenderCycle.render.
  destruct (RenderCycle.getStorageManager w) as [w1 manager]. cbn [fst].
  match goal with
  | |- context [fold_left ?f ?l (w1, ?h0)] =>
      destruct (queue_of_values l w1 h0 Hq) as (Hw & Hqueue);
      destruct (fold_left f l (w1, h0)) as [w2 h2]
  end.
  cbn [fst snd queue] in *. auto.
Qed.

Lemma clear_without_timers (w : World) (h : Hook) :
  timers w = [] ->
  timers (RenderCycle.clearStoredValue options w h) = []
  /\ setItem_calls (RenderCycle.clearStoredValue options w h) = setItem_calls w
  /\ (getItem w (key options) = None ->
      getItem (RenderCycle.clearStoredValue options w h) (key options) = None).
Proof.
  intros Hw. unfold RenderCycle.clearStoredValue. destruct (storage h); [|auto].
  match goal with
  | |- context [removeItem ?w1 ?k] => destruct (removeItem_frame w1 k) as (-> & _ & _ & ->)
  end.
  rewrite getItem_removeItem.
  destruct (cancel_ref_frame w h (key options)) as (-> & _).
  split; [|auto].
  destruct (debounceRef h); cbn; [rewrite Hw|]; auto.
Qed.

Lemma values_only_snoc (h : Hook) (value : json) :
  values_only h -> forallb is_value (queue h ++ [QValue value]) = true.
Proof.
  unfold values_only. intros Hq. rewrite forallb_app, Hq. reflexivity.
Qed.

(** With no timeout armed and no updater waiting, an action other than an
    update arms no timeout and leaves no updater waiting, and the only
    calls of [setItem] it makes are trial writes; if the area is not
    changed from outside either, an absent entry stays absent. *)
Lemma cycle_step_without_update (a : Action) (w : World) (h : Hook) :
  RenderCycle.is_update a = false -> timers w = [] -> values_only h ->
  timers (fst (RenderCycle.step JSON_parse options a (w, h))) = []
  /\ values_only (snd (RenderCycle.step JSON_parse options a (w, h)))
  /\ (exists probes : list (string * string),
        setItem_calls (fst (RenderCycle.step JSON_parse options a (w, h)))
        = setItem_calls w ++ probes
        /\ trial_writes probes)
  /\ (RenderCycle.quiet a = true -> getItem w (key options) = None ->
      getItem (fst (RenderCycle.step JSON_parse options a (w, h))) (key options) = None).
Proof.
  intros Hu Hw Hq.
  assert (Hnone : exists probes : list (string * string),
             setItem_calls w = setItem_calls w ++ probes /\ trial_writes probes)
    by (exists []; rewrite app_nil_r; split; [reflexivity | constructor]).
  destruct a as [|eager newValue| | |e| |dt|a];
    cbn [RenderCycle.step RenderCycle.is_update RenderCycle.quiet fst snd] in *;
    try discriminate.
  - auto.
  - destruct (clear_without_timers w h Hw) as (Ht & Hc & Hk).
    rewrite Ht, Hc. auto.
  - unfold RenderCycle.resetToDefault. cbn [fst snd].
    destruct (clear_without_timers w h Hw) as (Ht & Hc & Hk).
    rewrite Ht, Hc. split; [reflexivity|]. split; [|auto].
    apply values_only_snoc, Hq.
  - split; [exact Hw|]. split; [|auto].
    unfold RenderCycle.handleStorageChange.
    destruct (listens options h), (event_key e), (newValue e); try exact Hq.
    destruct (String.eqb _ _); [|exact Hq].
    destruct (JSON_parse _); [|exact Hq].
    apply values_only_snoc, Hq.
  - destruct (render_of_values w h Hq) as (Hfst & Hqueue).
    rewrite Hfst. destruct (probe_frame w) as (-> & _).
    split; [exact Hw|]. split; [unfold values_only; rewrite Hqueue; reflexivity|].
    split; [apply probe_calls|].
    intros _. apply probe_absent.
  - destruct (advance_no_timers options dt w Hw) as (Ht & _ & Hc).
    rewrite Ht, Hc, (advance_items_no_timers options dt w _ Hw). auto.
  - split; [exact Hw|]. split; [exact Hq|]. split; [exact Hnone | discriminate].
Qed.

Lemma cycle_run_without_update (actions : list Action) :
  forall (w : World) (h : Hook),
    forallb (fun a => negb (RenderCycle.is_update a)) actions = true ->
    timers w = [] -> values_only h ->
    timers (fst (RenderCycle.run JSON_parse options actions (w, h))) = []
    /\ (exists probes : list (string * string),
          setItem_calls (fst (RenderCycle.run JSON_parse options actions (w, h)))
          = setItem_calls w ++ probes
          /\ trial_writes probes)
    /\ (forallb RenderCycle.quiet actions = true -> getItem w (key options) = None ->
        getItem (fst (RenderCycle.run JSON_parse options actions (w, h))) (key options) = None).
Proof.
  induction actions as [|a l IH]; intros w h Hu Hw Hq.
  - split; [exact Hw|]. split; [|auto].
    exists []. rewrite app_nil_r. split; [reflexivity | constructor].
  - cbn [forallb] in Hu. apply andb_prop in Hu as [Ha Hl].
    apply negb_true_iff in Ha.
    destruct (cycle_step_without_update a w h Ha Hw Hq) as (Ht1 & Hq1 & (p1 & Hc1 & Hp1) & Hk1).
    unfold RenderCycle.run in *. cbn [fold_left].
    destruct (RenderCycle.step JSON_parse options a (w, h)) as [w1 h1]. cbn [fst snd] in *.
    destruct (IH w1 h1 Hl Ht1 Hq1) as (Ht2 & (p2 & Hc2 & Hp2) & Hk2).
    split; [exact Ht2|]. split.
    + exists (p1 ++ p2). rewrite Hc2, Hc1, app_assoc. split; [reflexivity|].
      apply Forall_app. split; assumption.
    + intros Hquiet Hk. cbn [forallb] in Hquiet. apply andb_prop in Hquiet as [Hqa Hql].
      apply Hk2; [exact Hql|]. apply Hk1; assumption.
Qed.

(** C10, as the code has it.  In any state the container can reach in
    which a timeout armed by an update has not yet run and no updater
    waits for the next render: when the last render found storage
    available, [clearStoredValue] cancels the timeout and removes the
    entry, and afterwards, whatever time passes and whatever else happens
    short of a new update, no timeout is armed and the only calls of
    [setItem] are the trial writes of renders, so that the write that was
    scheduled never happens; and the entry stays absent unless the area is
    changed from outside.  When the last render found no storage,
    [clearStoredValue] does nothing. *)
Theorem clearStoredValue_cancels_pending_write
    (w : World) (h : Hook) (t : Timer) (later : list Action) :
  RenderCycle.reachable JSON_parse options w h ->
  In t (timers w) ->
  values_only h ->
  forallb (fun a => negb (RenderCycle.is_update a)) later = true ->
  let w' := RenderCycle.clearStoredValue options w h in
  let w'' := fst (RenderCycle.run JSON_parse options later (w', h)) in
  (storage h = true ->
   timers w' = []
   /\ getItem w' (key options) = None
   /\ setItem_calls w' = setItem_calls w
   /\ timers w'' = []
   /\ (exists probes : list (string * string),
         setItem_calls w'' = setItem_calls w ++ probes /\ trial_writes probes)
   /\ (forallb RenderCycle.quiet later = true -> getItem w'' (key options) = None))
  /\ (storage h = false -> w' = w).
Proof.
  intros Hreach Ht Hq Hlater. cbv zeta.
  pose proof (cycle_reachable_coherent w h Hreach) as Hco.
  split.
  - intros Hstorage.
    assert (Hclear : timers (RenderCycle.clearStoredValue options w h) = []
                     /\ getItem (RenderCycle.clearStoredValue options w h) (key options) = None
                     /\ setItem_calls (RenderCycle.clearStoredValue options w h)
                        = setItem_calls w).
    { unfold RenderCycle.clearStoredValue. rewrite Hstorage.
      match goal with
      | |- context [removeItem ?w1 ?k] => destruct (removeItem_frame w1 k) as (-> & _ & _ & ->)
      end.
      rewrite getItem_removeItem, (cancel_ref w h Hco).
      destruct (cancel_ref_frame w h (key options)) as (-> & _). auto. }
    destruct Hclear as (Ht1 & Hk1 & Hc1).
    destruct (cycle_run_without_update later _ h Hlater Ht1 Hq) as (Ht2 & Hc2 & Hk2).
    rewrite Hc1 in Hc2.
    split; [exact Ht1|]. split; [exact Hk1|]. split; [exact Hc1|].
    split; [exact Ht2|]. split; [exact Hc2|].
    intros Hquiet. apply Hk2; assumption.
  - intros Hstorage. unfold RenderCycle.clearStoredValue. rewrite Hstorage. reflexivity.
Qed.

Lemma cycle_quiet_no_update (actions : list Action) :
  forallb RenderCycle.quiet actions = true ->
  forallb (fun a => negb (RenderCycle.is_update a)) actions = true.
Proof.
  induction actions as [|a l IH]; cbn [forallb]; [reflexivity|].
  intros H. apply andb_prop in H as [Ha Hl]. rewrite IH by exact Hl.
  destruct a; cbn in *; congruence.
Qed.

(** A container mounted in a world that does not hold the entry starts
    from the default. *)
Lemma mount_absent (w : World) :
  getItem w (key options) = None ->
  state (snd (mount JSON_parse options w)) = defaultValue options.
Proof.
  intros Hk. unfold mount.
  pose proof (probe_absent w (key options) Hk) as Hprobe.
  destruct (RenderCycle.getStorageManager w) as [w1 manager]. cbn [fst] in Hprobe.
  cbn [snd state]. rewrite Hprobe. destruct manager; reflexivity.
Qed.

(** A render whose queue ends with a value sets the state to it, when
    only values wait. *)
Lemma render_last_value (w : World) (h : Hook) (waiting : list Queued) (value : json) :
  queue h = waiting ++ [QValue value] ->
  state (snd (RenderCycle.render options w h)) = value.
Proof.
  intros Hqueue. unfold RenderCycle.render.
  destruct (RenderCycle.getStorageManager w) as [w1 manager].
  rewrite Hqueue, fold_left_app. cbn [fold_left].
  match goal with
  | |- context [fold_left ?f waiting ?s] => destruct (fold_left f waiting s) as [w2 h2]
  end.
  reflexivity.
Qed.

(** X16.  [resetToDefault] in any state the container can reach in which
    the last render found storage available and no updater waits: no
    timeout stays armed and the entry is gone; the next render sets the
    state to the default; and a container mounted anew right away, or
    after any further actions that are neither updates nor changes of the
    area from outside, starts from the default, the only calls of
    [setItem] meanwhile being trial writes. *)
Theorem resetToDefault_then_reload (w : World) (h : Hook) (later : list Action) :
  RenderCycle.reachable JSON_parse options w h ->
  storage h = true ->
  values_only h ->
  forallb RenderCycle.quiet later = true ->
  let after := RenderCycle.resetToDefault options w h in
  let w'' := fst (RenderCycle.run JSON_parse options later after) in
  timers (fst after) = []
  /\ getItem (fst after) (key options) = None
  /\ state (snd (RenderCycle.render options (fst after) (snd after))) = defaultValue options
  /\ state (snd (mount JSON_parse options (fst after))) = defaultValue options
  /\ (exists probes : list (string * string),
        setItem_calls w'' = setItem_calls w ++ probes /\ trial_writes probes)
  /\ state (snd (mount JSON_parse options w'')) = defaultValue options.
Proof.
  intros Hreach Hstorage Hq Hquiet. cbv zeta.
  pose proof (cycle_reachable_coherent w h Hreach) as Hco.
  pose proof (cycle_quiet_no_update later Hquiet) as Hnoup.
  unfold RenderCycle.resetToDefault. cbn [fst snd].
  assert (Hclear : timers (RenderCycle.clearStoredValue options w h) = []
                   /\ getItem (RenderCycle.clearStoredValue options w h) (key options) = None
                   /\ setItem_calls (RenderCycle.clearStoredValue options w h)
                      = setItem_calls w).
  { unfold RenderCycle.clearStoredValue. rewrite Hstorage.
    match goal with
    | |- context [removeItem ?w1 ?k] => destruct (removeItem_frame w1 k) as (-> & _ & _ & ->)
    end.
    rewrite getItem_removeItem, (cancel_ref w h Hco).
    destruct (cancel_ref_frame w h (key options)) as (-> & _). auto. }
  destruct Hclear as (Ht1 & Hk1 & Hc1).
  split; [exact Ht1|]. split; [exact Hk1|].
  split; [apply (render_last_value _ _ (queue h)); reflexivity|].
  split; [apply mount_absent, Hk1|].
  match goal with
  | |- context [RenderCycle.run _ _ later (?w1, ?h1)] =>
      destruct (cycle_run_without_update later w1 h1 Hnoup Ht1) as (_ & Hc2 & Hk2);
      [apply values_only_snoc, Hq|]
  end.
  rewrite Hc1 in Hc2. split; [exact Hc2|].
  apply mount_absent, Hk2; assumption.
Qed.

End Rendering.

(** ** Objects *)

Section Objects.

Context {V : Type}.

Lemma get_set_eq (obj : JS.object V) (k : string) (v : V) :
  JS.get (JS.set obj k v) k = Some v.
Proof.
  induction obj as [|[k' v'] obj IH]; cbn [JS.set JS.get].
  - rewrite String.eqb_refl. reflexivity.
  - destruct (String.eqb k' k) eqn:E; cbn [JS.get]; rewrite E; [reflexivity | exact IH].
Qed.

Lemma get_set_ne (obj : JS.object V) (k k' : string) (v : V) :
  k <> k' -> JS.get (JS.set obj k v) k' = JS.get obj k'.
Proof.
  intros Hne. induction obj as [|[k1 v1] obj IH]; cbn [JS.set JS.get].
  - apply String.eqb_neq in Hne. rewrite Hne. reflexivity.
  - destruct (String.eqb k1 k) eqn:E; cbn [JS.get].
    + apply String.eqb_eq in E. subst k1.
      apply String.eqb_neq in Hne. rewrite Hne. reflexivity.
    + rewrite IH. reflexivity.
Qed.

Lemma get_None (obj : JS.object V) (k : string) :
  JS.get obj k = None <-> ~ In k (JS.Object_keys obj).
Proof.
  induction obj as [|[k' v'] obj IH]; cbn [JS.get JS.Object_keys map fst In].
  - tauto.
  - destruct (String.eqb k' k) eqn:E.
    + apply String.eqb_eq in E. split; [discriminate | tauto].
    + apply String.eqb_neq in E. unfold JS.Object_keys in IH. tauto.
Qed.

Lemma get_Some_In (obj : JS.object V) (k : string) :
  In k (JS.Object_keys obj) <-> exists v, JS.get obj k = Some v.
Proof.
  destruct (JS.get obj k) as [v|] eqn:E.
  - split; [eauto|]. intros _.
    destruct (in_dec string_dec k (JS.Object_keys obj)) as [Hin|Hout]; [exact Hin|].
    apply get_None in Hout. congruence.
  - split.
    + intros Hin. apply get_None in E. contradiction.
    + intros [v Hv]. discriminate.
Qed.

Lemma keys_set_present (obj : JS.object V) (k : string) (v : V) :
  In k (JS.Object_keys obj) -> JS.Object_keys (JS.set obj k v) = JS.Object_keys obj.
Proof.
  induction obj as [|[k' v'] obj IH]; cbn [JS.set JS.Object_keys map fst In]; [tauto|].
  intros Hin. destruct (String.eqb k' k) eqn:E; [reflexivity|].
  cbn [map fst]. f_equal. apply IH.
  apply String.eqb_neq in E. tauto.
Qed.

(** What a copy of properties holds: the source wins, the target keeps
    the rest. *)
Lemma get_copy_props (source : JS.object V) :
  forall (target : JS.object V) (k : string),
    List.NoDup (JS.Object_keys source) ->
    JS.get (JS.copy_props target source) k
    = match JS.get source k with
      | Some v => Some v
      | None => JS.get target k
      end.
Proof.
  induction source as [|[k1 v1] source IH]; intros target k Hnd; [reflexivity|].
  unfold JS.copy_props in *. cbn [fold_left fst snd JS.get].
  cbn [JS.Object_keys map fst] in Hnd. apply NoDup_cons_iff in Hnd as [Hout Hnd].
  rewrite IH by exact Hnd.
  destruct (String.eqb k1 k) eqn:E.
  - apply String.eqb_eq in E. subst k1.
    apply get_None in Hout. rewrite Hout. apply get_set_eq.
  - apply String.eqb_neq in E. rewrite (get_set_ne _ _ _ _ E). reflexivity.
Qed.

Lemma keys_copy_props_subset (source : JS.object V) :
  forall target : JS.object V,
    (forall k, In k (JS.Object_keys source) -> In k (JS.Object_keys target)) ->
    JS.Object_keys (JS.copy_props target source) = JS.Object_keys target.
Proof.
  induction source as [|[k1 v1] source IH]; intros target Hsub; [reflexivity|].
  unfold JS.copy_props in *. cbn [fold_left fst snd].
  assert (H1 : JS.Object_keys (JS.set target k1 v1) = JS.Object_keys target)
    by (apply keys_set_present, Hsub; left; reflexivity).
  rewrite IH; [exact H1|].
  intros k Hk. rewrite H1. apply Hsub. right. exact Hk.
Qed.

(** Copying an object into an empty one gives the object. *)
Lemma copy_props_fresh (source : JS.object V) :
  forall target : JS.object V,
    List.NoDup (JS.Object_keys source) ->
    (forall k, In k (JS.Object_keys source) -> ~ In k (JS.Object_keys target)) ->
    JS.copy_props target source = target ++ source.
Proof.
  induction source as [|[k1 v1] source IH]; intros target Hnd Hfresh.
  - rewrite app_nil_r. reflexivity.
  - unfold JS.copy_props in *. cbn [fold_left fst snd].
    cbn [JS.Object_keys map fst] in Hnd. apply NoDup_cons_iff in Hnd as [Hout Hnd].
    assert (Hset : JS.set target k1 v1 = target ++ [(k1, v1)]).
    { assert (Hk1 : ~ In k1 (JS.Object_keys target)) by (apply Hfresh; left; reflexivity).
      clear -Hk1. induction target as [|[k' v'] target IHt]; [reflexivity|].
      cbn [JS.set JS.Object_keys map fst In] in *.
      destruct (String.eqb k' k1) eqn:E.
      - apply String.eqb_eq in E. tauto.
      - cbn [app]. f_equal. apply IHt. tauto. }
    rewrite Hset, IH, <- app_assoc; [reflexivity | exact Hnd |].
    intros k Hk. unfold JS.Object_keys. rewrite map_app, in_app_iff.
    cbn [map fst In]. intros [Hin|[<-|[]]].
    + apply (Hfresh k); [right; exact Hk | exact Hin].
    + contradiction.
Qed.

Lemma insert_index_Permutation (n : Z) (kv : string * V) (entries : list (string * V)) :
  Permutation (JS.insert_index n kv entries) (kv :: entries).
Proof.
  induction entries as [|kv' rest IH]; cbn [JS.insert_index]; [reflexivity|].
  destruct (JS.array_index (fst kv')) as [m|]; [|reflexivity].
  destruct (m <=? n)%Z; [|reflexivity].
  rewrite IH. apply perm_swap.
Qed.

(** The enumeration lists every own property, each once. *)
Lemma Object_entries_Permutation (obj : JS.object V) :
  Permutation (JS.Object_entries obj) obj.
Proof.
  unfold JS.Object_entries.
  enough (H : forall entries : list (string * V),
             Permutation
               (fold_left
                  (fun entries kv =>
                     match JS.array_index (fst kv) with
                     | Some n => JS.insert_index n kv entries
                     | None => entries ++ [kv]
                     end) obj entries)
               (entries ++ obj)) by exact (H []).
  induction obj as [|kv obj IH]; intros entries; cbn [fold_left].
  - rewrite app_nil_r. reflexivity.
  - rewrite IH. destruct (JS.array_index (fst kv)) as [n|].
    + rewrite insert_index_Permutation. cbn [app]. apply Permutation_middle.
    + rewrite <- app_assoc. reflexivity.
Qed.

(** Without a name that is an array index the enumeration follows the
    order of creation. *)
Lemma Object_entries_unindexed (obj : JS.object V) :
  Forall (fun kv => JS.array_index (fst kv) = None) obj -> JS.Object_entries obj = obj.
Proof.
  unfold JS.Object_entries.
  enough (H : forall entries : list (string * V),
             Forall (fun kv => JS.array_index (fst kv) = None) obj ->
             fold_left
               (fun entries kv =>
                  match JS.array_index (fst kv) with
                  | Some n => JS.insert_index n kv entries
                  | None => entries ++ [kv]
                  end) obj entries
             = entries ++ obj) by exact (H []).
  intros entries H. revert entries.
  induction H as [|kv obj Hkv Hobj IH]; intros entries; cbn [fold_left].
  - rewrite app_nil_r. reflexivity.
  - rewrite Hkv, IH, <- app_assoc. reflexivity.
Qed.

(** With each name once, a name has the value of the field that bears it. *)
Lemma get_In (obj : JS.object V) (k : string) (v : V) :
  List.NoDup (JS.Object_keys obj) -> (JS.get obj k = Some v <-> In (k, v) obj).
Proof.
  induction obj as [|[k' v'] obj IH]; cbn [JS.get JS.Object_keys map fst In]; intros Hnd.
  - split; [discriminate | tauto].
  - apply NoDup_cons_iff in Hnd as [Hk' Hnd].
    destruct (String.eqb k' k) eqn:E.
    + apply String.eqb_eq in E. subst k'. split.
      * intros [= ->]. left. reflexivity.
      * intros [[= ->]|Hin]; [reflexivity|].
        exfalso. apply Hk'. apply (in_map fst) in Hin. exact Hin.
    + apply String.eqb_neq in E. rewrite (IH Hnd). split; [tauto|].
      intros [[= -> _]|Hin]; [contradiction | exact Hin].
Qed.

Lemma get_Permutation (obj obj' : JS.object V) (k : string) :
  List.NoDup (JS.Object_keys obj) -> Permutation obj obj' -> JS.get obj k = JS.get obj' k.
Proof.
  intros Hnd Hperm.
  assert (Hnd' : List.NoDup (JS.Object_keys obj'))
    by (eapply Permutation_NoDup; [apply Permutation_map, Hperm | exact Hnd]).
  destruct (JS.get obj k) as [v|] eqn:E, (JS.get obj' k) as [v'|] eqn:E'; try reflexivity.
  - apply (get_In obj k v Hnd) in E. apply (Permutation_in _ Hperm) in E.
    apply (get_In obj' k v Hnd') in E. congruence.
  - apply (get_In obj k v Hnd) in E. apply (Permutation_in _ Hperm) in E.
    apply (get_In obj' k v Hnd') in E. congruence.
  - apply (get_In obj' k v' Hnd') in E'. apply (Permutation_in _ (Permutation_sym Hperm)) in E'.
    apply (get_In obj k v' Hnd) in E'. congruence.
Qed.

(** Reading a property from the enumeration is reading it from the
    object. *)
Lemma get_Object_entries (obj : JS.object V) (k : string) :
  List.NoDup (JS.Object_keys obj) -> JS.get (JS.Object_entries obj) k = JS.get obj k.
Proof.
  intros Hnd. symmetry. apply get_Permutation; [exact Hnd|].
  symmetry. apply Object_entries_Permutation.
Qed.

End Objects.

Section MappedObjects.

Context {V W : Type}.

Variable g : V -> W.

Let on_value (kv : string * V) : string * W := (fst kv, g (snd kv)).

Lemma insert_index_map (n : Z) (kv : string * V) (entries : list (string * V)) :
  JS.insert_index n (on_value kv) (map on_value entries)
  = map on_value (JS.insert_index n kv entries).
Proof.
  induction entries as [|kv' rest IH]; cbn [JS.insert_index map]; [reflexivity|].
  change (fst (on_value kv')) with (fst kv').
  destruct (JS.array_index (fst kv')) as [m|]; [|reflexivity].
  destruct (m <=? n)%Z; [|reflexivity].
  cbn [map]. rewrite IH. reflexivity.
Qed.

(** The order of the enumeration depends on the names only. *)
Lemma Object_entries_map (obj : JS.object V) :
  JS.Object_entries (map on_value obj) = map on_value (JS.Object_entries obj).
Proof.
  unfold JS.Object_entries.
  enough (H : forall entries : list (string * V),
             fold_left
               (fun entries kv =>
                  match JS.array_index (fst kv) with
                  | Some n => JS.insert_index n kv entries
                  | None => entries ++ [kv]
                  end) (map on_value obj) (map on_value entries)
             = map on_value
                 (fold_left
                    (fun entries kv =>
                       match JS.array_index (fst kv) with
                       | Some n => JS.insert_index n kv entries
                       | None => entries ++ [kv]
                       end) obj entries)) by exact (H []).
  induction obj as [|kv obj IH]; intros entries; cbn [fold_left map]; [reflexivity|].
  change (fst (on_value kv)) with (fst kv).
  destruct (JS.array_index (fst kv)) as [n|].
  - rewrite insert_index_map. apply IH.
  - change [on_value kv] with (map on_value [kv]). rewrite <- map_app. apply IH.
Qed.

End MappedObjects.


(** ** JSON text determines the value *)

Import PersistentState.

Lemma unescape_escape (c : ascii) (rest : string) :
  JsonText.unescape_char (JSON_escape_char c +:+ rest) = Some (c, rest).
Proof.
  destruct c as [[] [] [] [] [] [] [] []]; reflexivity.
Qed.

(** The inside of a JSON string ends at the first bare quote. *)
Lemma escape_prefix_free (s1 : string) :
  forall s2 r1 r2 : string,
    JSON_escape s1 +:+ String JS.quote r1 = JSON_escape s2 +:+ String JS.quote r2 ->
    s1 = s2 /\ r1 = r2.
Proof.
  induction s1 as [|c1 s1 IH]; intros [|c2 s2] r1 r2 E; cbn [JSON_escape] in E.
  - cbn in E. injection E as ->. auto.
  - rewrite append_assoc in E.
    apply (f_equal JsonText.unescape_char) in E.
    rewrite unescape_escape in E. cbn in E. discriminate.
  - rewrite append_assoc in E.
    apply (f_equal JsonText.unescape_char) in E.
    rewrite unescape_escape in E. cbn in E. discriminate.
  - rewrite !append_assoc in E.
    apply (f_equal JsonText.unescape_char) in E.
    rewrite !unescape_escape in E. injection E as -> E.
    destruct (IH _ _ _ E) as [-> ->]. auto.
Qed.

Lemma quote_prefix_free (s1 s2 r1 r2 : string) :
  JSON_quote s1 +:+ r1 = JSON_quote s2 +:+ r2 -> s1 = s2 /\ r1 = r2.
Proof.
  unfold JSON_quote, JS.str. cbn [String.append].
  rewrite !append_assoc. cbn [String.append].
  intros E. injection E as E. apply escape_prefix_free in E. exact E.
Qed.

(** Decimal digits end where the text stops being digits. *)
Lemma uint_prefix_free (u1 : Decimal.uint) :
  forall (u2 : Decimal.uint) (r1 r2 : string),
    NilEmpty.string_of_uint u1 +:+ r1 = NilEmpty.string_of_uint u2 +:+ r2 ->
    JsonText.no_digit_head r1 -> JsonText.no_digit_head r2 ->
    u1 = u2 /\ r1 = r2.
Proof.
  induction u1 as [|u1 IH|u1 IH|u1 IH|u1 IH|u1 IH|u1 IH|u1 IH|u1 IH|u1 IH|u1 IH];
    intros [|u2|u2|u2|u2|u2|u2|u2|u2|u2|u2] r1 r2 E H1 H2;
    cbn [NilEmpty.string_of_uint String.append] in E;
    try (subst; cbn in H1, H2; discriminate);
    try discriminate;
    try (injection E as E; destruct (IH _ _ _ E H1 H2) as [-> ->]; auto).
  auto.
Qed.

Lemma Z_toString_uint (z : Z) :
  exists (neg : bool) (u : Decimal.uint),
    u <> Decimal.Nil
    /\ Z.to_int z = (if neg then Decimal.Neg u else Decimal.Pos u)
    /\ JS.Z_toString z
       = (if neg then "-" else "") +:+ NilEmpty.string_of_uint u.
Proof.
  unfold JS.Z_toString. destruct z as [|p|p]; cbn [Z.to_int NilZero.string_of_int].
  - exists false, (Decimal.D0 Decimal.Nil). split; [discriminate|]. auto.
  - exists false, (Pos.to_uint p).
    pose proof (Unsigned.to_uint_nonnil p) as Hn.
    split; [exact Hn|]. split; [reflexivity|].
    unfold NilZero.string_of_uint. destruct (Pos.to_uint p); [contradiction|reflexivity..].
  - exists true, (Pos.to_uint p).
    pose proof (Unsigned.to_uint_nonnil p) as Hn.
    split; [exact Hn|]. split; [reflexivity|].
    unfold NilZero.string_of_uint. destruct (Pos.to_uint p); [contradiction|reflexivity..].
Qed.

Lemma uint_head_digit (u : Decimal.uint) (r : string) :
  u <> Decimal.Nil ->
  exists c s, NilEmpty.string_of_uint u +:+ r = String c s /\ JsonText.is_digit c = true.
Proof.
  intros Hu. destruct u; [contradiction|..]; cbn; eauto.
Qed.

(** A sign and decimal digits end where the text stops being digits. *)
Lemma signed_prefix_free (n1 n2 : bool) (u1 u2 : Decimal.uint) (r1 r2 : string) :
  (if n1 then "-" else "") +:+ NilEmpty.string_of_uint u1 +:+ r1
  = (if n2 then "-" else "") +:+ NilEmpty.string_of_uint u2 +:+ r2 ->
  u1 <> Decimal.Nil -> u2 <> Decimal.Nil ->
  JsonText.no_digit_head r1 -> JsonText.no_digit_head r2 ->
  n1 = n2 /\ u1 = u2 /\ r1 = r2.
Proof.
  intros E Hu1 Hu2 H1 H2.
  destruct n1, n2; cbn [String.append] in E.
  - injection E as E. destruct (uint_prefix_free _ _ _ _ E H1 H2) as [-> ->]. auto.
  - destruct (uint_head_digit u2 r2 Hu2) as (c & s & Hc & Hd).
    rewrite Hc in E. injection E as <- _. discriminate.
  - destruct (uint_head_digit u1 r1 Hu1) as (c & s & Hc & Hd).
    rewrite Hc in E. injection E as -> _. discriminate.
  - destruct (uint_prefix_free _ _ _ _ E H1 H2) as [-> ->]. auto.
Qed.

Lemma number_prefix_free (z1 z2 : Z) (r1 r2 : string) :
  JS.Z_toString z1 +:+ r1 = JS.Z_toString z2 +:+ r2 ->
  JsonText.no_digit_head r1 -> JsonText.no_digit_head r2 ->
  z1 = z2 /\ r1 = r2.
Proof.
  intros E H1 H2.
  destruct (Z_toString_uint z1) as (n1 & u1 & Hu1 & Hi1 & Hs1).
  destruct (Z_toString_uint z2) as (n2 & u2 & Hu2 & Hi2 & Hs2).
  rewrite Hs1, Hs2, !append_assoc in E.
  destruct (signed_prefix_free _ _ _ _ _ _ E Hu1 Hu2 H1 H2) as (-> & -> & ->).
  split; [|reflexivity].
  apply to_int_inj. congruence.
Qed.

Lemma no_number_no_digit (r : string) : JsonText.no_number_head r -> JsonText.no_digit_head r.
Proof. destruct r; cbn; tauto. Qed.

(** The text of a number with a fraction: a sign, digits, the point and
    what follows. *)
Lemma fraction_text_uint (negative : bool) (whole : N) (fraction : Decimal.uint) (r : string) :
  exists u : Decimal.uint,
    u <> Decimal.Nil
    /\ Z.to_int (Z.of_N whole) = Decimal.Pos u
    /\ fraction_text negative whole fraction +:+ r
       = (if negative then "-" else "") +:+ NilEmpty.string_of_uint u
         +:+ String "." (NilEmpty.string_of_uint fraction +:+ r).
Proof.
  destruct (Z_toString_uint (Z.of_N whole)) as (neg & u & Hu & Hi & Hs).
  assert (Hneg : neg = false).
  { destruct neg; [|reflexivity]. destruct whole; cbn in Hi; discriminate. }
  subst neg. exists u. split; [exact Hu|]. split; [exact Hi|].
  unfold fraction_text. rewrite Hs, !append_assoc. reflexivity.
Qed.

(** The text of a whole number is not the beginning of the text of a
    number with a fraction, unless the point follows it. *)
Lemma number_not_fraction (z : Z) (negative : bool) (whole : N) (fraction : Decimal.uint)
    (r1 r2 : string) :
  JS.Z_toString z +:+ r1 = fraction_text negative whole fraction +:+ r2 ->
  JsonText.no_number_head r1 -> False.
Proof.
  intros E H1.
  destruct (Z_toString_uint z) as (n1 & u1 & Hu1 & _ & Hs1).
  destruct (fraction_text_uint negative whole fraction r2) as (u2 & Hu2 & _ & Hs2).
  rewrite Hs1, Hs2, !append_assoc in E.
  destruct (signed_prefix_free _ _ _ _ _ _ E Hu1 Hu2 (no_number_no_digit _ H1) eq_refl)
    as (_ & _ & ->).
  destruct H1 as [_ H1]. apply H1. reflexivity.
Qed.

Lemma fraction_prefix_free (n1 n2 : bool) (w1 w2 : N) (f1 f2 : Decimal.uint) (r1 r2 : string) :
  fraction_text n1 w1 f1 +:+ r1 = fraction_text n2 w2 f2 +:+ r2 ->
  JsonText.no_digit_head r1 -> JsonText.no_digit_head r2 ->
  n1 = n2 /\ w1 = w2 /\ f1 = f2 /\ r1 = r2.
Proof.
  intros E H1 H2.
  destruct (fraction_text_uint n1 w1 f1 r1) as (u1 & Hu1 & Hi1 & Hs1).
  destruct (fraction_text_uint n2 w2 f2 r2) as (u2 & Hu2 & Hi2 & Hs2).
  rewrite Hs1, Hs2 in E.
  destruct (signed_prefix_free _ _ _ _ _ _ E Hu1 Hu2 eq_refl eq_refl) as (-> & -> & E').
  injection E' as E'.
  destruct (uint_prefix_free _ _ _ _ E' H1 H2) as [-> ->].
  split; [reflexivity|]. split; [|auto].
  apply N2Z.inj, to_int_inj. congruence.
Qed.

Lemma json_eq_undefined (v : json) : v = JUndefined \/ v <> JUndefined.
Proof. destruct v; (left; reflexivity) || (right; discriminate). Qed.

Lemma print_arr (items : list json) :
  JsonText.print (JArr items) = "[" +:+ JS.join "," (map JsonText.print items) +:+ "]".
Proof. reflexivity. Qed.

Lemma print_obj (props : JS.object json) :
  JsonText.print (JObj props) = "{" +:+ JS.join "," (map JsonText.field_text props) +:+ "}".
Proof.
  cbn [JsonText.print]. do 3 f_equal.
  apply map_ext. intros [k x]. reflexivity.
Qed.

Lemma join_cons (x : string) (l : list string) :
  JS.join "," (x :: l) = x +:+ JsonText.join_tail l.
Proof.
  destruct l as [|y l]; cbn [JS.join String.concat JsonText.join_tail].
  - rewrite append_nil_r. reflexivity.
  - reflexivity.
Qed.

Lemma digit_head_kind (c : ascii) (s : string) :
  JsonText.is_digit c = true -> JsonText.head_kind (String c s) = JsonText.KNum.
Proof.
  destruct c as [[] [] [] [] [] [] [] []]; cbn; intros H; try discriminate H; reflexivity.
Qed.

Lemma head_kind_print (v : json) (r : string) :
  JsonText.textual v -> JsonText.head_kind (JsonText.print v +:+ r) = JsonText.kind_of v.
Proof.
  destruct v as [|[|]|z|s|items|props| | |negative|negative whole fraction];
    try reflexivity; try contradiction.
  - intros _. cbn [JsonText.print JsonText.kind_of].
    destruct (Z_toString_uint z) as (neg & u & Hu & _ & ->).
    destruct neg; [reflexivity|].
    cbn [String.append].
    destruct (uint_head_digit u r Hu) as (c & s & -> & Hd).
    apply digit_head_kind. exact Hd.
  - intros _. cbn [JsonText.print JsonText.kind_of].
    destruct (fraction_text_uint negative whole fraction r) as (u & Hu & _ & ->).
    destruct negative; [reflexivity|].
    cbn [String.append].
    destruct (uint_head_digit u (String "." (NilEmpty.string_of_uint fraction +:+ r)) Hu)
      as (c & s & -> & Hd).
    apply digit_head_kind. exact Hd.
Qed.

Lemma kind_of_not_none (v : json) : JsonText.textual v -> JsonText.kind_of v <> JsonText.KNone.
Proof. destruct v; cbn; intros H; try contradiction; discriminate. Qed.

Lemma no_number_after_element (l : list string) (close : ascii) (r : string) :
  JsonText.is_digit close = false -> close <> "."%char ->
  JsonText.no_number_head (JsonText.join_tail l +:+ String close r).
Proof.
  intros Hc Hp. destruct l; cbn; [auto | split; [reflexivity | discriminate]].
Qed.

Lemma textual_items (items : list json) :
  fold_right (fun x rest => JsonText.textual x /\ rest) True items <-> Forall JsonText.textual items.
Proof.
  induction items as [|x l IH]; cbn [fold_right].
  - split; [constructor | exact (fun _ => I)].
  - rewrite IH. split.
    + intros [Hx Hl]. constructor; assumption.
    + intros H. inversion H; subst. auto.
Qed.

Lemma textual_fields (props : JS.object json) :
  fold_right (fun kv rest => JsonText.textual (snd kv) /\ rest) True props
  <-> Forall (fun kv => JsonText.textual (snd kv)) props.
Proof.
  induction props as [|x l IH]; cbn [fold_right].
  - split; [constructor | exact (fun _ => I)].
  - rewrite IH. split.
    + intros [Hx Hl]. constructor; assumption.
    + intros H. inversion H; subst. auto.
Qed.

Lemma elements_prefix_free (items : list json) :
  Forall JsonText.text_determines items ->
  forall (items' : list json) (r1 r2 : string),
    Forall JsonText.textual items ->
    Forall JsonText.textual items' ->
    JS.join "," (map JsonText.print items) +:+ String "]" r1
    = JS.join "," (map JsonText.print items') +:+ String "]" r2 ->
    items = items' /\ r1 = r2.
Proof.
  induction 1 as [|x l Hx Hl IH]; intros [|x' l'] r1 r2 Ht Ht' E; cbn [map] in E.
  - cbn in E. injection E as ->. auto.
  - inversion Ht' as [|? ? Hx' Hl']; subst.
    rewrite join_cons, append_assoc in E.
    apply (f_equal JsonText.head_kind) in E. rewrite head_kind_print in E by exact Hx'.
    cbn in E. symmetry in E. apply kind_of_not_none in E; [contradiction | exact Hx'].
  - inversion Ht as [|? ? Hx0 Hl0]; subst.
    rewrite join_cons, append_assoc in E.
    apply (f_equal JsonText.head_kind) in E. rewrite head_kind_print in E by exact Hx0.
    cbn in E. apply kind_of_not_none in E; [contradiction | exact Hx0].
  - inversion Ht as [|? ? Hx0 Hl0]; subst. inversion Ht' as [|? ? Hx' Hl']; subst.
    rewrite !join_cons, !append_assoc in E.
    destruct (Hx _ _ _ Hx' E (no_number_after_element _ "]" r1 eq_refl ltac:(discriminate))
                (no_number_after_element _ "]" r2 eq_refl ltac:(discriminate))) as [-> E'].
    clear E. rename E' into E.
    destruct l as [|y l], l' as [|y' l']; cbn [map JsonText.join_tail String.append] in E.
    + injection E as ->. auto.
    + discriminate E.
    + discriminate E.
    + rewrite ?append_assoc in E. cbn [String.append] in E. injection E as E.
      destruct (IH (y' :: l') r1 r2 Hl0 Hl' E) as [-> ->]. auto.
Qed.

Lemma fields_prefix_free (props : JS.object json) :
  Forall (fun kv => JsonText.text_determines (snd kv)) props ->
  forall (props' : JS.object json) (r1 r2 : string),
    Forall (fun kv => JsonText.textual (snd kv)) props' ->
    JS.join "," (map JsonText.field_text props) +:+ String "}" r1
    = JS.join "," (map JsonText.field_text props') +:+ String "}" r2 ->
    props = props' /\ r1 = r2.
Proof.
  induction 1 as [|[k x] l Hx Hl IH]; intros [|[k' x'] l'] r1 r2 Ht' E; cbn [map] in E.
  - cbn in E. injection E as ->. auto.
  - rewrite join_cons in E. discriminate E.
  - rewrite join_cons in E. discriminate E.
  - inversion Ht' as [|? ? Hx' Hl']; subst. cbn [snd] in Hx'.
    rewrite !join_cons in E.
    change (JsonText.field_text (k, x)) with (JSON_quote k +:+ ":" +:+ JsonText.print x) in E.
    change (JsonText.field_text (k', x')) with (JSON_quote k' +:+ ":" +:+ JsonText.print x') in E.
    cbn [snd] in Hx.
    rewrite !append_assoc in E.
    apply quote_prefix_free in E as [-> E].
    cbn [String.append] in E. injection E as E.
    destruct (Hx _ _ _ Hx' E (no_number_after_element _ "}" r1 eq_refl ltac:(discriminate))
                (no_number_after_element _ "}" r2 eq_refl ltac:(discriminate))) as [-> E'].
    clear E. rename E' into E.
    destruct l as [|y l], l' as [|y' l']; cbn [map JsonText.join_tail String.append] in E.
    + injection E as ->. auto.
    + discriminate E.
    + discriminate E.
    + rewrite ?append_assoc in E. cbn [String.append] in E. injection E as E.
      destruct (IH (y' :: l') r1 r2 Hl' E) as [-> ->]. auto.
Qed.

Lemma print_determines (v : json) : JsonText.textual v -> JsonText.text_determines v.
Proof.
  induction v as [|b|z|s|items Hitems|props Hprops| | |negative|negative whole fraction]
    using JsonText.json_induction;
    intros Hv; try contradiction;
    intros v' r1 r2 Hv' E H1 H2;
    pose proof (f_equal JsonText.head_kind E) as K;
    rewrite !head_kind_print in K by assumption;
    destruct v' as [|b'|z'|s'|items'|props'| | |negative'|negative' whole' fraction'];
    try contradiction; try discriminate K; clear K.
  - cbn in E. injection E as ->. auto.
  - destruct b, b'; cbn in E; try discriminate E; injection E as ->; auto.
  - cbn [JsonText.print] in E.
    destruct (number_prefix_free _ _ _ _ E (no_number_no_digit _ H1) (no_number_no_digit _ H2))
      as [-> ->].
    auto.
  - cbn [JsonText.print] in E. exfalso. exact (number_not_fraction _ _ _ _ _ _ E H1).
  - cbn [JsonText.print] in E.
    destruct (quote_prefix_free _ _ _ _ E) as [-> ->]. auto.
  - rewrite !print_arr, !append_assoc in E.
    cbn [String.append] in E. injection E as E.
    cbn [JsonText.textual] in Hv, Hv'. apply textual_items in Hv, Hv'.
    assert (Hdet : Forall JsonText.text_determines items).
    { clear -Hitems Hv. induction Hitems as [|x l Hx Hl IH]; [constructor|].
      inversion Hv; subst. constructor; auto. }
    destruct (elements_prefix_free items Hdet _ _ _ Hv Hv' E) as [-> ->]. auto.
  - rewrite !print_obj, !append_assoc in E.
    cbn [String.append] in E. injection E as E.
    cbn [JsonText.textual] in Hv, Hv'. apply textual_fields in Hv, Hv'.
    assert (Hdet : Forall (fun kv => JsonText.text_determines (snd kv)) props).
    { clear -Hprops Hv. induction Hprops as [|x l Hx Hl IH]; [constructor|].
      inversion Hv; subst. constructor; auto. }
    destruct (fields_prefix_free props Hdet _ _ _ Hv' E) as [-> ->]. auto.
  - cbn [JsonText.print] in E. exfalso. symmetry in E.
    exact (number_not_fraction _ _ _ _ _ _ E H2).
  - cbn [JsonText.print] in E.
    destruct (fraction_prefix_free _ _ _ _ _ _ _ _ E (no_number_no_digit _ H1)
                (no_number_no_digit _ H2)) as (-> & -> & -> & ->).
    auto.
Qed.

(** Values that hold only what JSON text can hold have different texts. *)
Lemma print_inj (v v' : json) :
  JsonText.textual v -> JsonText.textual v' -> JsonText.print v = JsonText.print v' -> v = v'.
Proof.
  intros Hv Hv' E.
  destruct (print_determines v Hv v' "" "") as [Hvv _]; [exact Hv'| |exact I|exact I|exact Hvv].
  rewrite !append_nil_r. exact E.
Qed.

Lemma Z_toString_inj (z1 z2 : Z) : JS.Z_toString z1 = JS.Z_toString z2 -> z1 = z2.
Proof.
  intros E.
  destruct (number_prefix_free z1 z2 "" "") as [Hz _]; [|exact I|exact I|exact Hz].
  rewrite !append_nil_r. exact E.
Qed.




(** ** What the JSON text keeps of a value *)

(** The text of an element of an array. *)
Lemma stringify_element (v : json) :
  (forall x : json,
     match x with
     | JUndefined => "null"
     | _ => JSON_stringify x
     end = JsonText.print (JsonText.written x)) ->
  v <> JUndefined -> JSON_stringify v = JsonText.print (JsonText.written v).
Proof.
  intros H Hv. specialize (H v). destruct v; try exact H. contradiction.
Qed.

Lemma defined_fields_written (props : JS.object json) :
  Forall (fun kv => match snd kv with
                    | JUndefined => "null"
                    | _ => JSON_stringify (snd kv)
                    end = JsonText.print (JsonText.written (snd kv))) props ->
  defined_fields JSON_stringify props
  = map (fun kv => (fst kv, JsonText.print (snd kv))) (defined_fields JsonText.written props).
Proof.
  induction 1 as [|[k x] props Hx Hprops IH]; [reflexivity|].
  unfold defined_fields in *. cbn [flat_map]. rewrite IH, map_app. f_equal.
  cbn [snd] in Hx. destruct x; cbn [map fst snd]; try rewrite Hx; reflexivity.
Qed.

(** The text of a value is the text of what is written of it. *)
Lemma stringify_written (v : json) :
  match v with
  | JUndefined => "null"
  | _ => JSON_stringify v
  end = JsonText.print (JsonText.written v).
Proof.
  induction v as [|b|z|s|items Hitems|props Hprops| | |negative|negative whole fraction] using JsonText.json_induction;
    try reflexivity.
  - cbn [JSON_stringify JsonText.written JsonText.print]. rewrite map_map. do 3 f_equal.
    induction Hitems as [|x l Hx Hl IH]; cbn [map]; [reflexivity|].
    rewrite IH. f_equal. exact Hx.
  - cbn [JSON_stringify JsonText.written]. rewrite print_obj.
    rewrite (defined_fields_written props Hprops).
    rewrite (Object_entries_map JsonText.print), map_map. reflexivity.
Qed.

Lemma textual_defined_fields (props : JS.object json) :
  Forall (fun kv => JsonText.textual (JsonText.written (snd kv))) props ->
  Forall (fun kv => JsonText.textual (snd kv)) (defined_fields JsonText.written props).
Proof.
  induction 1 as [|[k x] props Hx Hprops IH]; [constructor|].
  unfold defined_fields in *. cbn [flat_map]. apply Forall_app. split; [|exact IH].
  cbn [snd] in Hx. destruct x; repeat constructor; exact Hx.
Qed.

(** What is written of a value holds only what JSON text can hold. *)
Lemma textual_written (v : json) : JsonText.textual (JsonText.written v).
Proof.
  induction v as [|b|z|s|items Hitems|props Hprops| | |negative|negative whole fraction] using JsonText.json_induction;
    try exact I.
  - cbn [JsonText.written JsonText.textual]. apply textual_items.
    induction Hitems as [|x l Hx Hl IH]; cbn [map]; constructor; assumption.
  - cbn [JsonText.written JsonText.textual]. apply textual_fields.
    eapply Permutation_Forall; [symmetry; apply Object_entries_Permutation|].
    apply textual_defined_fields. exact Hprops.
Qed.

(** Two values have the same JSON text exactly when the same is written
    of them. *)
Lemma JSON_stringify_eq (v v' : json) :
  JSON_stringify v = JSON_stringify v' <-> JsonText.JSON_value v = JsonText.JSON_value v'.
Proof.
  assert (Hu : forall w : json,
             w <> JUndefined ->
             JSON_stringify w <> "undefined" /\ JsonText.written w <> JUndefined).
  { intros w Hw. pose proof (textual_written w) as Ht. split.
    - pose proof (stringify_written w) as E.
      assert (E' : JSON_stringify w = JsonText.print (JsonText.written w))
        by (destruct w; try exact E; contradiction).
      rewrite E'. intros Hp.
      pose proof (head_kind_print (JsonText.written w) "" Ht) as K.
      rewrite append_nil_r, Hp in K. cbn in K.
      symmetry in K. apply kind_of_not_none in K; [contradiction | exact Ht].
    - intros E. rewrite E in Ht. exact Ht. }
  assert (Hw : forall w : json,
             w <> JUndefined ->
             JSON_stringify w = JsonText.print (JsonText.written w)
             /\ JsonText.JSON_value w = JsonText.written w).
  { intros w Hne. pose proof (stringify_written w) as E.
    destruct w; try (split; [exact E | reflexivity]). contradiction. }
  destruct (json_eq_undefined v) as [->|Hv], (json_eq_undefined v') as [->|Hv'].
  - tauto.
  - destruct (Hu v' Hv') as [H1 H2]. destruct (Hw v' Hv') as [_ ->].
    cbn [JSON_stringify JsonText.JSON_value]. split; intros E; exfalso; [apply H1 | apply H2];
      congruence.
  - destruct (Hu v Hv) as [H1 H2]. destruct (Hw v Hv) as [_ ->].
    cbn [JSON_stringify JsonText.JSON_value]. split; intros E; exfalso; [apply H1 | apply H2];
      congruence.
  - destruct (Hw v Hv) as [-> ->]. destruct (Hw v' Hv') as [-> ->].
    split; [|congruence].
    apply print_inj; apply textual_written.
Qed.

Lemma plain_defined_fields (props : JS.object json) :
  Forall (fun kv => JsonText.plain (snd kv) -> JsonText.written (snd kv) = snd kv) props ->
  fold_right (fun kv rest => JS.array_index (fst kv) = None /\ JsonText.plain (snd kv) /\ rest)
    True props ->
  defined_fields JsonText.written props = props
  /\ Forall (fun kv => JS.array_index (fst kv) = None) props.
Proof.
  induction 1 as [|[k x] props Hx Hprops IH]; cbn [fold_right]; [split; [reflexivity|constructor]|].
  intros (Hk & Hplain & Hrest). destruct (IH Hrest) as [E Hall].
  split; [|constructor; assumption].
  unfold defined_fields in *. cbn [flat_map]. rewrite E. cbn [snd] in Hx, Hplain.
  specialize (Hx Hplain).
  destruct x; try contradiction; cbn [app]; rewrite Hx; reflexivity.
Qed.

(** A plain value is written whole. *)
Lemma plain_written (v : json) : JsonText.plain v -> JsonText.written v = v.
Proof.
  induction v as [|b|z|s|items Hitems|props Hprops| | |negative|negative whole fraction] using JsonText.json_induction;
    cbn [JsonText.plain]; try reflexivity; try contradiction.
  - intros Hplain. cbn [JsonText.written]. f_equal.
    induction Hitems as [|x l Hx Hl IH]; cbn [map fold_right] in *; [reflexivity|].
    destruct Hplain as [Hpx Hpl]. rewrite (Hx Hpx), (IH Hpl). reflexivity.
  - intros Hplain. cbn [JsonText.written].
    destruct (plain_defined_fields props Hprops Hplain) as [-> Hall].
    rewrite (Object_entries_unindexed props Hall). reflexivity.
Qed.

(** The fields written of an object, read by name. *)
Lemma get_defined_fields (props : JS.object json) (k : string) :
  List.NoDup (JS.Object_keys props) ->
  List.NoDup (JS.Object_keys (defined_fields JsonText.written props))
  /\ (forall k', In k' (JS.Object_keys (defined_fields JsonText.written props)) ->
                 In k' (JS.Object_keys props))
  /\ JS.get (defined_fields JsonText.written props) k
     = match JS.get props k with
       | Some JUndefined | None => None
       | Some x => Some (JsonText.written x)
       end.
Proof.
  induction props as [|[k1 x] props IH]; cbn [JS.Object_keys map fst]; intros Hnd.
  - split; [constructor|]. split; [intros k' []|reflexivity].
  - apply NoDup_cons_iff in Hnd as [Hk1 Hnd]. destruct (IH Hnd) as (IH1 & IH2 & IH3).
    assert (E : defined_fields JsonText.written ((k1, x) :: props)
                = match x with
                  | JUndefined => []
                  | _ => [(k1, JsonText.written x)]
                  end ++ defined_fields JsonText.written props) by reflexivity.
    rewrite E. clear E. cbn [JS.get].
    assert (Hgone : String.eqb k1 k = true ->
                    JS.get (defined_fields JsonText.written props) k = None).
    { intros Ek. apply String.eqb_eq in Ek. subst k1. apply get_None.
      intros Hin. apply Hk1, IH2, Hin. }
    destruct x; cbn [app JS.Object_keys map fst JS.get In];
      (split; [try (apply List.NoDup_cons; [intros Hin; apply Hk1, IH2, Hin | exact IH1]);
               try exact IH1
              |split; [intros k'; try (intros [->|Hin]; [left; reflexivity | right; apply IH2, Hin]);
                       try (intros Hin; right; apply IH2, Hin)
                      |destruct (String.eqb k1 k) eqn:Ek; [try reflexivity; apply Hgone; reflexivity
                                                          |exact IH3]]]).
Qed.

(** Reading by name what is written of an object. *)
Lemma get_written (props : JS.object json) (k : string) :
  List.NoDup (JS.Object_keys props) ->
  JS.get (own_props (JsonText.written (JObj props))) k
  = match JS.get props k with
    | Some JUndefined | None => None
    | Some x => Some (JsonText.written x)
    end.
Proof.
  intros Hnd. destruct (get_defined_fields props k Hnd) as (Hnd' & _ & <-).
  cbn [JsonText.written own_props]. apply get_Object_entries. exact Hnd'.
Qed.

Lemma plain_JSON_value (v : json) : JsonText.plain v -> JsonText.JSON_value v = v.
Proof.
  intros H. pose proof (plain_written v H) as E. destruct v; try exact E; contradiction.
Qed.

(** ** The shape merge *)

Section ShapeMerge.

Variable JSON_parse : string -> option PersistentState.json.
Variable options : PersistentState.StorageOptions.

Import PersistentState.


End ShapeMerge.

(** ** Unsaved changes *)

(** C8, as the code has it.  [hasUnsavedChanges] compares the JSON texts
    of the current state and of the default, and the text lists the fields
    in the order of their enumeration.  For every state and default it
    returns false exactly when the same is written of both: the same
    fields, in the same order, with equal values, once the fields that hold
    [undefined] are left out and NaN, the infinities and an [undefined]
    element of an array are read as [null].  For plain values (no such
    value in them, no field named by an array index) it therefore returns
    false exactly when the state and the default have the same fields, in
    the same order, with equal values, and true otherwise: when a value
    differs, when a field is missing or added, and also when the same
    fields with equal values stand in a different order. *)
Theorem hasUnsavedChanges_compares_ordered_fields (values defaults : json) :
  (CalculatorState.hasUnsavedChanges values defaults = false
   <-> JsonText.JSON_value values = JsonText.JSON_value defaults)
  /\ (JsonText.plain values -> JsonText.plain defaults ->
      (CalculatorState.hasUnsavedChanges values defaults = false <-> values = defaults)).
Proof.
  assert (H : CalculatorState.hasUnsavedChanges values defaults = false
              <-> JsonText.JSON_value values = JsonText.JSON_value defaults).
  { unfold CalculatorState.hasUnsavedChanges.
    rewrite negb_false_iff, String.eqb_eq. apply JSON_stringify_eq. }
  split; [exact H|].
  intros Hv Hd. rewrite H, (plain_JSON_value values Hv), (plain_JSON_value defaults Hd).
  reflexivity.
Qed.

(** * Further properties *)

(** ** Reading the CSV text back *)

Lemma special_cases (c : ascii) :
  CsvSpec.is_special c = false ->
  Ascii.eqb c JS.quote = false /\ Ascii.eqb c JS.comma = false
  /\ Ascii.eqb c JS.LF = false /\ Ascii.eqb c JS.CR = false.
Proof.
  unfold CsvSpec.is_special.
  destruct (Ascii.eqb c JS.comma), (Ascii.eqb c JS.quote), (Ascii.eqb c JS.LF),
    (Ascii.eqb c JS.CR); cbn; intros H; try discriminate H; auto.
Qed.

Lemma read_bare (s : string) :
  forall (field : string) (record : list string) (records : list (list string)) (rest : string),
    CsvSpec.has_special s = false -> CsvSpec.delimited rest ->
    CsvSpec.read_from CsvSpec.Bare field record records (s +:+ rest)
    = CsvSpec.after_field (field +:+ s) record records rest.
Proof.
  induction s as [|c s IH]; intros field record records rest Hs Hrest.
  - rewrite append_nil_r. cbn [String.append].
    destruct rest as [|d rest]; [reflexivity|].
    cbn [CsvSpec.read_from CsvSpec.after_field].
    destruct Hrest as [-> | ->]; reflexivity.
  - unfold CsvSpec.has_special in Hs. cbn [list_ascii_of_string existsb] in Hs.
    apply orb_false_elim in Hs as [Hc Hs].
    destruct (special_cases c Hc) as (Hq & Hcomma & Hlf & Hcr).
    cbn [String.append CsvSpec.read_from]. rewrite Hq, Hcomma, Hlf, Hcr.
    rewrite IH by assumption.
    rewrite append_assoc. reflexivity.
Qed.

Lemma read_quoted (s : string) :
  forall (field : string) (record : list string) (records : list (list string)) (rest : string),
    CsvSpec.delimited rest ->
    CsvSpec.read_from CsvSpec.Quoted field record records
      (CsvSpec.double_quotes s +:+ String JS.quote rest)
    = CsvSpec.after_field (field +:+ s) record records rest.
Proof.
  induction s as [|c s IH]; intros field record records rest Hrest.
  - rewrite append_nil_r. cbn [CsvSpec.double_quotes String.append CsvSpec.read_from].
    rewrite Ascii.eqb_refl.
    destruct rest as [|d rest]; [reflexivity|].
    cbn [CsvSpec.read_from CsvSpec.after_field].
    destruct Hrest as [-> | ->]; reflexivity.
  - cbn [CsvSpec.double_quotes].
    destruct (Ascii.eqb c JS.quote) eqn:Hc; cbn [String.append CsvSpec.read_from].
    + apply Ascii.eqb_eq in Hc. subst c.
      rewrite !Ascii.eqb_refl. rewrite IH by assumption.
      rewrite append_assoc. reflexivity.
    + rewrite Hc. rewrite IH by assumption.
      rewrite append_assoc. reflexivity.
Qed.

(** One written field, followed by a delimiter or by nothing, is read as
    the text it was written for. *)
Lemma read_field (f : string) (record : list string) (records : list (list string))
    (rest : string) :
  CsvSpec.delimited rest ->
  CsvSpec.read_from CsvSpec.FieldStart "" record records (CsvSpec.escape f +:+ rest)
  = CsvSpec.after_field f record records rest.
Proof.
  intros Hrest. unfold CsvSpec.escape.
  destruct (CsvSpec.has_special f) eqn:Hs.
  - unfold JS.str. rewrite !append_assoc. cbn [String.append CsvSpec.read_from].
    rewrite Ascii.eqb_refl.
    rewrite (read_quoted f "" record records rest Hrest). reflexivity.
  - destruct f as [|c f].
    + cbn [String.append].
      destruct rest as [|d rest]; [reflexivity|].
      cbn [CsvSpec.read_from CsvSpec.after_field].
      destruct Hrest as [-> | ->]; reflexivity.
    + pose proof Hs as Hs'.
      unfold CsvSpec.has_special in Hs. cbn [list_ascii_of_string existsb] in Hs.
      apply orb_false_elim in Hs as [Hc Hs].
      destruct (special_cases c Hc) as (Hq & Hcomma & Hlf & Hcr).
      cbn [String.append CsvSpec.read_from]. rewrite Hq, Hcomma, Hlf, Hcr.
      rewrite (read_bare f (JS.str c) record records rest Hs Hrest). reflexivity.
Qed.

Lemma read_record (cells : list string) :
  forall (record : list string) (records : list (list string)) (rest : string),
    cells <> [] ->
    match rest with EmptyString => True | String c _ => c = JS.LF end ->
    CsvSpec.read_from CsvSpec.FieldStart "" record records (CsvSpec.written_line cells +:+ rest)
    = CsvSpec.after_record (record ++ cells) records rest.
Proof.
  unfold CsvSpec.written_line.
  induction cells as [|f [|f' cells] IH]; intros record records rest Hne Hrest; [contradiction| |].
  - cbn [map String.concat].
    rewrite read_field by (destruct rest; [exact I | right; exact Hrest]).
    destruct rest as [|c rest]; [reflexivity|].
    subst c. reflexivity.
  - change (String.concat "," (map CsvSpec.escape (f :: f' :: cells)))
      with (CsvSpec.escape f +:+ "," +:+ String.concat "," (map CsvSpec.escape (f' :: cells))).
    rewrite !append_assoc. cbn [String.append].
    rewrite read_field by (left; reflexivity).
    cbn [CsvSpec.after_field]. rewrite Ascii.eqb_refl.
    rewrite IH by (try discriminate; assumption).
    rewrite <- app_assoc. reflexivity.
Qed.

Lemma written_line_record_of (cells : list string) :
  CsvSpec.written_line cells = CsvSpec.written_line (CsvSpec.record_of cells).
Proof. destruct cells; reflexivity. Qed.

Lemma read_lines (table : list (list string)) :
  forall records : list (list string),
    table <> [] ->
    CsvSpec.read_from CsvSpec.FieldStart "" [] records
      (CsvSpec.lines_text (map CsvSpec.written_line table))
    = Some (records ++ map CsvSpec.record_of table).
Proof.
  induction table as [|cells [|cells' table] IH]; intros records Hne; [contradiction| |].
  - cbn [map CsvSpec.lines_text].
    rewrite written_line_record_of, <- (append_nil_r (CsvSpec.written_line _)).
    rewrite read_record by (try exact I; destruct cells; discriminate).
    reflexivity.
  - change (CsvSpec.lines_text (map CsvSpec.written_line (cells :: cells' :: table)))
      with (CsvSpec.written_line cells
            +:+ String JS.LF (CsvSpec.lines_text (map CsvSpec.written_line (cells' :: table)))).
    rewrite written_line_record_of.
    rewrite read_record by (try reflexivity; destruct cells; discriminate).
    cbn [CsvSpec.after_record app].
    rewrite IH by discriminate.
    rewrite <- app_assoc. reflexivity.
Qed.

(** The lines written for a table are read back as the table. *)
Lemma read_written (table : list (list string)) :
  CsvSpec.read (CsvSpec.lines_text (map CsvSpec.written_line table)) = Some (CsvSpec.table_of table).
Proof.
  destruct table as [|cells table]; [reflexivity|].
  unfold CsvSpec.read. rewrite read_lines by discriminate. reflexivity.
Qed.

Section ReadBack.

Variable Number_toString : JS.number -> string.

Lemma formatCsvValue_escape (value : CsvExport.CsvValue) :
  CsvExport.formatCsvValue Number_toString value
  = CsvSpec.escape (CsvSpec.cell_text Number_toString value).
Proof.
  destruct value as [| |b|n|s|name|]; try reflexivity;
    (rewrite formatCsvValue_text by discriminate; reflexivity).
Qed.

Lemma formatted_line (cells : list CsvExport.CsvValue) :
  JS.join "," (map (CsvExport.formatCsvValue Number_toString) cells)
  = CsvSpec.written_line (map (CsvSpec.cell_text Number_toString) cells).
Proof.
  unfold CsvSpec.written_line, JS.join. rewrite map_map. f_equal.
  apply map_ext. intros v. apply formatCsvValue_escape.
Qed.

(** X1.  The text [arrayToCSV] writes for a table is read back by the
    standard reader as the table of the texts of its cells, whatever
    commas, quotes and line breaks the cells hold ([null] and [undefined]
    read as the empty text).  A row without cells is read as one empty
    field, and so is the table without rows. *)
Theorem arrayToCSV_read_back (data : list (list CsvExport.CsvValue)) :
  CsvSpec.read (CsvExport.arrayToCSV Number_toString data)
  = Some (CsvSpec.table_of (map (map (CsvSpec.cell_text Number_toString)) data)).
Proof.
  unfold CsvExport.arrayToCSV.
  rewrite join_lines_text, <- read_written, map_map.
  do 2 f_equal. apply map_ext. intros row. apply formatted_line.
Qed.

Lemma section_lines_cells (final : bool) (section : CsvExport.CsvSection) :
  CsvSpec.section_lines (CsvExport.formatCsvValue Number_toString) final section
  = map (fun cells => CsvSpec.written_line (map (CsvSpec.cell_text Number_toString) cells))
      (CsvSpec.section_cells final section).
Proof.
  unfold CsvSpec.section_lines, CsvSpec.section_cells, CsvSpec.title_lines,
    CsvSpec.header_lines, CsvSpec.row_line.
  rewrite !map_app. f_equal; [|f_equal; [|f_equal]].
  - destruct (CsvExport.title section); [reflexivity|].
    cbn [map]. unfold CsvSpec.written_line. cbn [map String.concat].
    rewrite formatCsvValue_escape. reflexivity.
  - destruct (CsvExport.headers section) as [|h hs]; [reflexivity|].
    set (l := h :: hs). cbn [map]. rewrite <- formatted_line. unfold JS.join.
    rewrite !map_map. reflexivity.
  - rewrite map_map. apply map_ext. intros row.
    rewrite <- formatted_line. reflexivity.
  - destruct final; reflexivity.
Qed.

Lemma all_lines_cells (sections : list CsvExport.CsvSection) :
  CsvSpec.all_lines (CsvExport.formatCsvValue Number_toString) sections
  = map (fun cells => CsvSpec.written_line (map (CsvSpec.cell_text Number_toString) cells))
      (CsvSpec.all_cells sections).
Proof.
  induction sections as [|s [|s' rest] IH]; [reflexivity| |].
  - cbn [CsvSpec.all_lines CsvSpec.all_cells]. apply section_lines_cells.
  - change (CsvSpec.all_lines (CsvExport.formatCsvValue Number_toString) (s :: s' :: rest))
      with (CsvSpec.section_lines (CsvExport.formatCsvValue Number_toString) false s
            ++ CsvSpec.all_lines (CsvExport.formatCsvValue Number_toString) (s' :: rest)).
    change (CsvSpec.all_cells (s :: s' :: rest))
      with (CsvSpec.section_cells false s ++ CsvSpec.all_cells (s' :: rest)).
    rewrite map_app, IH, section_lines_cells. reflexivity.
Qed.

Lemma sectionsToCSV_lines (sections : list CsvExport.CsvSection) :
  CsvExport.sectionsToCSV Number_toString sections
  = CsvSpec.lines_text
      (CsvSpec.all_lines (CsvExport.formatCsvValue Number_toString) sections).
Proof.
  unfold CsvExport.sectionsToCSV, JS.forEach.
  rewrite join_lines_text.
  change (List.length sections) with (0 + List.length sections)%nat.
  rewrite (forEach_push_section Number_toString sections 0 []).
  reflexivity.
Qed.

(** X2.  The text [sectionsToCSV] writes is read back by the standard
    reader as one record per line written: the title alone, one empty
    field for each blank line, the headers, and for each row the texts of
    its cells ([CsvSpec.row_cells]: under headers the value the record
    gives for each header, its own field or the inherited property of that
    name; without headers its fields in its own field order, those named
    by an array index first), whatever commas, quotes and line breaks
    titles, headers and cells hold. *)
Theorem sectionsToCSV_read_back (sections : list CsvExport.CsvSection) :
  CsvSpec.read (CsvExport.sectionsToCSV Number_toString sections)
  = Some (CsvSpec.table_of
            (map (map (CsvSpec.cell_text Number_toString)) (CsvSpec.all_cells sections))).
Proof.
  rewrite sectionsToCSV_lines, all_lines_cells, <- read_written, map_map. reflexivity.
Qed.

End ReadBack.

(** ** Sets of keys *)

Lemma Set_add_In (elements : list string) (x y : string) :
  In y (JS.Set_add elements x) <-> In y elements \/ y = x.
Proof.
  unfold JS.Set_add.
  destruct (existsb (String.eqb x) elements) eqn:E.
  - apply existsb_exists in E as (z & Hz & Hxz). apply String.eqb_eq in Hxz. subst z.
    split; [auto | intros [H | ->]; assumption].
  - rewrite in_app_iff. cbn [In]. intuition auto.
Qed.

Lemma Set_add_NoDup (elements : list string) (x : string) :
  List.NoDup elements -> List.NoDup (JS.Set_add elements x).
Proof.
  intros Hnd. unfold JS.Set_add.
  destruct (existsb (String.eqb x) elements) eqn:E; [exact Hnd|].
  apply List.NoDup_app; [exact Hnd | apply List.NoDup_cons; [intros [] | apply List.NoDup_nil] |].
  intros y Hy [Hxy|[]]. subst y.
  assert (existsb (String.eqb x) elements = true); [|congruence].
  apply existsb_exists. exists x. split; [exact Hy | apply String.eqb_refl].
Qed.

Lemma Set_fold (arr : list string) :
  forall elements : list string,
    List.NoDup elements ->
    List.NoDup (fold_left JS.Set_add arr elements)
    /\ (forall y, In y (fold_left JS.Set_add arr elements) <-> In y elements \/ In y arr)
    /\ exists added, fold_left JS.Set_add arr elements = elements ++ added.
Proof.
  induction arr as [|x arr IH]; intros elements Hnd; cbn [fold_left].
  - split; [exact Hnd|]. split; [cbn; tauto|]. exists []. rewrite app_nil_r. reflexivity.
  - destruct (IH (JS.Set_add elements x) (Set_add_NoDup elements x Hnd)) as (H1 & H2 & added & H3).
    split; [exact H1|]. split.
    + intros y. rewrite H2, Set_add_In. cbn [In]. intuition auto.
    + rewrite H3. unfold JS.Set_add.
      destruct (existsb (String.eqb x) elements).
      * exists added. reflexivity.
      * exists (x :: added). rewrite <- app_assoc. reflexivity.
Qed.

(** Keys that are distinct and new are added as they come. *)
Lemma Set_fold_fresh (arr : list string) :
  forall elements : list string,
    List.NoDup arr -> (forall y, In y arr -> ~ In y elements) ->
    fold_left JS.Set_add arr elements = elements ++ arr.
Proof.
  induction arr as [|x arr IH]; intros elements Hnd Hfresh; cbn [fold_left].
  - rewrite app_nil_r. reflexivity.
  - apply NoDup_cons_iff in Hnd as [Hx Hnd].
    assert (E : JS.Set_add elements x = elements ++ [x]).
    { unfold JS.Set_add. destruct (existsb (String.eqb x) elements) eqn:E; [|reflexivity].
      apply existsb_exists in E as (z & Hz & Hxz). apply String.eqb_eq in Hxz. subst z.
      exfalso. apply (Hfresh x); [left; reflexivity | exact Hz]. }
    rewrite E, IH, <- app_assoc; [reflexivity | exact Hnd |].
    intros y Hy. rewrite in_app_iff. cbn [In]. intros [Hin|[<-|[]]].
    + apply (Hfresh y); [right; exact Hy | exact Hin].
    + contradiction.
Qed.

Lemma insert_ascending_Permutation (field : string * CsvExport.CsvValue)
    (fields : list (string * CsvExport.CsvValue)) :
  Permutation (CsvSpec.insert_ascending field fields) (field :: fields).
Proof.
  induction fields as [|f rest IH]; cbn [CsvSpec.insert_ascending]; [reflexivity|].
  destruct (CsvSpec.index_of f <=? CsvSpec.index_of field)%Z; [|reflexivity].
  rewrite IH. apply perm_swap.
Qed.

Lemma ascending_Permutation (fields : list (string * CsvExport.CsvValue)) :
  forall sorted : list (string * CsvExport.CsvValue),
    Permutation
      (fold_left (fun sorted field => CsvSpec.insert_ascending field sorted) fields sorted)
      (sorted ++ fields).
Proof.
  induction fields as [|f rest IH]; intros sorted; cbn [fold_left].
  - rewrite app_nil_r. reflexivity.
  - rewrite IH, insert_ascending_Permutation. cbn [app]. apply Permutation_middle.
Qed.

(** The natural order lists every field of the record, each once. *)
Lemma natural_order_Permutation (row : CsvExport.CsvRow) :
  Permutation (CsvSpec.natural_order row) row.
Proof.
  unfold CsvSpec.natural_order, CsvSpec.ascending.
  rewrite (ascending_Permutation _ []). cbn [app].
  induction row as [|f rest IH]; cbn [List.filter]; [reflexivity|].
  destruct (CsvSpec.named_by_index f); cbn [negb app].
  - apply perm_skip. exact IH.
  - symmetry. apply Permutation_cons_app. symmetry. exact IH.
Qed.

Section ObjectsToCsvRows.

Variable Number_toString : JS.number -> string.

(** X3.  [objectsToCsvRows] gives no row for no object.  Otherwise its
    first row lists, escaped, every key of every object once, the keys of
    the first object coming first in its natural order, and one row per
    object follows, in order, with one cell per listed key: the object's
    field of that name, failing that the property every object inherits
    under that name, failing that the empty text. *)
Theorem objectsToCsvRows_header_and_rows (first : CsvExport.CsvRow)
    (others : list CsvExport.CsvRow) :
  CsvExport.objectsToCsvRows Number_toString [] = []
  /\ exists allKeys : list string,
       List.NoDup allKeys
       /\ (forall k, In k allKeys
                     <-> exists obj, In obj (first :: others) /\ In k (JS.Object_keys obj))
       /\ (List.NoDup (JS.Object_keys first) ->
           exists added, allKeys = map fst (CsvSpec.natural_order first) ++ added)
       /\ CsvExport.objectsToCsvRows Number_toString (first :: others)
          = JS.join "," (map (fun k => CsvExport.formatCsvValue Number_toString (CsvExport.VStr k))
                           allKeys)
            :: map (fun obj =>
                      JS.join ","
                        (map (fun k => CsvExport.formatCsvValue Number_toString
                                         (CsvSpec.field_named obj k)) allKeys))
                 (first :: others).
Proof.
  split; [reflexivity|].
  set (keys := fun obj : CsvExport.CsvRow => map fst (JS.Object_entries obj)).
  assert (Hkeys : forall obj, keys obj = map fst (CsvSpec.natural_order obj))
    by (intros obj; unfold keys; rewrite Object_entries_natural_order; reflexivity).
  assert (Hperm : forall obj, Permutation (keys obj) (JS.Object_keys obj))
    by (intros obj; rewrite Hkeys; apply Permutation_map, natural_order_Permutation).
  exists (JS.Set_from (flat_map keys (first :: others))).
  destruct (Set_fold (flat_map keys (first :: others)) [] (List.NoDup_nil _))
    as (Hnd & Hin & _).
  split; [exact Hnd|]. split; [|split].
  - intros k. unfold JS.Set_from. rewrite Hin, in_flat_map. cbn [In].
    split.
    + intros [[]|(obj & Hobj & Hk)]. exists obj. split; [exact Hobj|].
      eapply Permutation_in; [apply Hperm | exact Hk].
    + intros (obj & Hobj & Hk). right. exists obj. split; [exact Hobj|].
      eapply Permutation_in; [symmetry; apply Hperm | exact Hk].
  - intros Hfirst. unfold JS.Set_from. cbn [flat_map]. rewrite fold_left_app.
    assert (Hnd1 : List.NoDup (keys first))
      by (eapply Permutation_NoDup; [symmetry; apply Hperm | exact Hfirst]).
    rewrite (Set_fold_fresh (keys first) []) by (auto; intros y _ []).
    cbn [app].
    destruct (Set_fold (flat_map keys others) (keys first) Hnd1) as (_ & _ & Hadded).
    rewrite <- Hkeys. exact Hadded.
  - unfold CsvExport.objectsToCsvRows, JS.forEach. cbn [List.length Nat.eqb app].
    fold keys.
    rewrite (forEach_push
               (fun obj =>
                  JS.join ","
                    (map (fun key => CsvExport.formatCsvValue Number_toString
                                       (CsvExport.cell obj key))
                       (JS.Set_from (flat_map keys (first :: others)))))).
    cbn [app]. f_equal. apply map_ext. intros obj. f_equal. apply map_ext. intros k.
    rewrite cell_field_named. reflexivity.
Qed.

End ObjectsToCsvRows.

(** ** File names *)

Lemma length_append (a b : string) :
  String.length (a +:+ b) = (String.length a + String.length b)%nat.
Proof. induction a as [|c a IH]; cbn; [reflexivity | rewrite IH; reflexivity]. Qed.

Lemma append_inj_length (a1 : string) :
  forall a2 b1 b2 : string,
    String.length a1 = String.length a2 ->
    a1 +:+ b1 = a2 +:+ b2 -> a1 = a2 /\ b1 = b2.
Proof.
  induction a1 as [|c a1 IH]; intros [|c2 a2] b1 b2 Hlen E; cbn in Hlen; try discriminate.
  - cbn in E. auto.
  - cbn [String.append] in E. injection E as -> E.
    destruct (IH a2 b1 b2) as [-> ->]; [lia | exact E | auto].
Qed.

Lemma append_inj_l (a b1 b2 : string) : a +:+ b1 = a +:+ b2 -> b1 = b2.
Proof. intros E. apply (append_inj_length a a b1 b2 eq_refl E). Qed.

Lemma append_inj_r (a1 a2 b : string) : a1 +:+ b = a2 +:+ b -> a1 = a2.
Proof.
  intros E. apply (append_inj_length a1 a2 b b); [|exact E].
  apply (f_equal String.length) in E. rewrite !length_append in E. lia.
Qed.

Lemma all_digits_append (a b : string) :
  CsvSpec.all_digits (a +:+ b) = CsvSpec.all_digits a && CsvSpec.all_digits b.
Proof.
  unfold CsvSpec.all_digits. induction a as [|c a IH]; cbn [String.append list_ascii_of_string forallb].
  - reflexivity.
  - rewrite IH, andb_assoc. reflexivity.
Qed.

(** A property checked on every integer of a range. *)
Lemma checked_range (P : Z -> bool) (from count n : Z) :
  forallb P (map (fun k => from + Z.of_nat k)%Z (seq 0 (Z.to_nat count))) = true ->
  (from <= n < from + count)%Z -> P n = true.
Proof.
  intros Hall Hn. rewrite forallb_forall in Hall. apply Hall.
  rewrite in_map_iff. exists (Z.to_nat (n - from)). split; [lia|].
  apply in_seq. lia.
Qed.

Lemma two_digits_digits (n : Z) :
  (0 <= n <= 99)%Z ->
  String.length (CsvExport.two_digits n) = 2%nat /\ CsvSpec.all_digits (CsvExport.two_digits n) = true.
Proof.
  intros Hn.
  pose proof (checked_range
                (fun n => (String.length (CsvExport.two_digits n) =? 2)%nat
                          && CsvSpec.all_digits (CsvExport.two_digits n)) 0 100 n) as H.
  cbv beta in H. apply andb_prop in H as [H1 H2]; [| vm_compute; reflexivity | lia].
  apply Nat.eqb_eq in H1. auto.
Qed.

Lemma two_digits_inj (n m : Z) :
  (0 <= n <= 99)%Z -> (0 <= m <= 99)%Z ->
  CsvExport.two_digits n = CsvExport.two_digits m -> n = m.
Proof.
  intros Hn Hm E.
  set (reads := fun n => match NilZero.int_of_string (CsvExport.two_digits n) with
                         | Some i => (Z.of_int i =? n)%Z
                         | None => false
                         end).
  assert (Hreads : forall k, (0 <= k <= 99)%Z -> reads k = true)
    by (intros k Hk; apply (checked_range reads 0 100 k); [vm_compute; reflexivity | lia]).
  pose proof (Hreads n Hn) as H1. pose proof (Hreads m Hm) as H2.
  unfold reads in H1, H2. rewrite E in H1.
  destruct (NilZero.int_of_string (CsvExport.two_digits m)); [|discriminate].
  apply Z.eqb_eq in H1, H2. congruence.
Qed.

Lemma usize_nb_digits (d : Decimal.uint) :
  DecimalPos.Unsigned.usize d = N.of_nat (Decimal.nb_digits d).
Proof.
  induction d; cbn [DecimalPos.Unsigned.usize Decimal.nb_digits];
    rewrite ?IHd; lia.
Qed.

(** The value of reversed digits is below the power of ten of their
    number. *)
Lemma of_lu_below (d : Decimal.uint) :
  (DecimalPos.Unsigned.of_lu d < 10 ^ DecimalPos.Unsigned.usize d)%N.
Proof.
  induction d; cbn [DecimalPos.Unsigned.of_lu DecimalPos.Unsigned.usize];
    rewrite ?N.pow_succ_r'; cbn; lia.
Qed.

(** Digits after a leading digit from 1 to 9. *)
Lemma leading_digit_bounds (k : positive) (rest : Decimal.uint) :
  (k <= 9)%positive ->
  (10 ^ N.of_nat (Decimal.nb_digits rest) <= N.pos (Pos.of_uint_acc rest k)
   < 10 ^ N.of_nat (S (Decimal.nb_digits rest)))%N.
Proof.
  intros Hk. rewrite DecimalPos.Unsigned.of_uint_acc_rev.
  pose proof (of_lu_below (Decimal.rev rest)) as Hlow.
  rewrite !usize_nb_digits, DecimalFacts.nb_digits_rev in *.
  rewrite Nat2N.inj_succ, N.pow_succ_r'.
  set (n := (10 ^ N.of_nat (Decimal.nb_digits rest))%N) in *.
  nia.
Qed.

(** The decimal digits of a positive number: as many as its size. *)
Lemma to_uint_bounds (p : positive) :
  (10 ^ N.of_nat (Decimal.nb_digits (Pos.to_uint p) - 1) <= N.pos p
   < 10 ^ N.of_nat (Decimal.nb_digits (Pos.to_uint p)))%N.
Proof.
  pose proof (DecimalPos.Unsigned.of_to p) as Hof.
  pose proof (DecimalPos.Unsigned.to_of (Pos.to_uint p)) as Hnorm.
  rewrite Hof in Hnorm. cbn [N.to_uint] in Hnorm.
  pose proof (DecimalPos.Unsigned.to_uint_nonnil p) as Hnil.
  pose proof (DecimalPos.Unsigned.to_uint_nonzero p) as Hzero.
  destruct (Pos.to_uint p) as [|rest|rest|rest|rest|rest|rest|rest|rest|rest|rest];
    [contradiction | | | | | | | | | |];
    cbn [Decimal.nb_digits]; rewrite ?Nat.sub_succ, ?Nat.sub_0_r;
    try (cbn [Pos.of_uint] in Hof; rewrite <- Hof; apply leading_digit_bounds; lia).
  exfalso. rewrite DecimalFacts.unorm_D0 in Hnorm.
  destruct rest as [|r|r|r|r|r|r|r|r|r|r]; [contradiction|..];
    match type of Hnorm with
    | _ = Decimal.unorm ?d =>
        pose proof (DecimalFacts.nb_digits_unorm d ltac:(discriminate)) as Hlen;
        rewrite <- Hnorm in Hlen; cbn [Decimal.nb_digits] in Hlen; lia
    end.
Qed.

Lemma string_of_uint_digits (d : Decimal.uint) :
  String.length (NilEmpty.string_of_uint d) = Decimal.nb_digits d
  /\ CsvSpec.all_digits (NilEmpty.string_of_uint d) = true.
Proof.
  unfold CsvSpec.all_digits.
  induction d as [|d [IH1 IH2]|d [IH1 IH2]|d [IH1 IH2]|d [IH1 IH2]|d [IH1 IH2]|d [IH1 IH2]
                  |d [IH1 IH2]|d [IH1 IH2]|d [IH1 IH2]|d [IH1 IH2]];
    cbn [NilEmpty.string_of_uint String.length Decimal.nb_digits list_ascii_of_string forallb];
    rewrite ?IH1, ?IH2; split; reflexivity.
Qed.

Lemma year_digits (y : Z) :
  (1000 <= y <= 9999)%Z ->
  String.length (JS.Z_toString y) = 4%nat /\ CsvSpec.all_digits (JS.Z_toString y) = true.
Proof.
  intros Hy. destruct y as [|p|p]; try lia.
  unfold JS.Z_toString. cbn [Z.to_int NilZero.string_of_int].
  pose proof (DecimalPos.Unsigned.to_uint_nonnil p) as Hnil.
  pose proof (to_uint_bounds p) as [Hlow Hhigh].
  assert (E : NilZero.string_of_uint (Pos.to_uint p) = NilEmpty.string_of_uint (Pos.to_uint p))
    by (destruct (Pos.to_uint p); [contradiction | reflexivity..]).
  rewrite E. destruct (string_of_uint_digits (Pos.to_uint p)) as [-> ->].
  split; [|reflexivity].
  set (n := Decimal.nb_digits (Pos.to_uint p)) in *.
  destruct (Nat.le_gt_cases n 3) as [Hn|Hn].
  - assert (10 ^ N.of_nat n <= 10 ^ 3)%N by (apply N.pow_le_mono_r; lia). lia.
  - destruct (Nat.le_gt_cases 5 n) as [Hn'|Hn']; [|lia].
    assert (10 ^ 4 <= 10 ^ N.of_nat (n - 1))%N by (apply N.pow_le_mono_r; lia). lia.
Qed.

(** X4.  For a date whose year has four digits, [generateFilename] gives
    the base name (["export"] when left out), an underscore, eight digits,
    an underscore, six digits, a point and the extension (["csv"] when left
    out). *)
Theorem generateFilename_digits (now : CsvExport.Date) (baseName extension : option string) :
  CsvSpec.in_range now ->
  (1000 <= CsvExport.getFullYear now <= 9999)%Z ->
  exists date time : string,
    CsvExport.generateFilename now baseName extension
    = default "export" baseName +:+ "_" +:+ date +:+ "_" +:+ time +:+ "."
      +:+ default "csv" extension
    /\ String.length date = 8%nat /\ CsvSpec.all_digits date = true
    /\ String.length time = 6%nat /\ CsvSpec.all_digits time = true.
Proof.
  intros (Hmo & Hd & Hh & Hmi & Hs) Hy.
  exists (JS.Z_toString (CsvExport.getFullYear now)
          +:+ CsvExport.two_digits (CsvExport.getMonth now + 1)
          +:+ CsvExport.two_digits (CsvExport.getDate now)),
         (CsvExport.two_digits (CsvExport.getHours now)
          +:+ CsvExport.two_digits (CsvExport.getMinutes now)
          +:+ CsvExport.two_digits (CsvExport.getSeconds now)).
  destruct (year_digits _ Hy) as [Ly Dy].
  destruct (two_digits_digits (CsvExport.getMonth now + 1)) as [L1 D1]; [lia|].
  destruct (two_digits_digits (CsvExport.getDate now)) as [L2 D2]; [lia|].
  destruct (two_digits_digits (CsvExport.getHours now)) as [L3 D3]; [lia|].
  destruct (two_digits_digits (CsvExport.getMinutes now)) as [L4 D4]; [lia|].
  destruct (two_digits_digits (CsvExport.getSeconds now)) as [L5 D5]; [lia|].
  split; [|rewrite !length_append, !all_digits_append, Ly, L1, L2, L3, L4, L5,
             Dy, D1, D2, D3, D4, D5; auto].
  unfold CsvExport.generateFilename, CsvExport.timestamp_of, JS.join.
  cbn [String.concat].
  destruct baseName, extension; cbn [default]; rewrite ?append_assoc; reflexivity.
Qed.

Lemma generateFilename_inj (now1 now2 : CsvExport.Date)
    (baseName extension : option string) :
  CsvSpec.in_range now1 -> CsvSpec.in_range now2 ->
  CsvExport.generateFilename now1 baseName extension
  = CsvExport.generateFilename now2 baseName extension ->
  now1 = now2.
Proof.
  intros (Hmo1 & Hd1 & Hh1 & Hmi1 & Hs1) (Hmo2 & Hd2 & Hh2 & Hmi2 & Hs2) E.
  unfold CsvExport.generateFilename in E. cbv zeta in E.
  apply append_inj_l, append_inj_l, append_inj_r in E.
  unfold CsvExport.timestamp_of, JS.join in E. cbn [String.concat] in E.
  cbn [String.append] in E.
  destruct now1 as [y1 mo1 d1 h1 mi1 s1], now2 as [y2 mo2 d2 h2 mi2 s2].
  cbn [CsvExport.getFullYear CsvExport.getMonth CsvExport.getDate CsvExport.getHours
       CsvExport.getMinutes CsvExport.getSeconds] in *.
  destruct (two_digits_digits (mo1 + 1)) as [L1 _]; [lia|].
  destruct (two_digits_digits d1) as [L2 _]; [lia|].
  destruct (two_digits_digits h1) as [L3 _]; [lia|].
  destruct (two_digits_digits mi1) as [L4 _]; [lia|].
  destruct (two_digits_digits s1) as [L5 _]; [lia|].
  destruct (two_digits_digits (mo2 + 1)) as [L1' _]; [lia|].
  destruct (two_digits_digits d2) as [L2' _]; [lia|].
  destruct (two_digits_digits h2) as [L3' _]; [lia|].
  destruct (two_digits_digits mi2) as [L4' _]; [lia|].
  destruct (two_digits_digits s2) as [L5' _]; [lia|].
  assert (Hlen : String.length (JS.Z_toString y1) = String.length (JS.Z_toString y2)).
  { apply (f_equal String.length) in E. rewrite !length_append in E. cbn in E.
    rewrite !length_append in E. lia. }
  apply append_inj_length in E as [Ey E]; [|exact Hlen].
  apply append_inj_length in E as [Emo E]; [|congruence].
  apply append_inj_length in E as [Ed E]; [|congruence].
  injection E as E.
  apply append_inj_length in E as [Eh E]; [|congruence].
  apply append_inj_length in E as [Emi Es]; [|congruence].
  apply Z_toString_inj in Ey.
  apply two_digits_inj in Emo, Ed, Eh, Emi, Es; try lia.
  f_equal; lia.
Qed.

(** X5.  Two calls of [generateFilename] with the same base name and
    extension, made at times that differ in the year, the month, the day,
    the hour, the minute or the second, give different names, whatever the
    number of digits of the years. *)
Theorem generateFilename_distinct (now1 now2 : CsvExport.Date)
    (baseName extension : option string) :
  CsvSpec.in_range now1 -> CsvSpec.in_range now2 ->
  now1 <> now2 ->
  CsvExport.generateFilename now1 baseName extension
  <> CsvExport.generateFilename now2 baseName extension.
Proof.
  intros H1 H2 Hne E. apply Hne.
  exact (generateFilename_inj now1 now2 baseName extension H1 H2 E).
Qed.

(** ** The sections of the export *)

Ltac distinct_strings :=
  repeat (apply List.NoDup_cons; [cbn [In]; intuition discriminate|]); apply List.NoDup_nil.

Section ExportedSections.

Variable rt : JS.Runtime.

(** X6.  Whatever the data, [convertToCSVSections] gives five sections of
    5, 11, 9, 4 and 3 rows; each has a title and headers that are distinct,
    and every row holds exactly the fields its section's headers name, in
    the order of the headers, so that no cell of the export is missing. *)
Theorem convertToCSVSections_rows_match_headers (exportData : ExportData.FullExportData) :
  map (fun section => List.length (CsvExport.rows section))
    (ExportData.convertToCSVSections rt exportData)
  = [5; 11; 9; 4; 3]%nat
  /\ Forall
       (fun section =>
          CsvExport.title section <> ""
          /\ CsvExport.headers section <> []
          /\ List.NoDup (CsvExport.headers section)
          /\ Forall (fun row => JS.Object_keys row = CsvExport.headers section)
               (CsvExport.rows section))
       (ExportData.convertToCSVSections rt exportData).
Proof.
  split; [reflexivity|].
  unfold ExportData.convertToCSVSections.
  repeat apply List.Forall_cons; try apply List.Forall_nil;
    (split; [discriminate|]; split; [discriminate|]; split; [distinct_strings|]);
    cbn [CsvExport.rows CsvExport.headers ExportData.metadataSection ExportData.inputSection
         ExportData.resultsSection ExportData.analysisSection ExportData.breakdownSection];
    repeat apply List.Forall_cons; try apply List.Forall_nil; reflexivity.
Qed.

(** X7.  The utilization rate of the summary is never above 100, and when
    it is finite it is a whole number, however the runtime rounds the
    quotient and the product. *)
Theorem createAnalysisSummary_utilization_at_most_100
    (values : ExportData.CalculatorValues) (results : ExportData.CalculationResults) :
  JS.gt (ExportData.analysisUtilizationRate (ExportData.createAnalysisSummary rt values results))
    (JS.of_Z 100) = false
  /\ forall q : Q,
       ExportData.analysisUtilizationRate (ExportData.createAnalysisSummary rt values results)
       = JS.Finite q ->
       exists z : Z, q = inject_Z z /\ (z <= 100)%Z.
Proof.
  assert (E : ExportData.analysisUtilizationRate
                (ExportData.createAnalysisSummary rt values results)
              = JS.Math_round
                  (JS.Math_min (JS.of_Z 100)
                     (JS.mul rt
                        (JS.div rt (ExportData.targetDishes values)
                           (ExportData.totalCapacity results))
                        (JS.of_Z 100)))).
  { unfold ExportData.createAnalysisSummary.
    destruct (JS.ge (ExportData.gap results) (JS.of_Z 0)); reflexivity. }
  rewrite E. clear E.
  destruct (JS.mul rt _ _) as [|[|]|x]; cbn.
  - split; [reflexivity | discriminate].
  - split; [reflexivity | discriminate].
  - split; [reflexivity|]. intros q [= <-]. exists 100%Z. split; [reflexivity | lia].
  - unfold JS.Math_min, JS.of_Z, JS.gt. cbn [JS.lt].
    destruct (JS.Qlt_bool x (inject_Z 100)) eqn:Hx; cbn [JS.Math_round JS.lt].
    + apply Qlt_bool_true in Hx.
      pose proof (round_half_up_below x 100 Hx) as Hk.
      split.
      * rewrite lt_inject_Z. apply Z.ltb_ge. exact Hk.
      * intros q [= <-]. eauto.
    + split; [reflexivity|]. intros q [= <-]. exists 100%Z. split; [reflexivity | lia].
Qed.

(** X8.  When the gap is NaN both comparisons of [createAnalysisSummary]
    fail: the status is "below target", the capacity status "insufficient"
    and the recommendation the moderate one. *)
Theorem createAnalysisSummary_gap_NaN
    (values : ExportData.CalculatorValues) (results : ExportData.CalculationResults) :
  ExportData.gap results = JS.NaN ->
  ExportData.status (ExportData.createAnalysisSummary rt values results)
  = ExportData.status_below_target
  /\ ExportData.capacityStatus (ExportData.createAnalysisSummary rt values results)
     = ExportData.capacity_insufficient
  /\ ExportData.recommendation (ExportData.createAnalysisSummary rt values results)
     = ExportData.recommend_moderate_shortfall.
Proof.
  intros Hgap. unfold ExportData.createAnalysisSummary. rewrite Hgap.
  cbn [JS.ge JS.le JS.of_Z JS.Math_abs JS.gt].
  destruct (JS.mul rt (ExportData.targetDishes values) JS.literal_0_1) as [|[|]|x];
    cbn; auto.
Qed.

(** X9.  The rows [objectsToCsvRows] makes of [createFlatCSVData]: the
    header is the five column names, and each of the four rows holds its
    five cells in that order. *)
Theorem createFlatCSVData_rows (exportData : ExportData.FullExportData) :
  CsvExport.objectsToCsvRows (JS.Number_toString rt) (ExportData.createFlatCSVData exportData)
  = "ประเภทข้อมูล,รายการ,ค่า,หน่วย,คำอธิบาย"
    :: map (fun row =>
              JS.join ","
                (map (CsvExport.formatCsvValue (JS.Number_toString rt))
                   (JS.Object_values row)))
         (ExportData.createFlatCSVData exportData).
Proof.
  unfold CsvExport.objectsToCsvRows, JS.forEach.
  rewrite (forEach_push
             (fun obj =>
                JS.join ","
                  (map (fun key => CsvExport.formatCsvValue (JS.Number_toString rt)
                                     (CsvExport.cell obj key))
                     (JS.Set_from
                        (flat_map (fun obj => map fst (JS.Object_entries obj))
                           (ExportData.createFlatCSVData exportData)))))).
  reflexivity.
Qed.

End ExportedSections.

(** ** The storage utilities *)

Lemma area_of_with_area (type : StorageType) (a : option StorageArea) (win : Window) :
  area_of type (with_area type a win) = a.
Proof. destruct type; reflexivity. Qed.

Lemma area_of_with_other_area (type type' : StorageType) (a : option StorageArea)
    (win : Window) :
  type' <> type -> area_of type' (with_area type a win) = area_of type' win.
Proof. destruct type, type'; congruence || reflexivity. Qed.

Lemma with_area_same (type : StorageType) (win : Window) :
  with_area type (area_of type win) win = win.
Proof. destruct type, win; reflexivity. Qed.

(** What the probe leaves: the trial key is absent, every other entry is
    as it was, and the other area is not touched. *)
Lemma openStorage_accepted (type : StorageType) (win : Window) (a : StorageArea) :
  area_of type win = Some a -> rejects a testKey "test" = false ->
  snd (openStorage type win) = true
  /\ area_of type (fst (openStorage type win))
     = Some {| items := delete testKey (items a); rejects := rejects a |}
  /\ forall type', type' <> type ->
       area_of type' (fst (openStorage type win)) = area_of type' win.
Proof.
  intros Ha Hok. unfold openStorage. rewrite Ha, Hok. cbn [fst snd].
  split; [reflexivity|]. split.
  - rewrite area_of_with_area, delete_insert_eq. reflexivity.
  - intros type' Hne. apply area_of_with_other_area. exact Hne.
Qed.

Lemma openStorage_refused (type : StorageType) (win : Window) :
  snd (openStorage type win) = false -> fst (openStorage type win) = win.
Proof.
  unfold openStorage. destruct (area_of type win) as [a|]; [|reflexivity].
  destruct (rejects a testKey "test"); [reflexivity | discriminate].
Qed.

(** After the probe the trial key is absent, whether or not a manager is
    returned for the later calls. *)
Lemma openStorage_trial_key (type : StorageType) (win : Window) :
  snd (openStorage type win) = true ->
  Storage_getItem type testKey (fst (openStorage type win)) = None.
Proof.
  unfold openStorage, Storage_getItem.
  destruct (area_of type win) as [a|] eqn:Ha; [|discriminate].
  destruct (rejects a testKey "test"); [discriminate|].
  intros _. cbn [fst]. rewrite area_of_with_area.
  cbn [items]. apply lookup_delete_eq.
Qed.

Section Utilities.

Variable JSON_parse : string -> option json.

(** X10.  After [storageUtils.set(k, value)] on an area that takes the
    trial write and the write of the value, for a key other than the trial
    key and a value that [JSON.parse] reads back from its text: [set]
    returns true, [storageUtils.get(k, d)] returns the value, [has(k)]
    returns true, the entries under other keys than the trial key are as
    they were, and no entry is left under the trial key. *)
Theorem storageUtils_set_then_get (k : string) (value defaultValue : json)
    (type : option StorageType) (win : Window) (a : StorageArea) :
  area_of (type_or_local type) win = Some a ->
  rejects a testKey "test" = false ->
  rejects a k (JSON_stringify value) = false ->
  k <> testKey ->
  JSON_parse (JSON_stringify value) = Some value ->
  let win' := fst (storageUtils_set k value type win) in
  snd (storageUtils_set k value type win) = true
  /\ snd (storageUtils_get JSON_parse k defaultValue type win') = value
  /\ snd (storageUtils_has k type win') = true
  /\ (forall k', k' <> k -> k' <> testKey ->
        Storage_getItem (type_or_local type) k' win' = items a !! k')
  /\ Storage_getItem (type_or_local type) testKey win' = None.
Proof.
  intros Ha Hprobe Hwrite Hk Hparse. cbv zeta.
  set (t := type_or_local type) in *.
  destruct (openStorage_accepted t win a Ha Hprobe) as (Hok & Harea & _).
  assert (Hset : storageUtils_set k value type win
                 = (with_area t
                      (Some {| items := <[k := JSON_stringify value]> (delete testKey (items a));
                               rejects := rejects a |})
                      (fst (openStorage t win)), true)).
  { unfold storageUtils_set. fold t.
    destruct (openStorage t win) as [win1 ok]. cbn [fst snd] in *. subst ok.
    unfold Storage_setItem. rewrite Harea. cbn [rejects items]. rewrite Hwrite. reflexivity. }
  rewrite Hset. cbn [fst snd]. clear Hset.
  set (a' := {| items := <[k := JSON_stringify value]> (delete testKey (items a));
                rejects := rejects a |}).
  set (win' := with_area t (Some a') (fst (openStorage t win))).
  assert (Ha' : area_of t win' = Some a')
    by (unfold win'; apply area_of_with_area).
  destruct (openStorage_accepted t win' a' Ha' Hprobe) as (Hok2 & Harea2 & _).
  assert (Hitem : Storage_getItem t k (fst (openStorage t win')) = Some (JSON_stringify value)).
  { unfold Storage_getItem. rewrite Harea2. cbn [items].
    rewrite lookup_delete_ne by congruence. apply lookup_insert_eq. }
  split; [reflexivity|]. split; [|split].
  - unfold storageUtils_get. fold t.
    destruct (openStorage t win') as [win2 ok2]. cbn [fst snd] in *. subst ok2.
    rewrite Hitem, Hparse. reflexivity.
  - unfold storageUtils_has. fold t.
    destruct (openStorage t win') as [win2 ok2]. cbn [fst snd] in *. subst ok2.
    rewrite Hitem. reflexivity.
  - split.
    + intros k' Hk' Htest. unfold Storage_getItem. rewrite Ha'. unfold a'. cbn [items].
      rewrite lookup_insert_ne, lookup_delete_ne by congruence. reflexivity.
    + unfold Storage_getItem. rewrite Ha'. unfold a'. cbn [items].
      rewrite lookup_insert_ne by congruence. apply lookup_delete_eq.
Qed.

(** X11.  When the area refuses the write of the value, [storageUtils.set]
    returns false and every entry, the one under the key included, keeps
    the value it had (the trial key apart). *)
Theorem storageUtils_set_refused (k : string) (value : json)
    (type : option StorageType) (win : Window) (a : StorageArea) :
  area_of (type_or_local type) win = Some a ->
  rejects a testKey "test" = false ->
  rejects a k (JSON_stringify value) = true ->
  snd (storageUtils_set k value type win) = false
  /\ forall k', k' <> testKey ->
       Storage_getItem (type_or_local type) k' (fst (storageUtils_set k value type win))
       = items a !! k'.
Proof.
  intros Ha Hprobe Hwrite.
  set (t := type_or_local type) in *.
  destruct (openStorage_accepted t win a Ha Hprobe) as (Hok & Harea & _).
  unfold storageUtils_set. fold t.
  destruct (openStorage t win) as [win1 ok]. cbn [fst snd] in *. subst ok.
  unfold Storage_setItem. rewrite Harea. cbn [rejects]. rewrite Hwrite. cbn [fst snd].
  split; [reflexivity|].
  intros k' Hk'. unfold Storage_getItem. rewrite Harea. cbn [items].
  apply lookup_delete_ne. congruence.
Qed.

(** X12.  After [storageUtils.remove(k)] on an area that takes the trial
    write, which returns true, [has(k)] returns false and [get(k, d)]
    returns the default [d]; the entries under other keys than the trial
    key are as they were, and no entry is left under the trial key. *)
Theorem storageUtils_remove_then_absent (k : string) (defaultValue : json)
    (type : option StorageType) (win : Window) (a : StorageArea) :
  area_of (type_or_local type) win = Some a ->
  rejects a testKey "test" = false ->
  let win' := fst (storageUtils_remove k type win) in
  snd (storageUtils_remove k type win) = true
  /\ snd (storageUtils_has k type win') = false
  /\ snd (storageUtils_get JSON_parse k defaultValue type win') = defaultValue
  /\ (forall k', k' <> k -> k' <> testKey ->
        Storage_getItem (type_or_local type) k' win' = items a !! k')
  /\ Storage_getItem (type_or_local type) testKey win' = None.
Proof.
  intros Ha Hprobe. cbv zeta.
  set (t := type_or_local type) in *.
  destruct (openStorage_accepted t win a Ha Hprobe) as (Hok & Harea & _).
  assert (Hrem : storageUtils_remove k type win
                 = (with_area t
                      (Some {| items := delete k (delete testKey (items a));
                               rejects := rejects a |})
                      (fst (openStorage t win)), true)).
  { unfold storageUtils_remove. fold t.
    destruct (openStorage t win) as [win1 ok]. cbn [fst snd] in *. subst ok.
    unfold Storage_removeItem. rewrite Harea. reflexivity. }
  rewrite Hrem. cbn [fst snd]. clear Hrem.
  set (a' := {| items := delete k (delete testKey (items a)); rejects := rejects a |}).
  set (win' := with_area t (Some a') (fst (openStorage t win))).
  assert (Ha' : area_of t win' = Some a')
    by (unfold win'; apply area_of_with_area).
  destruct (openStorage_accepted t win' a' Ha' Hprobe) as (Hok2 & Harea2 & _).
  assert (Hitem : Storage_getItem t k (fst (openStorage t win')) = None).
  { unfold Storage_getItem. rewrite Harea2. cbn [items].
    rewrite lookup_delete_None. right. apply lookup_delete_eq. }
  split; [reflexivity|]. split; [|split].
  - unfold storageUtils_has. fold t.
    destruct (openStorage t win') as [win2 ok2]. cbn [fst snd] in *. subst ok2.
    rewrite Hitem. reflexivity.
  - unfold storageUtils_get. fold t.
    destruct (openStorage t win') as [win2 ok2]. cbn [fst snd] in *. subst ok2.
    rewrite Hitem. reflexivity.
  - split.
    + intros k' Hk' Htest. unfold Storage_getItem. rewrite Ha'. unfold a'. cbn [items].
      rewrite !lookup_delete_ne by congruence. reflexivity.
    + unfold Storage_getItem. rewrite Ha'. unfold a'. cbn [items].
      rewrite lookup_delete_None. right. apply lookup_delete_eq.
Qed.

(** X13.  When [getStorageManager] returns no manager, [get] returns the
    default, [set], [remove] and [has] return false, and the window is left
    as it was. *)
Theorem storageUtils_without_storage (k : string) (value defaultValue : json)
    (type : option StorageType) (win : Window) :
  snd (openStorage (type_or_local type) win) = false ->
  storageUtils_get JSON_parse k defaultValue type win = (win, defaultValue)
  /\ storageUtils_set k value type win = (win, false)
  /\ storageUtils_remove k type win = (win, false)
  /\ storageUtils_has k type win = (win, false).
Proof.
  intros Hnull. pose proof (openStorage_refused _ _ Hnull) as Hwin.
  unfold storageUtils_get, storageUtils_set, storageUtils_remove, storageUtils_has.
  destruct (openStorage (type_or_local type) win) as [win1 ok]. cbn [fst snd] in *.
  subst ok win1. auto.
Qed.

(** X14.  The key of the trial write cannot be used through the
    utilities: every call probes the area, which removes the entry under
    that key, so [has] returns false and [get] the default for it, also
    right after a [set] under it. *)
Theorem storageUtils_trial_key_absent (value defaultValue : json)
    (type : option StorageType) (win : Window) :
  snd (storageUtils_has testKey type win) = false
  /\ snd (storageUtils_get JSON_parse testKey defaultValue type win) = defaultValue
  /\ snd (storageUtils_has testKey type (fst (storageUtils_set testKey value type win))) = false
  /\ snd (storageUtils_get JSON_parse testKey defaultValue type
            (fst (storageUtils_set testKey value type win)))
     = defaultValue.
Proof.
  assert (H : forall win0,
             snd (storageUtils_has testKey type win0) = false
             /\ snd (storageUtils_get JSON_parse testKey defaultValue type win0) = defaultValue).
  { intros win0. unfold storageUtils_has, storageUtils_get.
    pose proof (openStorage_trial_key (type_or_local type) win0) as Hkey.
    destruct (openStorage (type_or_local type) win0) as [win1 [|]]; cbn [fst snd] in *.
    - rewrite Hkey by reflexivity. auto.
    - auto. }
  destruct (H win) as [H1 H2].
  destruct (H (fst (storageUtils_set testKey value type win))) as [H3 H4].
  auto.
Qed.

End Utilities.

(** ** Clearing the entries of the application *)

(** The loop over the indices gathers the keys that pass the test, in the
    order of the area. *)
Lemma gather_keys (f : string -> bool) (l : list string) :
  forall pre acc : list string,
    fold_left
      (fun acc i =>
         match (pre ++ l) !! i with
         | Some k => if f k then acc ++ [k] else acc
         | None => acc
         end)
      (seq (List.length pre) (List.length l)) acc
    = acc ++ List.filter f l.
Proof.
  induction l as [|x l IH]; intros pre acc; cbn [List.length seq fold_left List.filter].
  - rewrite app_nil_r. reflexivity.
  - rewrite list_lookup_middle by reflexivity.
    replace (pre ++ x :: l) with ((pre ++ [x]) ++ l) by (rewrite <- app_assoc; reflexivity).
    replace (S (List.length pre)) with (List.length (pre ++ [x]))
      by (rewrite length_app; cbn; lia).
    rewrite IH. destruct (f x); [rewrite <- app_assoc|]; reflexivity.
Qed.

Lemma gather_all_keys (f : string -> bool) (l : list string) :
  fold_left
    (fun acc i =>
       match l !! i with
       | Some k => if f k then acc ++ [k] else acc
       | None => acc
       end)
    (seq 0 (List.length l)) []
  = List.filter f l.
Proof. exact (gather_keys f l [] []). Qed.

Lemma remove_keys (keys : list string) :
  forall (i : nat) (win : Window) (a : StorageArea),
    localArea win = Some a ->
    exists a' : StorageArea,
      localArea (JS.forEach_from i
                   (fun win k (_ : nat) => Storage_removeItem localStorage k win) keys win)
      = Some a'
      /\ sessionArea (JS.forEach_from i
                        (fun win k (_ : nat) => Storage_removeItem localStorage k win) keys win)
         = sessionArea win
      /\ rejects a' = rejects a
      /\ (forall k, In k keys -> items a' !! k = None)
      /\ (forall k, ~ In k keys -> items a' !! k = items a !! k).
Proof.
  induction keys as [|x keys IH]; intros i win a Ha; cbn [JS.forEach_from].
  - exists a. cbn [In]. tauto.
  - destruct (IH (S i) (Storage_removeItem localStorage x win)
                {| items := delete x (items a); rejects := rejects a |})
      as (a' & Hl & Hs & Hr & Hin & Hout).
    { unfold Storage_removeItem. cbn [area_of]. rewrite Ha. reflexivity. }
    exists a'. split; [exact Hl|]. split; [|split; [exact Hr|split]].
    + rewrite Hs. unfold Storage_removeItem. cbn [area_of]. rewrite Ha. reflexivity.
    + intros k [->|Hk].
      * destruct (in_dec string_dec k keys) as [Hk|Hk]; [apply Hin, Hk|].
        rewrite Hout by exact Hk. apply lookup_delete_eq.
      * apply Hin, Hk.
    + intros k Hk. cbn [In] in Hk. rewrite Hout by tauto.
      apply lookup_delete_ne. tauto.
Qed.

Lemma Storage_keys_In (a : StorageArea) (k : string) :
  In k (Storage_keys a) <-> items a !! k <> None.
Proof.
  unfold Storage_keys. rewrite <- list_elem_of_In, list_elem_of_fmap. split.
  - intros ([k' v] & -> & Hin). apply elem_of_map_to_list in Hin. cbn. congruence.
  - intros Hk. destruct (items a !! k) as [v|] eqn:E; [|contradiction].
    exists (k, v). split; [reflexivity|]. apply elem_of_map_to_list. exact E.
Qed.

(** What [clearAllAppStorage] leaves of an area that accepts the trial
    write. *)
Lemma clear_prefixed_entries (appPrefix : option string) (win : Window) (a : StorageArea) :
  localArea win = Some a ->
  rejects a testKey "test" = false ->
  exists a' : StorageArea,
    localArea (clearAllAppStorage appPrefix win) = Some a'
    /\ sessionArea (clearAllAppStorage appPrefix win) = sessionArea win
    /\ rejects a' = rejects a
    /\ forall k,
         items a' !! k
         = if String.prefix (default "calculator" appPrefix) k || String.eqb k testKey
           then None
           else items a !! k.
Proof.
  intros Ha Hprobe.
  destruct (openStorage_accepted localStorage win a Ha Hprobe) as (Hok & Harea & Hother).
  specialize (Hother sessionStorage ltac:(discriminate)).
  cbn [area_of] in Harea, Hother.
  unfold clearAllAppStorage.
  destruct (openStorage localStorage win) as [win1 ok]. cbn [fst snd] in *. subst ok.
  rewrite Harea.
  set (a1 := {| items := delete testKey (items a); rejects := rejects a |}) in *.
  set (p := match appPrefix with Some p => p | None => "calculator" end).
  replace (default "calculator" appPrefix) with p by (destruct appPrefix; reflexivity).
  unfold Storage_key, Storage_length.
  rewrite (gather_all_keys (String.prefix p) (Storage_keys a1)).
  unfold JS.forEach.
  destruct (remove_keys (List.filter (String.prefix p) (Storage_keys a1)) 0 win1 a1 Harea)
    as (a' & Hl & Hs & Hrej & Hin & Hout).
  exists a'. split; [exact Hl|]. split; [congruence|]. split; [exact Hrej|].
  intros k. destruct (String.prefix p k) eqn:Hk; cbn [orb].
  - destruct (items a1 !! k) as [v|] eqn:E.
    + apply Hin. apply filter_In. split; [|exact Hk].
      apply Storage_keys_In. congruence.
    + rewrite Hout; [exact E|]. rewrite filter_In, Storage_keys_In. tauto.
  - rewrite Hout by (rewrite filter_In; intros [_ H]; congruence).
    unfold a1. cbn [items].
    destruct (String.eqb k testKey) eqn:Et.
    + apply String.eqb_eq in Et. subst k. apply lookup_delete_eq.
    + apply String.eqb_neq in Et. apply lookup_delete_ne. congruence.
Qed.

(** X15.  When the local area takes the trial write, [clearAllAppStorage]
    removes every entry whose key starts with the prefix (["calculator"]
    when none is given) and, through the probe, the entry under the trial
    key; every other entry of the local area keeps its value, and the
    session area is not touched. *)
Theorem clearAllAppStorage_removes_prefixed (appPrefix : option string) (win : Window)
    (a : StorageArea) :
  localArea win = Some a ->
  rejects a testKey "test" = false ->
  let win' := clearAllAppStorage appPrefix win in
  (forall k, String.prefix (default "calculator" appPrefix) k = true ->
             Storage_getItem localStorage k win' = None)
  /\ Storage_getItem localStorage testKey win' = None
  /\ (forall k, String.prefix (default "calculator" appPrefix) k = false -> k <> testKey ->
                Storage_getItem localStorage k win' = items a !! k)
  /\ sessionArea win' = sessionArea win.
Proof.
  intros Ha Hprobe. cbv zeta.
  destruct (clear_prefixed_entries appPrefix win a Ha Hprobe) as (a' & Hl & Hs & _ & Hitems).
  unfold Storage_getItem. cbn [area_of]. rewrite Hl.
  split; [|split; [|split; [|exact Hs]]].
  - intros k Hk. rewrite Hitems, Hk. reflexivity.
  - rewrite Hitems, String.eqb_refl, orb_true_r. reflexivity.
  - intros k Hk Htest. apply String.eqb_neq in Htest. rewrite Hitems, Hk, Htest. reflexivity.
Qed.

(** ** Objects with the same fields *)

Section SameFields.

Context {V : Type}.


(** Writing a property with the value it has changes nothing. *)
Lemma set_same (obj : JS.object V) (k : string) (v : V) :
  JS.get obj k = Some v -> JS.set obj k v = obj.
Proof.
  induction obj as [|[k' v'] obj IH]; cbn [JS.get JS.set]; [discriminate|].
  destruct (String.eqb k' k) eqn:E.
  - intros [= ->]. reflexivity.
  - intros H. rewrite IH by exact H. reflexivity.
Qed.

Lemma set_set (obj : JS.object V) (k : string) (v v' : V) :
  JS.set (JS.set obj k v) k v' = JS.set obj k v'.
Proof.
  induction obj as [|[k1 v1] obj IH]; cbn [JS.set].
  - rewrite String.eqb_refl. reflexivity.
  - destruct (String.eqb k1 k) eqn:E; cbn [JS.set]; rewrite E; [reflexivity|].
    rewrite IH. reflexivity.
Qed.

Lemma keys_set_absent (obj : JS.object V) (k : string) (v : V) :
  ~ In k (JS.Object_keys obj) -> JS.Object_keys (JS.set obj k v) = JS.Object_keys obj ++ [k].
Proof.
  induction obj as [|[k' v'] obj IH]; cbn [JS.set JS.Object_keys map fst In app];
    [reflexivity|].
  intros Hout. destruct (String.eqb k' k) eqn:E.
  - apply String.eqb_eq in E. tauto.
  - cbn [map fst]. f_equal. apply IH. tauto.
Qed.

End SameFields.

Lemma filter_all {A} (f : A -> bool) (l : list A) :
  Forall (fun x => f x = true) l -> List.filter f l = l.
Proof.
  induction 1 as [|x l Hx Hl IH]; cbn [List.filter]; [reflexivity|].
  rewrite Hx, IH. reflexivity.
Qed.

Section MergedFields.

Context {V : Type}.






End MergedFields.

(** ** Saving and loading again *)

Section Reload.

Variable JSON_parse : string -> option PersistentState.json.
Variable options : PersistentState.StorageOptions.

Import PersistentState.






(** X19.  The cleanup on unmount cancels the pending write in any state
    the container can reach: no timeout is armed afterwards, and however
    much time passes the area is not written. *)
Theorem unmount_drops_pending_write (w : World) (h : Hook) (dt : Z) :
  reachable JSON_parse options w h ->
  timers (unmount w h) = []
  /\ timers (advance options dt (unmount w h)) = []
  /\ area (advance options dt (unmount w h)) = area w
  /\ setItem_calls (advance options dt (unmount w h)) = setItem_calls w.
Proof.
  intros Hreach.
  pose proof (reachable_coherent JSON_parse options w h Hreach) as Hco.
  pose proof (cancel_pending w h Hco) as Hnone.
  fold (unmount w h) in Hnone.
  destruct (advance_no_timers options dt _ Hnone) as (Ht & _ & Hc).
  split; [exact Hnone|]. split; [exact Ht|]. split.
  - unfold advance. rewrite Hnone. cbn. unfold unmount.
    destruct (debounceRef h); reflexivity.
  - rewrite Hc. unfold unmount. destruct (debounceRef h); reflexivity.
Qed.


End Reload.

(** ** Merging twice *)

Section Idempotence.

Variable options : PersistentState.StorageOptions.

Import PersistentState.


End Idempotence.

(** ** The calculator's updates *)

Lemma updateValue_object (fields : JS.object json) (k : string) (value : Z) :
  List.NoDup (JS.Object_keys fields) ->
  apply_update (JObj fields) (CalculatorState.updateValue k value)
  = JObj (JS.set fields k (JNum value)).
Proof.
  intros Hnd. cbn [apply_update CalculatorState.updateValue own_props].
  rewrite (copy_props_fresh fields []) by (auto; intros k' _ []). reflexivity.
Qed.

(** X20.  [updateValue(k, value)] on an object gives an object in which
    the field [k] has the value and every other field the value it had;
    the fields keep their order when [k] is one of them, and [k] comes last
    when it is new. *)
Theorem updateValue_sets_one_field (fields : JS.object json) (k : string) (value : Z) :
  List.NoDup (JS.Object_keys fields) ->
  exists next : JS.object json,
    apply_update (JObj fields) (CalculatorState.updateValue k value) = JObj next
    /\ JS.get next k = Some (JNum value)
    /\ (forall k', k' <> k -> JS.get next k' = JS.get fields k')
    /\ (In k (JS.Object_keys fields) -> JS.Object_keys next = JS.Object_keys fields)
    /\ (~ In k (JS.Object_keys fields) -> JS.Object_keys next = JS.Object_keys fields ++ [k]).
Proof.
  intros Hnd. exists (JS.set fields k (JNum value)).
  split; [apply updateValue_object, Hnd|]. split; [apply get_set_eq|]. split; [|split].
  - intros k' Hne. apply get_set_ne. congruence.
  - apply keys_set_present.
  - apply keys_set_absent.
Qed.

(** X21.  After [updateValue(k, value)] on the default values,
    [hasUnsavedChanges] returns true exactly when the value differs from
    the default one of the field; after a further [updateValue] that puts
    the default value back it returns false. *)
Theorem hasUnsavedChanges_after_updateValue
    (defaults : JS.object json) (k : string) (d value : Z) :
  List.NoDup (JS.Object_keys defaults) ->
  JS.get defaults k = Some (JNum d) ->
  CalculatorState.hasUnsavedChanges
    (apply_update (JObj defaults) (CalculatorState.updateValue k value)) (JObj defaults)
  = negb (value =? d)%Z
  /\ CalculatorState.hasUnsavedChanges
       (apply_update (apply_update (JObj defaults) (CalculatorState.updateValue k value))
          (CalculatorState.updateValue k d))
       (JObj defaults)
     = false.
Proof.
  intros Hnd Hk.
  assert (Hin : In k (JS.Object_keys defaults)) by (apply get_Some_In; eauto).
  assert (Hsame : forall v, CalculatorState.hasUnsavedChanges v v = false).
  { intros v. unfold CalculatorState.hasUnsavedChanges. rewrite String.eqb_refl. reflexivity. }
  rewrite (updateValue_object defaults k value Hnd).
  rewrite (updateValue_object (JS.set defaults k (JNum value)) k d)
    by (rewrite keys_set_present by exact Hin; exact Hnd).
  split.
  - destruct (value =? d)%Z eqn:E; cbn [negb].
    + apply Z.eqb_eq in E. subst value. rewrite set_same by exact Hk. apply Hsame.
    + unfold CalculatorState.hasUnsavedChanges. apply negb_true_iff.
      apply not_true_iff_false. intros Heq. apply String.eqb_eq, JSON_stringify_eq in Heq.
      cbn [JsonText.JSON_value] in Heq.
      apply (f_equal (fun v => JS.get (own_props v) k)) in Heq.
      rewrite !get_written in Heq
        by (rewrite ?keys_set_present by exact Hin; exact Hnd).
      rewrite get_set_eq, Hk in Heq. cbn [JsonText.written] in Heq. injection Heq as ->.
      rewrite Z.eqb_refl in E. discriminate.
  - rewrite set_set, set_same by exact Hk. apply Hsame.
Qed.

(** X22.  [updateValues(updates)] on an object gives an object in which a
    field of the updates has the value they give and every other field the
    value it had; the fields keep their order when the updates name no new
    field; and for one field it is [updateValue]. *)
Theorem updateValues_overrides_listed_fields (prev updates : JS.object json) :
  List.NoDup (JS.Object_keys prev) ->
  List.NoDup (JS.Object_keys updates) ->
  exists next : JS.object json,
    apply_update (JObj prev) (CalculatorState.updateValues (JObj updates)) = JObj next
    /\ (forall k v, JS.get updates k = Some v -> JS.get next k = Some v)
    /\ (forall k, JS.get updates k = None -> JS.get next k = JS.get prev k)
    /\ ((forall k, In k (JS.Object_keys updates) -> In k (JS.Object_keys prev)) ->
        JS.Object_keys next = JS.Object_keys prev)
    /\ (forall k value, updates = [(k, JNum value)] ->
        JObj next = apply_update (JObj prev) (CalculatorState.updateValue k value)).
Proof.
  intros Hprev Hupd. exists (JS.copy_props prev updates).
  assert (E : apply_update (JObj prev) (CalculatorState.updateValues (JObj updates))
              = JObj (JS.copy_props prev updates)).
  { cbn [apply_update CalculatorState.updateValues]. unfold spread. cbn [own_props].
    rewrite (copy_props_fresh prev []) by (auto; intros k' _ []). reflexivity. }
  split; [exact E|]. split; [|split; [|split]].
  - intros k v Hk. rewrite get_copy_props, Hk by exact Hupd. reflexivity.
  - intros k Hk. rewrite get_copy_props, Hk by exact Hupd. reflexivity.
  - apply keys_copy_props_subset.
  - intros k value ->. rewrite updateValue_object by exact Hprev. reflexivity.
Qed.

(** ** Resetting everything *)

Section ResetAll.

Variable JSON_parse : string -> option json.



End ResetAll.

(** ** Line numbers of the validation *)

(** The indices the loop keeps, each plus one, are the positions of the
    lines whose count differs. *)
Lemma offending_positions (count : string -> nat) (c : nat) (l : list string) :
  forall i : nat,
    map (fun item : nat * nat => (snd item + 1)%nat)
      (List.filter (fun item : nat * nat => negb (fst item =? c)%nat)
         (JS.mapi_from i (fun line index => (count line, index)) l))
    = List.filter (fun n => negb (count (nth (n - 1 - i) l "") =? c)%nat)
        (seq (i + 1) (List.length l)).
Proof.
  induction l as [|x l IH]; intros i; cbn [JS.mapi_from List.filter List.length seq map];
    [reflexivity|].
  cbn [fst snd].
  replace (i + 1 - 1 - i)%nat with 0%nat by lia.
  change (nth 0 (x :: l) "") with x.
  assert (Etail : List.filter (fun n => negb (count (nth (n - 1 - i) (x :: l) "") =? c)%nat)
                    (seq (S (i + 1)) (List.length l))
                  = List.filter (fun n => negb (count (nth (n - 1 - S i) l "") =? c)%nat)
                      (seq (S i + 1) (List.length l))).
  { replace (S i + 1)%nat with (S (i + 1)) by lia.
    apply filter_ext_in. intros n Hn. apply in_seq in Hn.
    replace (n - 1 - i)%nat with (S (n - 1 - S i)) by lia. reflexivity. }
  rewrite Etail, <- IH.
  destruct (negb (count x =? c)%nat); cbn [map snd]; reflexivity.
Qed.

Lemma nonblank_length (s : string) : s <> "" -> (0 <? String.length s)%nat = true.
Proof. destruct s; [contradiction | reflexivity]. Qed.

(** X24.  For content without a blank line, [validateCsvContent] finds it
    valid and reports the true line numbers: the warning about column
    counts is there exactly when some line has another count of
    comma-separated fields than the first line, and it lists the 1-based
    numbers of those lines, in order; no other warning is about column
    counts. *)
Theorem validateCsvContent_line_numbers (csvContent : string) :
  JS.trim csvContent <> "" ->
  Forall (fun line => JS.trim line <> "") (JS.split JS.LF csvContent) ->
  let lines := JS.split JS.LF csvContent in
  let columns := fun line => List.length (JS.split JS.comma line) in
  let offending :=
    List.filter (fun n => negb (columns (nth (n - 1) lines "") =? columns (nth 0 lines ""))%nat)
      (seq 1 (List.length lines)) in
  CsvExport.isValid (CsvExport.validateCsvContent csvContent) = true
  /\ exists others : list string,
       CsvExport.warnings (CsvExport.validateCsvContent csvContent)
       = match offending with
         | [] => []
         | _ :: _ =>
             ["Inconsistent column counts found in lines: "
              +:+ JS.join ", " (map JS.nat_toString offending)]
         end ++ others
       /\ Forall (fun w => String.prefix "Inconsistent" w = false) others.
Proof.
  intros Hcontent Hlines. cbv zeta.
  unfold CsvExport.validateCsvContent.
  replace (String.eqb (JS.trim csvContent) "") with false
    by (symmetry; apply String.eqb_neq; exact Hcontent).
  cbv zeta. cbn [CsvExport.isValid CsvExport.warnings].
  split; [reflexivity|].
  rewrite (filter_all (fun line => (0 <? String.length (JS.trim line))%nat)
             (JS.split JS.LF csvContent))
    by (eapply List.Forall_impl; [|exact Hlines]; intros l Hl; apply nonblank_length, Hl).
  set (lines := JS.split JS.LF csvContent).
  set (c := List.length (JS.split JS.comma (nth 0 lines ""))).
  eexists. split.
  - rewrite <- app_assoc. f_equal.
    pose proof (offending_positions (fun line => List.length (JS.split JS.comma line)) c
                  lines 0) as Hpos.
    cbv beta in Hpos. fold (JS.mapi (fun line index => (List.length (JS.split JS.comma line),
                                                          index)) lines) in Hpos.
    change (0 + 1)%nat with 1%nat in Hpos.
    assert (Hpos' : List.filter
                      (fun n => negb (List.length (JS.split JS.comma (nth (n - 1) lines ""))
                                      =? c)%nat)
                      (seq 1 (List.length lines))
                    = map (fun item : nat * nat => (snd item + 1)%nat)
                        (List.filter (fun item : nat * nat => negb (fst item =? c)%nat)
                           (JS.mapi (fun line index =>
                                       (List.length (JS.split JS.comma line), index)) lines))).
    { rewrite Hpos. apply filter_ext_in. intros n _.
      replace (n - 1 - 0)%nat with (n - 1)%nat by lia. reflexivity. }
    rewrite Hpos'. clear Hpos Hpos'.
    set (inconsistent := List.filter _ (JS.mapi _ lines)).
    destruct (1 <? List.length lines)%nat eqn:Hmany.
    + rewrite map_map. destruct inconsistent as [|item rest]; reflexivity.
    + assert (Hnone : inconsistent = []).
      { subst inconsistent. apply Nat.ltb_ge in Hmany.
        destruct lines as [|l0 [|l1 ls]]; [reflexivity| |cbn in Hmany; lia].
        unfold JS.mapi. cbn [JS.mapi_from List.filter fst]. subst c. cbn [nth].
        rewrite Nat.eqb_refl. reflexivity. }
      rewrite Hnone. reflexivity.
  - apply Forall_app. split.
    + destruct (JS.includes csvContent _); repeat constructor.
    + destruct (JS.Qlt_bool 10 _); repeat constructor.
Qed.

(** ** The export of the application *)

(** X25.  The text [handleExport] builds is well-formed CSV whatever the
    inputs, the metrics, the texts of the metadata and the printing of
    numbers: the standard reader reads 51 records, and in each section the
    records of the rows have as many fields as the record of the headers
    (2, 4, 4, 2 and 4), the title and the blank lines being records of one
    field. *)
Theorem export_is_well_formed_csv (rt : JS.Runtime) (metadata : ExportData.ExportMetadata)
    (values : ExportData.CalculatorValues) (metrics : ExportData.CalculationResults) :
  exists table : list (list string),
    CsvSpec.read (App.csvContent rt metadata values metrics) = Some table
    /\ map (@List.length string) table
       = ([1; 1] ++ repeat 2 6 ++ [1]) ++ ([1; 1] ++ repeat 4 12 ++ [1])
         ++ ([1; 1] ++ repeat 4 10 ++ [1]) ++ ([1; 1] ++ repeat 2 5 ++ [1])
         ++ ([1; 1] ++ repeat 4 4)%nat.
Proof.
  eexists. split.
  - unfold App.csvContent. cbv zeta.
    rewrite sectionsToCSV_lines, all_lines_cells, <- map_map. apply read_written.
  - reflexivity.
Qed.

(** * Instances *)

(** A text with a comma and quotes survives the round trip. *)
Lemma formatCsvValue_round_trip_witness :
  CsvExport.VStr ("say " +:+ JS.str JS.quote +:+ "hi" +:+ JS.str JS.quote +:+ ", ok")
  <> CsvExport.VNull
  /\ CsvSpec.csvUnquote
       (CsvExport.formatCsvValue Samples.print_integer
          (CsvExport.VStr ("say " +:+ JS.str JS.quote +:+ "hi" +:+ JS.str JS.quote +:+ ", ok")))
     = Some ("say " +:+ JS.str JS.quote +:+ "hi" +:+ JS.str JS.quote +:+ ", ok").
Proof.
  split; [discriminate|].
  apply (proj2 (proj2 (formatCsvValue_round_trip Samples.print_integer))); discriminate.
Defined.

(** A surplus of 60 dishes on a target of 200: above a fifth of the target. *)
Lemma createAnalysisSummary_branches_witness :
  JS.ge (ExportData.gap (Samples.results 260 60)) (JS.of_Z 0) = true
  /\ ExportData.status
       (ExportData.createAnalysisSummary Samples.runtime Samples.values
          (Samples.results 260 60))
     = ExportData.status_exceeds_target.
Proof.
  split; [reflexivity|].
  apply (proj1 (createAnalysisSummary_branches Samples.runtime Samples.values
                  (Samples.results 260 60))).
  reflexivity.
Defined.

(** An export whose total capacity is zero. *)
Lemma breakdown_percent_zero_total_witness :
  ExportData.totalCapacity
    (ExportData.calculatedResults
       (ExportData.aggregateExportData Samples.runtime Samples.metadata Samples.values
          (Samples.results 0 (-200))))
  = JS.Finite (inject_Z 0)
  /\ exists section : CsvExport.CsvSection,
       nth_error
         (ExportData.convertToCSVSections Samples.runtime
            (ExportData.aggregateExportData Samples.runtime Samples.metadata Samples.values
               (Samples.results 0 (-200)))) 4
       = Some section
       /\ map (fun row => CsvExport.cell row ExportData.percent_header) (CsvExport.rows section)
          = [CsvExport.VStr "0%"; CsvExport.VStr "0%"; CsvExport.VStr "0%"]
       /\ map (fun row => CsvExport.formatCsvValue Samples.print_integer
                            (CsvExport.cell row ExportData.percent_header))
              (CsvExport.rows section)
          = ["0%"; "0%"; "0%"].
Proof.
  split; [reflexivity|].
  apply (breakdown_percent_zero_total Samples.runtime _ (inject_Z 0)); reflexivity.
Defined.

(** C4, the part of the claim that fails.  The final section has a title
    and neither headers nor rows: the blank line that follows the title is
    the last line, and the text ends with a newline. *)
Lemma sectionsToCSV_title_only_ends_with_newline :
  CsvExport.sectionsToCSV Samples.print_integer [Samples.title_only]
  = "Summary" +:+ JS.str JS.LF.
Proof. vm_compute. reflexivity. Qed.

(** The cells of a record with fields named by array indices: without
    headers those fields come first, in ascending order; under headers a
    name the record lacks gives the inherited property, or nothing. *)
Lemma sectionsToCSV_row_cells :
  CsvExport.sectionsToCSV Samples.print_integer
    [{| CsvExport.title := ""; CsvExport.headers := [];
        CsvExport.rows := [Samples.row_with_indices] |}]
  = "4,2,1,3"
  /\ CsvExport.sectionsToCSV Samples.print_integer
       [{| CsvExport.title := ""; CsvExport.headers := ["a"; "toString"; "c"];
           CsvExport.rows := [Samples.row_with_indices] |}]
     = "a,toString,c" +:+ JS.str JS.LF +:+ "3,function toString() { [native code] },".
Proof. split; vm_compute; reflexivity. Qed.



(** A clear while the write of an update is pending, the update having
    been made and rendered with storage available. *)
Lemma clearStoredValue_cancels_pending_write_witness :
  timers (fst Samples.rendered_update) <> []
  /\ RenderCycle.storage (snd Samples.rendered_update) = true
  /\ getItem
       (fst (RenderCycle.run Samples.parse Samples.options
               [RenderCycle.DoAdvance 1000; RenderCycle.DoRender; RenderCycle.DoReset;
                RenderCycle.DoRender; RenderCycle.DoAdvance 1000]
               (RenderCycle.clearStoredValue Samples.options (fst Samples.rendered_update)
                  (snd Samples.rendered_update),
                snd Samples.rendered_update)))
       (key Samples.options)
     = None.
Proof.
  split; [vm_compute; discriminate|]. split; [reflexivity|].
  pose proof (clearStoredValue_cancels_pending_write Samples.parse Samples.options
                (fst Samples.rendered_update) (snd Samples.rendered_update)
                {| timer_id := 1; due := 500;
                   timer_value :=
                     apply_update
                       (RenderCycle.state
                          (snd (RenderCycle.mount Samples.parse Samples.options
                                  Samples.world_with_storage)))
                       (CalculatorState.updateValue "targetDishes" 250) |}
                [RenderCycle.DoAdvance 1000; RenderCycle.DoRender; RenderCycle.DoReset;
                 RenderCycle.DoRender; RenderCycle.DoAdvance 1000]) as H.
  cbv zeta in H.
  destruct H as [H _].
  - exists Samples.world_with_storage,
      [RenderCycle.DoEffects;
       RenderCycle.DoUpdate false (CalculatorState.updateValue "targetDishes" 250);
       RenderCycle.DoRender].
    split; [reflexivity|]. symmetry. apply surjective_pairing.
  - left. vm_compute. reflexivity.
  - reflexivity.
  - reflexivity.
  - destruct (H eq_refl) as (_ & _ & _ & _ & _ & Habsent). apply Habsent. reflexivity.
Defined.

(** C10, the part of the claim that fails.  The area has come to refuse
    the trial write while the write of an update is pending, and the
    component has been rendered again: [clearStoredValue] returns at its
    guard, the timeout stays armed and the entry stays; once the delay has
    passed the timeout runs and writes the entry. *)
Lemma clearStoredValue_skipped_without_storage :
  (exists w0 : World,
     timers w0 = []
     /\ RenderCycle.run Samples.parse Samples.options
          [RenderCycle.DoEffects;
           RenderCycle.DoUpdate false (CalculatorState.updateValue "targetDishes" 250);
           RenderCycle.DoRender;
           RenderCycle.DoOutside (Some Samples.area_without_room);
           RenderCycle.DoRender]
          (RenderCycle.mount Samples.parse Samples.options w0)
        = Samples.rendered_without_storage)
  /\ List.length (timers (fst Samples.rendered_without_storage)) = 1%nat
  /\ RenderCycle.storage (snd Samples.rendered_without_storage) = false
  /\ timers (RenderCycle.clearStoredValue Samples.options
               (fst Samples.rendered_without_storage) (snd Samples.rendered_without_storage))
     = timers (fst Samples.rendered_without_storage)
  /\ getItem (RenderCycle.clearStoredValue Samples.options
                (fst Samples.rendered_without_storage) (snd Samples.rendered_without_storage))
       (key Samples.options)
     = Some (JSON_stringify Samples.stored_partial)
  /\ getItem
       (fst (RenderCycle.run Samples.parse Samples.options
               [RenderCycle.DoClear; RenderCycle.DoAdvance 500]
               Samples.rendered_without_storage))
       (key Samples.options)
     = Some (JSON_stringify
               (apply_update
                  (RenderCycle.state
                     (snd (RenderCycle.mount Samples.parse Samples.options
                             Samples.world_with_storage)))
                  (CalculatorState.updateValue "targetDishes" 250))).
Proof.
  split; [exists Samples.world_with_storage; split; reflexivity|].
  repeat split; vm_compute; reflexivity.
Qed.

(** C10, the case the theorem leaves out.  A second update is made while
    the write of the first is pending, and [clearStoredValue] is called
    before the next render: the timeout of the first update is cancelled
    and the entry removed, but the render then runs the updater of the
    second, which arms a timeout, and the entry is written once the delay
    has passed. *)
Lemma queued_update_writes_after_clear :
  List.length (timers (fst Samples.second_update_waiting)) = 1%nat
  /\ RenderCycle.storage (snd Samples.second_update_waiting) = true
  /\ forallb RenderCycle.is_value (RenderCycle.queue (snd Samples.second_update_waiting))
     = false
  /\ timers (RenderCycle.clearStoredValue Samples.options
               (fst Samples.second_update_waiting) (snd Samples.second_update_waiting))
     = []
  /\ getItem (RenderCycle.clearStoredValue Samples.options
                (fst Samples.second_update_waiting) (snd Samples.second_update_waiting))
       (key Samples.options)
     = None
  /\ getItem
       (fst (RenderCycle.run Samples.parse Samples.options
               [RenderCycle.DoClear; RenderCycle.DoRender; RenderCycle.DoAdvance 500]
               Samples.second_update_waiting))
       (key Samples.options)
     = Some (JSON_stringify
               (fold_left apply_update
                  [CalculatorState.updateValue "targetDishes" 250;
                   CalculatorState.updateValue "targetDishes" 300]
                  (RenderCycle.state
                     (snd (RenderCycle.mount Samples.parse Samples.options
                             Samples.world_with_storage))))).
Proof. repeat split; vm_compute; reflexivity. Qed.


Lemma defaultValues_keys_NoDup :
  List.NoDup (JS.Object_keys (own_props CalculatorState.defaultValues)).
Proof.
  repeat (apply List.NoDup_cons; [cbn; intuition discriminate|]). apply List.NoDup_nil.
Defined.


(** The JSON text of a state that holds a number with a fraction, a
    number that is none and a field without a value. *)
Lemma JSON_stringify_of_state :
  JSON_stringify
    (JObj [("dishesPerPerson", JFraction false 2 (Decimal.D5 Decimal.Nil));
           ("gap", JNaN); ("note", JUndefined); ("0", JNum (-3))])
  = "{" +:+ JSON_quote "0" +:+ ":-3," +:+ JSON_quote "dishesPerPerson" +:+ ":2.5,"
    +:+ JSON_quote "gap" +:+ ":null}".
Proof. vm_compute. reflexivity. Qed.

(** C8, the part of the claim that fails.  The default's fields with the
    first two exchanged: the same fields with the same values, and
    [hasUnsavedChanges] returns true. *)
Lemma hasUnsavedChanges_depends_on_field_order :
  Permutation (own_props Samples.reordered_defaults) (own_props CalculatorState.defaultValues)
  /\ CalculatorState.hasUnsavedChanges Samples.reordered_defaults CalculatorState.defaultValues
     = true.
Proof. split; [apply perm_swap | vm_compute; reflexivity]. Qed.

(** The name of an export made on 5 March 2024 at 14:07:09. *)
Lemma generateFilename_digits_witness :
  CsvSpec.in_range Samples.export_time
  /\ exists date time : string,
       CsvExport.generateFilename Samples.export_time (Some "customer_rotation_export") None
       = default "export" (Some "customer_rotation_export") +:+ "_" +:+ date +:+ "_" +:+ time
         +:+ "." +:+ default "csv" None
       /\ String.length date = 8%nat /\ CsvSpec.all_digits date = true
       /\ String.length time = 6%nat /\ CsvSpec.all_digits time = true.
Proof.
  assert (Hrange : CsvSpec.in_range Samples.export_time)
    by (unfold CsvSpec.in_range; cbn; lia).
  split; [exact Hrange|].
  apply (generateFilename_digits Samples.export_time (Some "customer_rotation_export") None
           Hrange).
  cbn. lia.
Defined.

(** Two exports one second apart. *)
Lemma generateFilename_distinct_witness :
  Samples.export_time <> Samples.a_second_later
  /\ CsvExport.generateFilename Samples.export_time None None
     <> CsvExport.generateFilename Samples.a_second_later None None.
Proof.
  assert (Hne : Samples.export_time <> Samples.a_second_later) by discriminate.
  split; [exact Hne|].
  apply (generateFilename_distinct Samples.export_time Samples.a_second_later None None).
  - unfold CsvSpec.in_range; cbn; lia.
  - unfold CsvSpec.in_range; cbn; lia.
  - exact Hne.
Defined.

(** Results that are no numbers. *)
Lemma createAnalysisSummary_gap_NaN_witness :
  ExportData.gap Samples.results_NaN = JS.NaN
  /\ ExportData.status
       (ExportData.createAnalysisSummary Samples.runtime Samples.values Samples.results_NaN)
     = ExportData.status_below_target.
Proof.
  split; [reflexivity|].
  apply (createAnalysisSummary_gap_NaN Samples.runtime Samples.values Samples.results_NaN).
  reflexivity.
Defined.

(** The calculator values written and read through the utilities. *)
Lemma storageUtils_set_then_get_witness :
  Samples.parse (JSON_stringify Samples.stored_partial) = Some Samples.stored_partial
  /\ snd (storageUtils_get Samples.parse "calculator-values" JNull None
            (fst (storageUtils_set "calculator-values" Samples.stored_partial None
                    Samples.window)))
     = Samples.stored_partial.
Proof.
  split; [reflexivity|].
  pose proof (storageUtils_set_then_get Samples.parse "calculator-values"
                Samples.stored_partial JNull None Samples.window Samples.shared_area) as H.
  cbv zeta in H. apply H; try reflexivity. discriminate.
Defined.

(** A write to an area that is full. *)
Lemma storageUtils_set_refused_witness :
  rejects Samples.full_area "theme" (JSON_stringify (JStr "dark")) = true
  /\ snd (storageUtils_set "theme" (JStr "dark") None Samples.full_window) = false.
Proof.
  split; [reflexivity|].
  apply (storageUtils_set_refused "theme" (JStr "dark") None Samples.full_window
           Samples.full_area); reflexivity.
Defined.

(** The calculator values removed through the utilities. *)
Lemma storageUtils_remove_then_absent_witness :
  localArea Samples.window = Some Samples.shared_area
  /\ snd (storageUtils_has "calculator-values" None
            (fst (storageUtils_remove "calculator-values" None Samples.window)))
     = false.
Proof.
  split; [reflexivity|].
  pose proof (storageUtils_remove_then_absent Samples.parse "calculator-values" JNull None
                Samples.window Samples.shared_area) as H.
  cbv zeta in H. apply H; reflexivity.
Defined.

(** The utilities in a window without storage. *)
Lemma storageUtils_without_storage_witness :
  snd (openStorage localStorage {| localArea := None; sessionArea := None |}) = false
  /\ storageUtils_set "theme" (JStr "dark") None {| localArea := None; sessionArea := None |}
     = ({| localArea := None; sessionArea := None |}, false).
Proof.
  split; [reflexivity|].
  apply (storageUtils_without_storage Samples.parse "theme" (JStr "dark") JNull None
           {| localArea := None; sessionArea := None |}).
  reflexivity.
Defined.

(** The entries of the calculator cleared, the one of another application
    kept. *)
Lemma clearAllAppStorage_removes_prefixed_witness :
  localArea Samples.window = Some Samples.shared_area
  /\ Storage_getItem localStorage "calculator-preferences"
       (clearAllAppStorage None Samples.window) = None
  /\ Storage_getItem localStorage "theme" (clearAllAppStorage None Samples.window)
     = Some "dark".
Proof.
  split; [reflexivity|].
  pose proof (clearAllAppStorage_removes_prefixed None Samples.window Samples.shared_area
                eq_refl eq_refl) as H.
  cbv zeta in H. destruct H as (Hpre & _ & Hother & _).
  split.
  - apply Hpre. reflexivity.
  - rewrite Hother; [reflexivity | reflexivity | discriminate].
Defined.

(** A reset while the write of an update is pending, then a render and a
    second of quiet. *)
Lemma resetToDefault_then_reload_witness :
  timers (fst Samples.rendered_update) <> []
  /\ RenderCycle.state
       (snd (RenderCycle.mount Samples.parse Samples.options
               (fst (RenderCycle.run Samples.parse Samples.options
                       [RenderCycle.DoRender; RenderCycle.DoAdvance 1000]
                       (RenderCycle.resetToDefault Samples.options
                          (fst Samples.rendered_update) (snd Samples.rendered_update))))))
     = defaultValue Samples.options.
Proof.
  split; [vm_compute; discriminate|].
  pose proof (resetToDefault_then_reload Samples.parse Samples.options
                (fst Samples.rendered_update) (snd Samples.rendered_update)
                [RenderCycle.DoRender; RenderCycle.DoAdvance 1000]) as H.
  cbv zeta in H. apply H.
  - exists Samples.world_with_storage,
      [RenderCycle.DoEffects;
       RenderCycle.DoUpdate false (CalculatorState.updateValue "targetDishes" 250);
       RenderCycle.DoRender].
    split; [reflexivity|]. symmetry. apply surjective_pairing.
  - reflexivity.
  - reflexivity.
  - reflexivity.
Defined.



(** An unmount while the write of an update is pending. *)
Lemma unmount_drops_pending_write_witness :
  timers (fst Samples.updated_with_storage) <> []
  /\ setItem_calls
       (advance Samples.options 1000
          (unmount (fst Samples.updated_with_storage) (snd Samples.updated_with_storage)))
     = setItem_calls (fst Samples.updated_with_storage).
Proof.
  split; [vm_compute; discriminate|].
  apply (unmount_drops_pending_write Samples.parse Samples.options
           (fst Samples.updated_with_storage) (snd Samples.updated_with_storage) 1000).
  exists Samples.world_with_storage,
    [DoEffects; DoUpdate (CalculatorState.updateValue "targetDishes" 250)].
  split; [reflexivity|]. symmetry. apply surjective_pairing.
Defined.

(** The target set to 250 on the default values. *)
Lemma updateValue_sets_one_field_witness :
  List.NoDup (JS.Object_keys (own_props CalculatorState.defaultValues))
  /\ exists next : JS.object json,
       apply_update CalculatorState.defaultValues
         (CalculatorState.updateValue "targetDishes" 250)
       = JObj next
       /\ JS.get next "targetDishes" = Some (JNum 250).
Proof.
  split; [exact defaultValues_keys_NoDup|].
  destruct (updateValue_sets_one_field (own_props CalculatorState.defaultValues)
              "targetDishes" 250 defaultValues_keys_NoDup)
    as (next & Hnext & Hget & _).
  exists next. split; [exact Hnext | exact Hget].
Defined.

(** The target set to 250 and back to 200. *)
Lemma hasUnsavedChanges_after_updateValue_witness :
  JS.get (own_props CalculatorState.defaultValues) "targetDishes" = Some (JNum 200)
  /\ CalculatorState.hasUnsavedChanges
       (apply_update CalculatorState.defaultValues
          (CalculatorState.updateValue "targetDishes" 250))
       CalculatorState.defaultValues
     = true.
Proof.
  split; [reflexivity|].
  apply (proj1 (hasUnsavedChanges_after_updateValue (own_props CalculatorState.defaultValues)
                  "targetDishes" 200 250 defaultValues_keys_NoDup eq_refl)).
Defined.

(** Two fields updated at once on the default values. *)
Lemma updateValues_overrides_listed_fields_witness :
  List.NoDup (JS.Object_keys (own_props Samples.stored_partial))
  /\ exists next : JS.object json,
       apply_update CalculatorState.defaultValues
         (CalculatorState.updateValues Samples.stored_partial)
       = JObj next
       /\ JS.get next "noShowRate" = Some (JNum 10)
       /\ JS.get next "localCustomers" = Some (JNum 100).
Proof.
  assert (Hnd : List.NoDup (JS.Object_keys (own_props Samples.stored_partial))).
  { cbn. repeat (apply List.NoDup_cons; [cbn; intuition discriminate|]). apply List.NoDup_nil. }
  split; [exact Hnd|].
  destruct (updateValues_overrides_listed_fields (own_props CalculatorState.defaultValues)
              (own_props Samples.stored_partial) defaultValues_keys_NoDup Hnd)
    as (next & Hnext & Hover & Hkeep & _).
  exists next. split; [exact Hnext|]. split.
  - apply Hover. reflexivity.
  - rewrite Hkeep by reflexivity. reflexivity.
Defined.


(** Two lines, the second with one field. *)
Lemma validateCsvContent_line_numbers_witness :
  Forall (fun line => JS.trim line <> "") (JS.split JS.LF ("a,b" +:+ JS.str JS.LF +:+ "c"))
  /\ exists others : list string,
       CsvExport.warnings (CsvExport.validateCsvContent ("a,b" +:+ JS.str JS.LF +:+ "c"))
       = ["Inconsistent column counts found in lines: 2"] ++ others.
Proof.
  assert (Hlines : Forall (fun line => JS.trim line <> "")
                     (JS.split JS.LF ("a,b" +:+ JS.str JS.LF +:+ "c")))
    by (repeat constructor; discriminate).
  split; [exact Hlines|].
  pose proof (validateCsvContent_line_numbers ("a,b" +:+ JS.str JS.LF +:+ "c")) as H.
  cbv zeta in H.
  destruct H as (_ & others & Hw & _); [discriminate | exact Hlines |].
  exists others. exact Hw.
Defined.


